(** * chat_anon_frontend: audio codec, capture, playback scheduler and session protocol

    A shallow embedding of the TypeScript sources
      - [src/utils/audio.ts]            (module [Audio])
      - [stores/chatStore.ts]           (module [Store])
      - [src/hooks/useAudioRecorder.ts] (module [Recorder])
      - [hooks/useAudioPlayer.ts]       (module [Player])
      - [src/hooks/useWebSocket.ts]     (module [WebSocketHook])
    followed by the properties proved about them.

    JavaScript numbers are embedded as rationals [Q]: every operation the
    codec performs on finite samples (clamping, multiplication of a 32-bit
    float by a 16-bit constant, truncation, division by a power of two) is
    exact in IEEE double precision, so the rational model agrees with the
    code on finite inputs.  NaN and infinities are outside the model.
    Typed arrays are lists; an [Int16Array] is a [list Z] whose elements
    lie in [-32768, 32767]. *)

From Stdlib Require Import ZArith QArith Qround Qabs List String Ascii Bool Lia Lqa Arith.
Import ListNotations.

(** ** Host language primitives *)

Module JS.

(** [Math.max(a, b)] and [Math.min(a, b)]. *)
Definition Math_max (a b : Q) : Q := if Qle_bool b a then a else b.
Definition Math_min (a b : Q) : Q := if Qle_bool a b then a else b.

(** [Math.floor], and [Math.round] (halves round towards +infinity). *)
Definition Math_floor (x : Q) : Z := Qfloor x.
Definition Math_round (x : Q) : Z := Qfloor (x + (1 # 2)).

(** Truncation towards zero, the first step of every integer conversion. *)
Definition Math_trunc (x : Q) : Z :=
  if Qle_bool 0 x then Qfloor x else Qceiling x.

Definition Qlt_bool (x y : Q) : bool := negb (Qle_bool y x).

(** [ToInt16]: the conversion applied on a store into an [Int16Array]:
    truncate, then wrap modulo 2^16 into the signed range. *)
Definition ToInt16 (x : Q) : Z :=
  ((Math_trunc x + 32768) mod 65536 - 32768)%Z.

Definition int16 (v : Z) : Prop := (-32768 <= v < 32768)%Z.
Definition uint8 (v : Z) : Prop := (0 <= v < 256)%Z.

(** [for (let i = start; i < start + n; i++) body]. *)
Fixpoint for_range {A : Type} (start n : nat) (body : nat -> A -> A) (a : A) : A :=
  match n with
  | O => a
  | S n' => for_range (S start) n' body (body start a)
  end.

(** [arr[i] = v] on a typed array: a store outside the array is ignored. *)
Fixpoint aset {A : Type} (i : nat) (v : A) (arr : list A) : list A :=
  match arr, i with
  | [], _ => []
  | _ :: t, O => v :: t
  | h :: t, S j => h :: aset j v t
  end.

(** [arr[i]] for an index the code has computed as a number. *)
Definition aget (arr : list Q) (i : Z) : Q := nth (Z.to_nat i) arr 0.

(** [dst.set(src, offset)]: element-wise copy of [src] into [dst]. *)
Definition TypedArray_set {A : Type} (dst src : list A) (offset : nat) : list A :=
  fst (fold_left (fun '(d, k) v => (aset k v d, S k)) src (dst, offset)).

(** [String.fromCharCode(b)] for a byte and [s.charCodeAt(i)] for a
    character of a binary string. *)
Definition fromCharCode (b : Z) : ascii := ascii_of_N (Z.to_N b).
Definition charCode (c : ascii) : Z := Z.of_N (N_of_ascii c).

(** What the embedding takes from the host and leaves abstract: the
    IEEE square root, and the sample rates for which the host is able
    to create an [AudioBuffer]. *)
Record Host := {
  Math_sqrt : Q -> Q;
  sampleRateSupported : Q -> bool
}.

End JS.

(** ** src/utils/audio.ts *)

Module Audio.
Import JS.

(** [AUDIO_CONFIG.sampleRate] *)
Definition sampleRate : Q := 16000.

Definition float32ToInt16 (float32Array : list Q) : list Z :=
  for_range 0 (List.length float32Array)
    (fun i int16Array =>
       let s := Math_max (-1) (Math_min 1 (nth i float32Array 0)) in
       aset i (ToInt16 (if Qlt_bool s 0 then s * inject_Z 0x8000
                        else s * inject_Z 0x7fff)) int16Array)
    (repeat 0%Z (List.length float32Array)).

Definition int16ToFloat32 (int16Array : list Z) : list Q :=
  for_range 0 (List.length int16Array)
    (fun i float32Array =>
       aset i (inject_Z (nth i int16Array 0%Z) / inject_Z 0x8000) float32Array)
    (repeat 0 (List.length int16Array)).

(** Sample rates are positive in every call the program makes (the rate
    of an [AudioContext] and [AUDIO_CONFIG.sampleRate]); for such rates
    the length below is non-negative and every read is inside the input. *)
Definition resampleAudio (audioData : list Q) (fromSampleRate toSampleRate : Q)
  : list Q :=
  if Qeq_bool fromSampleRate toSampleRate then audioData
  else
    let ratio := fromSampleRate / toSampleRate in
    let newLength :=
      Z.to_nat (Math_round (inject_Z (Z.of_nat (List.length audioData)) / ratio)) in
    for_range 0 newLength
      (fun i result =>
         let srcIndex := inject_Z (Z.of_nat i) * ratio in
         let srcIndexFloor := Math_floor srcIndex in
         let srcIndexCeil :=
           Z.min (srcIndexFloor + 1) (Z.of_nat (List.length audioData) - 1) in
         let fraction := srcIndex - inject_Z srcIndexFloor in
         aset i (aget audioData srcIndexFloor * (1 - fraction)
                 + aget audioData srcIndexCeil * fraction) result)
      (repeat 0 newLength).

(** *** The transport encoding

    [btoa] and [atob] are browser built-ins; they are embedded after the
    HTML standard (base64 with padding; forgiving-base64 decode). *)

Definition alphabet : list ascii :=
  list_ascii_of_string
    "ABCDEFGHIJKLMNOPQRSTUVWXYZabcdefghijklmnopqrstuvwxyz0123456789+/".

Definition pad : ascii := "="%char.

Definition char_of_sextet (s : Z) : ascii := nth (Z.to_nat s) alphabet pad.

Fixpoint index_of (c : ascii) (l : list ascii) (i : Z) : option Z :=
  match l with
  | [] => None
  | x :: r => if Ascii.eqb c x then Some i else index_of c r (i + 1)%Z
  end.

Definition sextet_of_char (c : ascii) : option Z := index_of c alphabet 0%Z.

(** Three bytes give four sextets; a final group of one or two bytes
    gives two or three sextets. *)
Fixpoint sextets_of_bytes (l : list Z) : list Z :=
  match l with
  | [] => []
  | a :: l1 =>
      match l1 with
      | [] => [a / 4; (a mod 4) * 16]%Z
      | b :: l2 =>
          match l2 with
          | [] => [a / 4; (a mod 4) * 16 + b / 16; (b mod 16) * 4]%Z
          | c :: r =>
              (a / 4 :: (a mod 4) * 16 + b / 16
                 :: (b mod 16) * 4 + c / 64 :: c mod 64
                 :: sextets_of_bytes r)%Z
          end
      end
  end.

Definition padding (nbytes : nat) : list ascii :=
  match (nbytes mod 3)%nat with
  | 1%nat => [pad; pad]
  | 2%nat => [pad]
  | _ => []
  end.

Definition btoa (binary : string) : string :=
  let bytes := map charCode (list_ascii_of_string binary) in
  string_of_list_ascii
    (map char_of_sextet (sextets_of_bytes bytes) ++ padding (List.length bytes)).

Definition is_ascii_whitespace (c : ascii) : bool :=
  let n := N_of_ascii c in
  (N.eqb n 9 || N.eqb n 10 || N.eqb n 12 || N.eqb n 13 || N.eqb n 32)%bool.

(** Remove one or two trailing [=]. *)
Fixpoint strip_padding (d : list ascii) : list ascii :=
  match d with
  | [] => []
  | x :: r =>
      match r with
      | [] => if Ascii.eqb x pad then [] else [x]
      | y :: r' =>
          match r' with
          | [] => if (Ascii.eqb x pad && Ascii.eqb y pad)%bool then []
                  else x :: strip_padding r
          | _ :: _ => x :: strip_padding r
          end
      end
  end.

Fixpoint sextets_of_chars (d : list ascii) : option (list Z) :=
  match d with
  | [] => Some []
  | c :: r =>
      match sextet_of_char c, sextets_of_chars r with
      | Some s, Some l => Some (s :: l)
      | _, _ => None
      end
  end.

(** Four sextets give three bytes; two or three left-over sextets give
    one or two bytes, the unused low bits being dropped. *)
Fixpoint bytes_of_sextets (l : list Z) : list Z :=
  match l with
  | [] => []
  | a :: l1 =>
      match l1 with
      | [] => []
      | b :: l2 =>
          match l2 with
          | [] => [a * 4 + b / 16]%Z
          | c :: l3 =>
              match l3 with
              | [] => [a * 4 + b / 16; (b mod 16) * 16 + c / 4]%Z
              | d :: r =>
                  (a * 4 + b / 16 :: (b mod 16) * 16 + c / 4
                     :: (c mod 4) * 64 + d :: bytes_of_sextets r)%Z
              end
          end
      end
  end.

(** [atob] throws ([None]) on input that is not base64. *)
Definition atob (data : string) : option string :=
  let d := filter (fun c => negb (is_ascii_whitespace c))
                  (list_ascii_of_string data) in
  let d := if (List.length d mod 4 =? 0)%nat then strip_padding d else d in
  if (List.length d mod 4 =? 1)%nat then None
  else
    match sextets_of_chars d with
    | None => None
    | Some sx =>
        Some (string_of_list_ascii (map fromCharCode (bytes_of_sextets sx)))
    end.

(** [new Uint8Array(int16Array.buffer)]: the little-endian bytes of the
    two's-complement samples. *)
Definition bytes_of_int16 (int16Array : list Z) : list Z :=
  flat_map (fun v => [v mod 256; (v / 256) mod 256]%Z) int16Array.

(** [new Int16Array(bytes.buffer)]: throws a RangeError ([None]) when the
    byte length is odd. *)
Fixpoint int16_of_bytes (bytes : list Z) : option (list Z) :=
  match bytes with
  | [] => Some []
  | lo :: r =>
      match r with
      | [] => None
      | hi :: r' =>
          match int16_of_bytes r' with
          | None => None
          | Some l =>
              let u := (lo + 256 * hi)%Z in
              Some ((if (u <? 32768)%Z then u else u - 65536)%Z :: l)
          end
      end
  end.

Definition int16ToBase64 (int16Array : list Z) : string :=
  let uint8Array := bytes_of_int16 int16Array in
  let binary :=
    for_range 0 (List.length uint8Array)
      (fun i binary =>
         (binary ++ String (fromCharCode (nth i uint8Array 0%Z)) EmptyString)%string)
      EmptyString in
  btoa binary.

Definition base64ToInt16 (base64 : string) : option (list Z) :=
  match atob base64 with
  | None => None
  | Some binary =>
      let bytes :=
        for_range 0 (String.length binary)
          (fun i bytes =>
             aset i (match String.get i binary with
                     | Some c => charCode c
                     | None => 0%Z
                     end) bytes)
          (repeat 0%Z (String.length binary)) in
      int16_of_bytes bytes
  end.

(** An [AudioBuffer] with one channel. *)
Record AudioBuffer := {
  channelData : list Q;
  bufferRate : Q
}.

(** [buffer.duration], in seconds. *)
Definition duration (b : AudioBuffer) : Q :=
  inject_Z (Z.of_nat (List.length (channelData b))) / bufferRate b.

Section WithHost.
Variable host : Host.

(** [audioContext.createBuffer(1, length, sampleRate)] throws a
    NotSupportedError ([None]) for a length of zero or a rate the host
    does not support. *)
Definition createAudioBuffer (int16Data : list Z) (rate : Q)
  : option AudioBuffer :=
  let float32Data := int16ToFloat32 int16Data in
  if ((List.length float32Data =? 0)%nat || negb (sampleRateSupported host rate))%bool
  then None
  else Some {| channelData := float32Data; bufferRate := rate |}.

Definition calculateRMS (audioData : list Q) : Q :=
  let sum :=
    for_range 0 (List.length audioData)
      (fun i sum => sum + nth i audioData 0 * nth i audioData 0) 0 in
  Math_sqrt host (sum / inject_Z (Z.of_nat (List.length audioData))).

Definition normalizeVolume (rms : Q) : Q := Math_min 1 (rms * 3).

End WithHost.

End Audio.


(** ** src/utils/websocket.ts: the message contracts *)

Module Protocol.

Inductive PipelineStage := idle | asr | llm | tts | playing.

Record Character := {
  name : string;
  display_name : string;
  description : string;
  voice_id : string
}.

(** Server to client messages, by their [type] tag.  [unhandled] stands
    for every tag no handler has a case for. *)
Inductive ServerMessage :=
| connected (character character_display_name message : string)
| disconnected (reason message : string)
| thinking (message : string)
| asr_start
| asr_end (text : string)
| llm_start
| llm_end (elapsed_time : Q)
| tts_start (text emotion : string)
| transcription (text : string) (is_partial : bool)
| audio_chunk (audio_base64 audio_format : string) (audio_sample_rate : Q)
| audio_end
| response (content_cn content_jp emotion : string)
| turn_end
| audio_stream_started (message : string)
| agent_listening
| character_switched (character character_display_name message : string)
| history_cleared (message : string)
| pong
| error (message : string)
| unhandled (type : string).

(** Client to server messages. *)
Inductive ClientMessage :=
| connect_msg (api_token character_name : string)
| text_message (content : string)
| audio_message (audio_base64 : string)
| audio_stream_start
| audio_stream_chunk (audio_base64 : string)
| audio_stream_end
| agent_mode_start
| agent_audio_chunk (audio_base64 : string)
| agent_mode_stop
| switch_character (character_name : string)
| clear_history
| ping.

End Protocol.

(** ** stores/chatStore.ts: the shared state store *)

Module Store.
Import Protocol.

Inductive Role := user | assistant.

Record ChatMessage := {
  id : string;
  role : Role;
  content : string;
  contentJp : option string;
  emotion : option string;
  timestamp : Z;
  isPartial : option bool
}.

Inductive ConnectionStatus :=
| status_disconnected | status_connecting | status_connected | status_error.

Inductive VoiceMode := voice_idle | push_to_talk | voice_call.

(** [ws] holds a handle to the shared WebSocket object; [volumeLevelRef]
    is the cell [{ current: number }] written outside [set]. *)
Record ChatState := {
  connectionStatus : ConnectionStatus;
  errorMessage : option string;
  apiToken : string;
  ws : option nat;
  currentCharacter : option Character;
  characters : list Character;
  messages : list ChatMessage;
  partialTranscription : string;
  pipelineStage : PipelineStage;
  isThinking : bool;
  voiceMode : VoiceMode;
  isRecording : bool;
  isPlaying : bool;
  volumeLevel : Q;
  volumeLevelRef : Q
}.

(** [initialState]; the token is read from local storage at start-up. *)
Definition initialState (storedToken : string) : ChatState := {|
  connectionStatus := status_disconnected;
  errorMessage := None;
  apiToken := storedToken;
  ws := None;
  currentCharacter := None;
  characters := [];
  messages := [];
  partialTranscription := EmptyString;
  pipelineStage := idle;
  isThinking := false;
  voiceMode := voice_idle;
  isRecording := false;
  isPlaying := false;
  volumeLevel := 0;
  volumeLevelRef := 0
|}.

(** The named operations of the store ([set] is synchronous: the state
    read by [getState()] after a call is the updated one). *)
Inductive Action :=
| setConnectionStatus (status : ConnectionStatus)
| setErrorMessage (message : option string)
| setApiToken (token : string)
| setWs (handle : option nat)
| setCurrentCharacter (character : option Character)
| setCharacters (cs : list Character)
| addMessage (message : ChatMessage)
| setPartialTranscription (text : string)
| setPipelineStage (stage : PipelineStage)
| setIsThinking (thinking : bool)
| setVoiceMode (mode : VoiceMode)
| setIsRecording (recording : bool)
| setIsPlaying (playing : bool)
| setVolumeLevel (level : Q)
| clearMessages.

Definition dispatch (a : Action) (s : ChatState) : ChatState :=
  let 'Build_ChatState cs em tok w cc chs ms pt ps th vm rec pl vl vr := s in
  match a with
  | setConnectionStatus x => Build_ChatState x em tok w cc chs ms pt ps th vm rec pl vl vr
  | setErrorMessage x => Build_ChatState cs x tok w cc chs ms pt ps th vm rec pl vl vr
  | setApiToken x => Build_ChatState cs em x w cc chs ms pt ps th vm rec pl vl vr
  | setWs x => Build_ChatState cs em tok x cc chs ms pt ps th vm rec pl vl vr
  | setCurrentCharacter x => Build_ChatState cs em tok w x chs ms pt ps th vm rec pl vl vr
  | setCharacters x => Build_ChatState cs em tok w cc x ms pt ps th vm rec pl vl vr
  | addMessage m => Build_ChatState cs em tok w cc chs (ms ++ [m]) pt ps th vm rec pl vl vr
  | setPartialTranscription x => Build_ChatState cs em tok w cc chs ms x ps th vm rec pl vl vr
  | setPipelineStage x => Build_ChatState cs em tok w cc chs ms pt x th vm rec pl vl vr
  | setIsThinking x => Build_ChatState cs em tok w cc chs ms pt ps x vm rec pl vl vr
  | setVoiceMode x => Build_ChatState cs em tok w cc chs ms pt ps th x rec pl vl vr
  | setIsRecording x => Build_ChatState cs em tok w cc chs ms pt ps th vm x pl vl vr
  | setIsPlaying x => Build_ChatState cs em tok w cc chs ms pt ps th vm rec x vl vr
  | setVolumeLevel x => Build_ChatState cs em tok w cc chs ms pt ps th vm rec pl x vr
  | clearMessages => Build_ChatState cs em tok w cc chs [] EmptyString ps th vm rec pl vl vr
  end.

(** [state.volumeLevelRef.current = v] *)
Definition writeVolumeLevelRef (v : Q) (s : ChatState) : ChatState :=
  let 'Build_ChatState cs em tok w cc chs ms pt ps th vm rec pl vl _ := s in
  Build_ChatState cs em tok w cc chs ms pt ps th vm rec pl vl v.

End Store.

(** ** src/hooks/useAudioRecorder.ts: the capture pipeline *)

Module Recorder.
Import JS Store.

(** The hook's options: whether the callbacks are given, and the flush
    interval (default 100 ms). *)
Record Options := {
  onChunk : bool;
  onVolumeChange : bool;
  chunkIntervalMs : Q
}.

(** Invocations of the caller's callbacks, and lines on the error console. *)
Inductive Output :=
| chunk_emitted (base64Data : string)
| volume_changed (volume : Q)
| console_error (text : string).

(** The outcome of [navigator.mediaDevices.getUserMedia]. *)
Inductive MediaResult :=
| media_unsupported
| media_denied
| media_failed
| media_granted (stream : nat) (hardwareRate : Q).

(** The store, the hook's [useState] cells and its refs.  [processorRef]
    holds the script processor with the sample rate of the context its
    frame handler closes over; [chunkIntervalRef] tells whether a flush
    interval is registered. *)
Record World := {
  store : ChatState;
  calls : list Action;
  outputs : list Output;
  isSupported : bool;
  permissionDenied : bool;
  streamRef : option nat;
  audioContextRef : option Q;
  processorRef : option Q;
  sourceRef : bool;
  chunksRef : list (list Z);
  isRecordingRef : bool;
  chunkIntervalRef : bool;
  accumulatedSamplesRef : list (list Q)
}.

Definition init (st : ChatState) : World := {|
  store := st; calls := []; outputs := [];
  isSupported := true; permissionDenied := false;
  streamRef := None; audioContextRef := None; processorRef := None;
  sourceRef := false; chunksRef := []; isRecordingRef := false;
  chunkIntervalRef := false; accumulatedSamplesRef := []
|}.

Definition call (a : Action) (w : World) : World :=
  let 'Build_World st cl out sup den str ctx prc src chk rec itv acc := w in
  Build_World (dispatch a st) (cl ++ [a]) out sup den str ctx prc src chk rec itv acc.
Definition emit (o : Output) (w : World) : World :=
  let 'Build_World st cl out sup den str ctx prc src chk rec itv acc := w in
  Build_World st cl (out ++ [o]) sup den str ctx prc src chk rec itv acc.
Definition setIsSupported (v : bool) (w : World) : World :=
  let 'Build_World st cl out _ den str ctx prc src chk rec itv acc := w in
  Build_World st cl out v den str ctx prc src chk rec itv acc.
Definition setPermissionDenied (v : bool) (w : World) : World :=
  let 'Build_World st cl out sup _ str ctx prc src chk rec itv acc := w in
  Build_World st cl out sup v str ctx prc src chk rec itv acc.
Definition set_streamRef (v : option nat) (w : World) : World :=
  let 'Build_World st cl out sup den _ ctx prc src chk rec itv acc := w in
  Build_World st cl out sup den v ctx prc src chk rec itv acc.
Definition set_audioContextRef (v : option Q) (w : World) : World :=
  let 'Build_World st cl out sup den str _ prc src chk rec itv acc := w in
  Build_World st cl out sup den str v prc src chk rec itv acc.
Definition set_processorRef (v : option Q) (w : World) : World :=
  let 'Build_World st cl out sup den str ctx _ src chk rec itv acc := w in
  Build_World st cl out sup den str ctx v src chk rec itv acc.
Definition set_sourceRef (v : bool) (w : World) : World :=
  let 'Build_World st cl out sup den str ctx prc _ chk rec itv acc := w in
  Build_World st cl out sup den str ctx prc v chk rec itv acc.
Definition set_chunksRef (v : list (list Z)) (w : World) : World :=
  let 'Build_World st cl out sup den str ctx prc src _ rec itv acc := w in
  Build_World st cl out sup den str ctx prc src v rec itv acc.
Definition set_isRecordingRef (v : bool) (w : World) : World :=
  let 'Build_World st cl out sup den str ctx prc src chk _ itv acc := w in
  Build_World st cl out sup den str ctx prc src chk v itv acc.
Definition set_chunkIntervalRef (v : bool) (w : World) : World :=
  let 'Build_World st cl out sup den str ctx prc src chk rec _ acc := w in
  Build_World st cl out sup den str ctx prc src chk rec v acc.
Definition set_accumulatedSamplesRef (v : list (list Q)) (w : World) : World :=
  let 'Build_World st cl out sup den str ctx prc src chk rec itv _ := w in
  Build_World st cl out sup den str ctx prc src chk rec itv v.

(** The merge loop shared by the interval flush and [stopRecording]:
    sum the lengths, allocate, copy every array at its offset. *)
Definition mergeArrays {A : Type} (zero : A) (arrs : list (list A)) : list A :=
  let totalLength := fold_left (fun sum arr => (sum + List.length arr)%nat) arrs 0%nat in
  fst (fold_left
         (fun '(merged, offset) arr =>
            (TypedArray_set merged arr offset, (offset + List.length arr)%nat))
         arrs (repeat zero totalLength, 0%nat)).

Section WithHost.
Variable host : Host.
Variable options : Options.

(** [startRecording]; the boolean tells whether the promise resolved
    ([true]) or the error was rethrown ([false]). *)
Definition startRecording (media : MediaResult) (w : World) : World * bool :=
  match media with
  | media_unsupported =>
      let w := setIsSupported false w in
      (emit (console_error "Failed to start recording:") w, false)
  | media_denied =>
      let w := emit (console_error "Failed to start recording:") w in
      (setPermissionDenied true w, false)
  | media_failed =>
      (emit (console_error "Failed to start recording:") w, false)
  | media_granted stream hardwareRate =>
      let w := set_streamRef (Some stream) w in
      let w := setPermissionDenied false w in
      let w := set_audioContextRef (Some hardwareRate) w in
      let w := set_sourceRef true w in
      let w := set_processorRef (Some hardwareRate) w in
      let w := set_chunksRef [] w in
      let w := set_accumulatedSamplesRef [] w in
      let w := set_isRecordingRef true w in
      let w := if onChunk options then set_chunkIntervalRef true w else w in
      (call (setIsRecording true) w, true)
  end.

(** [processor.onaudioprocess], for one frame of input samples. *)
Definition onaudioprocess (inputData : list Q) (w : World) : World :=
  match processorRef w with
  | None => w
  | Some contextRate =>
      if negb (isRecordingRef w) then w
      else
        let float32Data := inputData in
        let rms := Audio.calculateRMS host float32Data in
        let volume := Audio.normalizeVolume rms in
        let w := call (setVolumeLevel volume) w in
        let w := if onVolumeChange options then emit (volume_changed volume) w else w in
        let resampled :=
          Audio.resampleAudio float32Data contextRate Audio.sampleRate in
        let w := set_accumulatedSamplesRef (accumulatedSamplesRef w ++ [resampled]) w in
        let int16Data := Audio.float32ToInt16 resampled in
        set_chunksRef (chunksRef w ++ [int16Data]) w
  end.

(** The flush registered with [setInterval] when [onChunk] is given. *)
Definition onInterval (w : World) : World :=
  if negb (chunkIntervalRef w) then w
  else
    match accumulatedSamplesRef w with
    | [] => w
    | _ :: _ =>
        let merged := mergeArrays 0 (accumulatedSamplesRef w) in
        let int16Data := Audio.float32ToInt16 merged in
        let base64Data := Audio.int16ToBase64 int16Data in
        let w := emit (chunk_emitted base64Data) w in
        set_accumulatedSamplesRef [] w
    end.

(** The teardown common to [stopRecording] and [cancelRecording]. *)
Definition teardown (w : World) : World :=
  let w := set_isRecordingRef false w in
  let w := if chunkIntervalRef w then set_chunkIntervalRef false w else w in
  let w := match processorRef w with Some _ => set_processorRef None w | None => w end in
  let w := if sourceRef w then set_sourceRef false w else w in
  let w := match audioContextRef w with Some _ => set_audioContextRef None w | None => w end in
  match streamRef w with Some _ => set_streamRef None w | None => w end.

Definition stopRecording (w : World) : string * World :=
  let w := teardown w in
  let mergedData := mergeArrays 0%Z (chunksRef w) in
  let w := set_chunksRef [] w in
  let w := set_accumulatedSamplesRef [] w in
  let w := call (setVolumeLevel 0) w in
  let w := call (setIsRecording false) w in
  (Audio.int16ToBase64 mergedData, w).

Definition cancelRecording (w : World) : World :=
  let w := teardown w in
  let w := set_chunksRef [] w in
  let w := set_accumulatedSamplesRef [] w in
  let w := call (setVolumeLevel 0) w in
  call (setIsRecording false) w.

(** What happens between [startRecording] and [stopRecording]. *)
Inductive Event :=
| frame (inputData : list Q)
| interval.

Definition step (w : World) (e : Event) : World :=
  match e with
  | frame inputData => onaudioprocess inputData w
  | interval => onInterval w
  end.

Definition run (events : list Event) (w : World) : World :=
  fold_left step events w.

End WithHost.

End Recorder.

(** ** hooks/useAudioPlayer.ts: the playback scheduler

    The revision with the stream-ended flag ([streamEndedRef]).  The
    sampled debug logging inside [updateVolume] touches no state of the
    hook and is left out. *)

Module Player.
Import JS Protocol Store.

Record Options := {
  onPlaybackStart : bool;
  onPlaybackEnd : bool;
  onVolumeChange : bool
}.

(** Calls that leave the hook: a source started on the output clock
    ([source.start(startTime)]), the caller's callbacks, the console. *)
Inductive Output :=
| source_start (source : nat) (startTime : Q) (buffer : Audio.AudioBuffer)
| source_stop (source : nat)
| playback_started
| playback_ended
| volume_changed (volume : Q)
| console_error (text : string).

(** [audioContext.state] *)
Inductive ContextState := running | suspended | closed.

(** A scheduled [AudioBufferSourceNode]. *)
Record Source := {
  source_id : nat;
  source_startTime : Q;
  source_buffer : Audio.AudioBuffer
}.

(** What a callback reads from the host when it runs: the output clock
    [audioContext.currentTime] and the analyser's time-domain bytes. *)
Record Env := {
  currentTime : Q;
  timeDomainData : list Z
}.

(** The store and the hook's refs.  [animationFrameRef] and
    [playbackCheckIntervalRef] tell whether a frame request, respectively
    the 100 ms interval, is pending; [sourcesCreated] numbers the source
    nodes. *)
Record World := {
  store : ChatState;
  calls : list Action;
  outputs : list Output;
  audioContextRef : option ContextState;
  isPlayingRef : bool;
  nextStartTimeRef : Q;
  analyserRef : bool;
  animationFrameRef : bool;
  scheduledSourcesRef : list Source;
  lastScheduledEndTimeRef : Q;
  playbackCheckIntervalRef : bool;
  streamEndedRef : bool;
  sourcesCreated : nat
}.

Definition init (st : ChatState) : World := {|
  store := st; calls := []; outputs := [];
  audioContextRef := None; isPlayingRef := false; nextStartTimeRef := 0;
  analyserRef := false; animationFrameRef := false;
  scheduledSourcesRef := []; lastScheduledEndTimeRef := 0;
  playbackCheckIntervalRef := false; streamEndedRef := false;
  sourcesCreated := 0
|}.

Definition call (a : Action) (w : World) : World :=
  let 'Build_World st cl out ctx pl nx an fr srcs le itv se n := w in
  Build_World (dispatch a st) (cl ++ [a]) out ctx pl nx an fr srcs le itv se n.
Definition with_store (st : ChatState) (w : World) : World :=
  let 'Build_World _ cl out ctx pl nx an fr srcs le itv se n := w in
  Build_World st cl out ctx pl nx an fr srcs le itv se n.
Definition emit (o : Output) (w : World) : World :=
  let 'Build_World st cl out ctx pl nx an fr srcs le itv se n := w in
  Build_World st cl (out ++ [o]) ctx pl nx an fr srcs le itv se n.
Definition set_audioContextRef (v : option ContextState) (w : World) : World :=
  let 'Build_World st cl out _ pl nx an fr srcs le itv se n := w in
  Build_World st cl out v pl nx an fr srcs le itv se n.
Definition set_isPlayingRef (v : bool) (w : World) : World :=
  let 'Build_World st cl out ctx _ nx an fr srcs le itv se n := w in
  Build_World st cl out ctx v nx an fr srcs le itv se n.
Definition set_nextStartTimeRef (v : Q) (w : World) : World :=
  let 'Build_World st cl out ctx pl _ an fr srcs le itv se n := w in
  Build_World st cl out ctx pl v an fr srcs le itv se n.
Definition set_analyserRef (v : bool) (w : World) : World :=
  let 'Build_World st cl out ctx pl nx _ fr srcs le itv se n := w in
  Build_World st cl out ctx pl nx v fr srcs le itv se n.
Definition set_animationFrameRef (v : bool) (w : World) : World :=
  let 'Build_World st cl out ctx pl nx an _ srcs le itv se n := w in
  Build_World st cl out ctx pl nx an v srcs le itv se n.
Definition set_scheduledSourcesRef (v : list Source) (w : World) : World :=
  let 'Build_World st cl out ctx pl nx an fr _ le itv se n := w in
  Build_World st cl out ctx pl nx an fr v le itv se n.
Definition set_lastScheduledEndTimeRef (v : Q) (w : World) : World :=
  let 'Build_World st cl out ctx pl nx an fr srcs _ itv se n := w in
  Build_World st cl out ctx pl nx an fr srcs v itv se n.
Definition set_playbackCheckIntervalRef (v : bool) (w : World) : World :=
  let 'Build_World st cl out ctx pl nx an fr srcs le _ se n := w in
  Build_World st cl out ctx pl nx an fr srcs le v se n.
Definition set_streamEndedRef (v : bool) (w : World) : World :=
  let 'Build_World st cl out ctx pl nx an fr srcs le itv _ n := w in
  Build_World st cl out ctx pl nx an fr srcs le itv v n.
Definition set_sourcesCreated (v : nat) (w : World) : World :=
  let 'Build_World st cl out ctx pl nx an fr srcs le itv se _ := w in
  Build_World st cl out ctx pl nx an fr srcs le itv se v.

Section WithHost.
Variable host : Host.
Variable options : Options.

(** [getAudioContext]: create the context and its analyser when there
    is none (or a closed one), resetting the scheduling state; resume a
    suspended context. *)
Definition getAudioContext (w : World) : World :=
  let fresh w :=
    let w := set_audioContextRef (Some running) w in
    let w := set_analyserRef true w in
    let w := set_nextStartTimeRef 0 w in
    let w := set_lastScheduledEndTimeRef 0 w in
    set_scheduledSourcesRef [] w in
  let w :=
    match audioContextRef w with
    | None => fresh w
    | Some closed => fresh w
    | Some _ => w
    end in
  match audioContextRef w with
  | Some suspended => set_audioContextRef (Some running) w
  | _ => w
  end.

(** One run of [updateVolume]: the RMS of the analyser's bytes, scaled
    into [0, 1], written to the shared cell and to the store. *)
Definition updateVolume (timeData : list Z) (w : World) : World :=
  if negb (isPlayingRef w) then call (setVolumeLevel 0) w
  else
    let sumSq :=
      for_range 0 (List.length timeData)
        (fun i sumSq =>
           let sample := (inject_Z (nth i timeData 0%Z) - 128) / 128 in
           sumSq + sample * sample) 0 in
    let rms := Math_sqrt host (sumSq / inject_Z (Z.of_nat (List.length timeData))) in
    let volume := Math_min 1 (rms * 2) in
    let w := with_store (writeVolumeLevelRef volume (store w)) w in
    let w := call (setVolumeLevel volume) w in
    let w := if onVolumeChange options then emit (volume_changed volume) w else w in
    set_animationFrameRef true w.

Definition startVolumeMonitoring (timeData : list Z) (w : World) : World :=
  if negb (analyserRef w) then w else updateVolume timeData w.

Definition stopVolumeMonitoring (w : World) : World :=
  let w := if animationFrameRef w then set_animationFrameRef false w else w in
  let w := with_store (writeVolumeLevelRef 0 (store w)) w in
  call (setVolumeLevel 0) w.

(** [checkPlaybackEnded], run by the 100 ms interval. *)
Definition checkPlaybackEnded (now : Q) (w : World) : World :=
  match audioContextRef w with
  | None => w
  | Some _ =>
      if negb (streamEndedRef w) then w
      else if (isPlayingRef w && Qle_bool (lastScheduledEndTimeRef w) now)%bool then
        let w := set_scheduledSourcesRef [] w in
        let w := set_isPlayingRef false w in
        let w := call (setIsPlaying false) w in
        let w := call (setPipelineStage idle) w in
        let w := stopVolumeMonitoring w in
        let w := if onPlaybackEnd options then emit playback_ended w else w in
        if playbackCheckIntervalRef w then set_playbackCheckIntervalRef false w else w
      else w
  end.

Definition scheduleBuffer (buffer : Audio.AudioBuffer) (now : Q) (w : World) : World :=
  match audioContextRef w, analyserRef w with
  | Some _, true =>
      let source := sourcesCreated w in
      let w := set_sourcesCreated (S source) w in
      let startTime := Math_max (lastScheduledEndTimeRef w) now in
      let w := set_lastScheduledEndTimeRef (startTime + Audio.duration buffer) w in
      let w := emit (source_start source startTime buffer) w in
      set_scheduledSourcesRef
        (scheduledSourcesRef w
           ++ [{| source_id := source; source_startTime := startTime;
                  source_buffer := buffer |}]) w
  | _, _ => w
  end.

(** [source.onended]: drop the source from the tracked list. *)
Fixpoint remove_source (source : nat) (l : list Source) : list Source :=
  match l with
  | [] => []
  | s :: r => if (source_id s =? source)%nat then r else s :: remove_source source r
  end.

Definition onended (source : nat) (w : World) : World :=
  set_scheduledSourcesRef (remove_source source (scheduledSourcesRef w)) w.

(** Decoding of one wire chunk: [base64ToInt16] then [createAudioBuffer];
    [None] when either throws. *)
Definition decodeChunk (base64Data : string) (rate : Q) : option Audio.AudioBuffer :=
  match Audio.base64ToInt16 base64Data with
  | None => None
  | Some int16Data => Audio.createAudioBuffer host int16Data rate
  end.

Definition addAudioChunk (base64Data : string) (rate : Q) (env : Env) (w : World)
  : World :=
  let w := getAudioContext w in
  match decodeChunk base64Data rate with
  | None => emit (console_error "Failed to decode audio chunk:") w
  | Some audioBuffer =>
      let w := scheduleBuffer audioBuffer (currentTime env) w in
      if negb (isPlayingRef w) then
        let w := set_isPlayingRef true w in
        let w := call (setIsPlaying true) w in
        let w := startVolumeMonitoring (timeDomainData env) w in
        let w := if onPlaybackStart options then emit playback_started w else w in
        if negb (playbackCheckIntervalRef w)
        then set_playbackCheckIntervalRef true w else w
      else w
  end.

Definition stopPlayback (w : World) : World :=
  let w :=
    fold_left (fun w s => emit (source_stop (source_id s)) w)
              (scheduledSourcesRef w) w in
  let w := set_scheduledSourcesRef [] w in
  let w := if playbackCheckIntervalRef w
           then set_playbackCheckIntervalRef false w else w in
  let w := set_lastScheduledEndTimeRef 0 w in
  let w := set_streamEndedRef false w in
  let w := set_isPlayingRef false w in
  let w := call (setIsPlaying false) w in
  let w := stopVolumeMonitoring w in
  if onPlaybackEnd options then emit playback_ended w else w.

(** The hook's listener for the socket's [message] event; [None] is a
    payload that is not JSON. *)
Definition handleMessage (data : option ServerMessage) (env : Env) (w : World)
  : World :=
  match data with
  | Some llm_start =>
      let w := set_lastScheduledEndTimeRef 0 w in
      set_streamEndedRef false w
  | Some (tts_start _ _) => getAudioContext w
  | Some (audio_chunk audio_base64 _ audio_sample_rate) =>
      addAudioChunk audio_base64 audio_sample_rate env w
  | Some audio_end => set_streamEndedRef true w
  | _ => w
  end.

(** The clean-up on unmount. *)
Definition unmount (w : World) : World :=
  let w := stopPlayback w in
  let w := if playbackCheckIntervalRef w
           then set_playbackCheckIntervalRef false w else w in
  match audioContextRef w with
  | Some _ => set_audioContextRef None w
  | None => w
  end.

(** Everything that can happen to the scheduler: a socket message, the
    interval firing, an animation frame, a source finishing, the
    caller stopping playback, the browser suspending the context, the
    component unmounting, and another component acting on the store. *)
Inductive Event :=
| message (data : option ServerMessage) (env : Env)
| interval_tick (now : Q)
| animation_frame (timeData : list Z)
| source_ended (source : nat)
| stop_playback
| context_suspended
| unmounted
| store_action (a : Action).

Definition step (w : World) (e : Event) : World :=
  match e with
  | message data env => handleMessage data env w
  | interval_tick now =>
      if playbackCheckIntervalRef w then checkPlaybackEnded now w else w
  | animation_frame timeData =>
      if animationFrameRef w then updateVolume timeData w else w
  | source_ended source => onended source w
  | stop_playback => stopPlayback w
  | context_suspended =>
      match audioContextRef w with
      | Some running => set_audioContextRef (Some suspended) w
      | _ => w
      end
  | unmounted => unmount w
  | store_action a => with_store (dispatch a (store w)) w
  end.

Definition run (events : list Event) (w : World) : World :=
  fold_left step events w.

End WithHost.

End Player.

(** ** src/hooks/useWebSocket.ts: the session protocol

    The revision whose dispatch has the [turn_end] case. *)

Module WebSocketHook.
Import JS Protocol Store.

Definition PING_INTERVAL : Z := 30000.
Definition RECONNECT_DELAY : Z := 3000.

Inductive ReadyState := CONNECTING | OPEN | CLOSING | CLOSED.

(** A WebSocket object: its state, what the handlers installed by
    [connect] close over (token and character), and what was sent. *)
Record Socket := {
  readyState : ReadyState;
  socket_token : string;
  socket_character : string;
  sent : list ClientMessage
}.

(** Pending host timers: the heartbeat interval, and the one-shot
    reconnect with the character it will pass to [connect]. *)
Inductive Timer :=
| ping_interval (period : Z)
| reconnect_timeout (characterName : string) (delay : Z).

(** The store, every socket created so far (the store's [ws] is an index
    into them), the hook's two refs and the host's timer table. *)
Record World := {
  store : ChatState;
  calls : list Action;
  console : list string;
  sockets : list Socket;
  pingIntervalRef : option nat;
  reconnectTimeoutRef : option nat;
  timers : list (nat * Timer);
  timersCreated : nat
}.

Definition init (st : ChatState) : World := {|
  store := st; calls := []; console := []; sockets := [];
  pingIntervalRef := None; reconnectTimeoutRef := None;
  timers := []; timersCreated := 0
|}.

Definition call (a : Action) (w : World) : World :=
  let 'Build_World st cl con socks pg rc tm n := w in
  Build_World (dispatch a st) (cl ++ [a]) con socks pg rc tm n.
Definition console_error (text : string) (w : World) : World :=
  let 'Build_World st cl con socks pg rc tm n := w in
  Build_World st cl (con ++ [text]) socks pg rc tm n.
Definition set_sockets (v : list Socket) (w : World) : World :=
  let 'Build_World st cl con _ pg rc tm n := w in
  Build_World st cl con v pg rc tm n.
Definition set_pingIntervalRef (v : option nat) (w : World) : World :=
  let 'Build_World st cl con socks _ rc tm n := w in
  Build_World st cl con socks v rc tm n.
Definition set_reconnectTimeoutRef (v : option nat) (w : World) : World :=
  let 'Build_World st cl con socks pg _ tm n := w in
  Build_World st cl con socks pg v tm n.
Definition set_timers (v : list (nat * Timer)) (w : World) : World :=
  let 'Build_World st cl con socks pg rc _ n := w in
  Build_World st cl con socks pg rc v n.
Definition set_timersCreated (v : nat) (w : World) : World :=
  let 'Build_World st cl con socks pg rc tm _ := w in
  Build_World st cl con socks pg rc tm v.

(** [window.setTimeout] / [window.setInterval]: identifiers are positive. *)
Definition setTimer (t : Timer) (w : World) : nat * World :=
  let timer := S (timersCreated w) in
  let w := set_timersCreated timer w in
  (timer, set_timers (timers w ++ [(timer, t)]) w).

(** [clearTimeout] / [clearInterval] *)
Definition clearTimer (timer : nat) (w : World) : World :=
  set_timers (filter (fun p => negb (fst p =? timer)%nat) (timers w)) w.

Definition socketState (handle : option nat) (w : World) : option ReadyState :=
  match handle with
  | None => None
  | Some h => option_map readyState (nth_error (sockets w) h)
  end.

Definition isOpen (handle : option nat) (w : World) : bool :=
  match socketState handle w with
  | Some OPEN => true
  | _ => false
  end.

Definition update_socket (h : nat) (f : Socket -> Socket) (w : World) : World :=
  match nth_error (sockets w) h with
  | Some s => set_sockets (aset h (f s) (sockets w)) w
  | None => w
  end.

Definition set_readyState (r : ReadyState) (s : Socket) : Socket :=
  {| readyState := r; socket_token := socket_token s;
     socket_character := socket_character s; sent := sent s |}.

(** [socket.send(JSON.stringify(message))] *)
Definition send (h : nat) (m : ClientMessage) (w : World) : World :=
  update_socket h
    (fun s => {| readyState := readyState s; socket_token := socket_token s;
                 socket_character := socket_character s; sent := sent s ++ [m] |}) w.

Definition sendMessage (m : ClientMessage) (w : World) : World :=
  let currentWs := ws (store w) in
  match currentWs with
  | Some h => if isOpen currentWs w then send h m w
              else console_error "WebSocket is not connected" w
  | None => console_error "WebSocket is not connected" w
  end.

(** [handleMessage]; [None] is a payload that [JSON.parse] rejects,
    [uuid] and [now] are what [crypto.randomUUID()] and [new Date()]
    return. *)
Definition handleMessage (data : option ServerMessage) (uuid : string) (now : Z)
  (w : World) : World :=
  match data with
  | None => console_error "Failed to parse message:" w
  | Some m =>
      match m with
      | connected character character_display_name _ =>
          let w := call (setConnectionStatus status_connected) w in
          let w := call (setCurrentCharacter
                           (Some {| name := character;
                                    display_name := character_display_name;
                                    description := EmptyString;
                                    voice_id := EmptyString |})) w in
          call (setErrorMessage None) w
      | disconnected _ message =>
          let w := call (setConnectionStatus status_disconnected) w in
          call (setErrorMessage (Some message)) w
      | thinking _ =>
          let w := call (setIsThinking true) w in
          call (setPipelineStage idle) w
      | asr_start => call (setPipelineStage asr) w
      | asr_end text =>
          let w := call (setPartialTranscription EmptyString) w in
          call (addMessage {| id := uuid; role := user; content := text;
                              contentJp := None; emotion := None;
                              timestamp := now; isPartial := None |}) w
      | llm_start => call (setPipelineStage llm) w
      | llm_end _ => w
      | tts_start _ _ =>
          let w := call (setPipelineStage tts) w in
          call (setIsThinking false) w
      | transcription text is_partial =>
          if is_partial then call (setPartialTranscription text) w
          else call (setPartialTranscription EmptyString) w
      | audio_chunk _ _ _ =>
          let w := call (setPipelineStage playing) w in
          call (setIsPlaying true) w
      | audio_end => w
      | response content_cn content_jp emotion_ =>
          let w := call (setIsThinking false) w in
          call (addMessage {| id := uuid; role := assistant; content := content_cn;
                              contentJp := Some content_jp; emotion := Some emotion_;
                              timestamp := now; isPartial := None |}) w
      | turn_end =>
          let w := call (setIsThinking false) w in
          call (setPipelineStage idle) w
      | audio_stream_started _ => w
      | agent_listening =>
          let w := call (setPipelineStage idle) w in
          call (setIsThinking false) w
      | character_switched character character_display_name _ =>
          let w := call (setCurrentCharacter
                           (Some {| name := character;
                                    display_name := character_display_name;
                                    description := EmptyString;
                                    voice_id := EmptyString |})) w in
          call clearMessages w
      | history_cleared _ => call clearMessages w
      | pong => w
      | error message =>
          let w := call (setErrorMessage (Some message)) w in
          let w := call (setIsThinking false) w in
          call (setPipelineStage idle) w
      | unhandled _ => w
      end
  end.

Definition TOKEN_REQUIRED : string := "请输入 API Token".
Definition CONNECTION_ERROR : string := "连接错误".

(** [connect(characterName)] *)
Definition connect (characterName : string) (w : World) : World :=
  let currentWs := ws (store w) in
  let currentToken := apiToken (store w) in
  if isOpen currentWs w then w
  else if String.eqb currentToken EmptyString then
    call (setErrorMessage (Some TOKEN_REQUIRED)) w
  else
    let w := call (setConnectionStatus status_connecting) w in
    let w := call (setErrorMessage None) w in
    let newWs := List.length (sockets w) in
    let w := set_sockets
               (sockets w ++ [{| readyState := CONNECTING;
                                 socket_token := currentToken;
                                 socket_character := characterName;
                                 sent := [] |}]) w in
    call (setWs (Some newWs)) w.

(** [newWs.onopen] *)
Definition onopen (newWs : nat) (w : World) : World :=
  match nth_error (sockets w) newWs with
  | None => w
  | Some s =>
      let w := send newWs (connect_msg (socket_token s) (socket_character s)) w in
      let '(timer, w) := setTimer (ping_interval PING_INTERVAL) w in
      set_pingIntervalRef (Some timer) w
  end.

(** The heartbeat callback. *)
Definition onPing (w : World) : World :=
  match ws (store w) with
  | Some h => if isOpen (Some h) w then send h ping w else w
  | None => w
  end.

(** [newWs.onerror] *)
Definition onerror (w : World) : World :=
  let w := call (setConnectionStatus status_error) w in
  call (setErrorMessage (Some CONNECTION_ERROR)) w.

(** [newWs.onclose], with the character its closure holds. *)
Definition onclose (characterName : string) (w : World) : World :=
  let w := call (setConnectionStatus status_disconnected) w in
  let w := call (setWs None) w in
  let w :=
    match pingIntervalRef w with
    | Some timer => set_pingIntervalRef None (clearTimer timer w)
    | None => w
    end in
  let status := connectionStatus (store w) in
  match status with
  | status_connected =>
      let '(timer, w) :=
        setTimer (reconnect_timeout characterName RECONNECT_DELAY) w in
      set_reconnectTimeoutRef (Some timer) w
  | _ => w
  end.

(** [disconnect()] *)
Definition disconnect (w : World) : World :=
  let w :=
    match reconnectTimeoutRef w with
    | Some timer => set_reconnectTimeoutRef None (clearTimer timer w)
    | None => w
    end in
  let w :=
    match pingIntervalRef w with
    | Some timer => set_pingIntervalRef None (clearTimer timer w)
    | None => w
    end in
  let w :=
    match ws (store w) with
    | Some h =>
        let w := update_socket h (set_readyState CLOSING) w in
        call (setWs None) w
    | None => w
    end in
  call (setConnectionStatus status_disconnected) w.

(** What the user and the host do to the hook.  The host changes a
    socket's [readyState] before it runs the corresponding handler. *)
Inductive Event :=
| connect_called (characterName : string)
| disconnect_called
| socket_opened (h : nat)
| socket_message (h : nat) (data : option ServerMessage) (uuid : string) (now : Z)
| socket_error (h : nat)
| socket_closed (h : nat)
| timer_fired (timer : nat).

Definition step (w : World) (e : Event) : World :=
  match e with
  | connect_called characterName => connect characterName w
  | disconnect_called => disconnect w
  | socket_opened h =>
      match socketState (Some h) w with
      | Some CONNECTING => onopen h (update_socket h (set_readyState OPEN) w)
      | _ => w
      end
  | socket_message h data uuid now =>
      match socketState (Some h) w with
      | Some OPEN => handleMessage data uuid now w
      | _ => w
      end
  | socket_error h =>
      match nth_error (sockets w) h with
      | Some _ => onerror w
      | None => w
      end
  | socket_closed h =>
      match nth_error (sockets w) h with
      | Some s =>
          match readyState s with
          | CLOSED => w
          | _ => onclose (socket_character s)
                   (update_socket h (set_readyState CLOSED) w)
          end
      | None => w
      end
  | timer_fired timer =>
      match find (fun p => (fst p =? timer)%nat) (timers w) with
      | Some (_, ping_interval _) => onPing w
      | Some (_, reconnect_timeout characterName _) =>
          connect characterName (clearTimer timer w)
      | None => w
      end
  end.

Definition run (events : list Event) (w : World) : World :=
  fold_left step events w.

(** The reconnect attempts the host has pending. *)
Definition scheduledReconnects (w : World) : list (nat * Timer) :=
  filter (fun p => match snd p with
                   | reconnect_timeout _ _ => true
                   | ping_interval _ => false
                   end) (timers w).

End WebSocketHook.

(** ** Auxiliary definitions used to state the properties *)

Module AudioSpec.
Import JS Audio.

(** The clamp [Math.max(-1, Math.min(1, x))]. *)
Definition clamp (x : Q) : Q := Math_max (-1) (Math_min 1 x).

(** One sample through [float32ToInt16]. *)
Definition quantize (x : Q) : Z :=
  let s := clamp x in
  ToInt16 (if Qlt_bool s 0 then s * inject_Z 0x8000 else s * inject_Z 0x7fff).

(** The resampler as the specification words it: the output length is
    [round(inputLength / ratio)], and an output sample is the linear
    interpolation between the two input samples around the fractional
    index [x], the upper one clamped to the last input sample. *)
Definition spec_resampled_length (data : list Q) (ratio : Q) : nat :=
  Z.to_nat (Math_round (inject_Z (Z.of_nat (List.length data)) / ratio)).

Definition spec_interpolate (data : list Q) (x : Q) : Q :=
  let lower := Qfloor x in
  let upper := Z.min (lower + 1) (Z.of_nat (List.length data) - 1) in
  let weight := x - inject_Z lower in
  nth (Z.to_nat lower) data 0 * (1 - weight) + nth (Z.to_nat upper) data 0 * weight.

(** The characters [btoa] produces for a list of bytes. *)
Definition encode_chars (bytes : list Z) : list ascii :=
  map char_of_sextet (sextets_of_bytes bytes) ++ padding (List.length bytes).

Definition sextet (v : Z) : Prop := (0 <= v < 64)%Z.

End AudioSpec.

Module RecorderSpec.
Import JS Recorder.

(** The frames delivered during a session, in order. *)
Definition frames (events : list Event) : list (list Q) :=
  flat_map (fun e => match e with
                     | frame inputData => [inputData]
                     | interval => []
                     end) events.

(** What one frame contributes to the batch buffer when the capture
    context runs at [contextRate]. *)
Definition pcm_of_frame (contextRate : Q) (inputData : list Q) : list Z :=
  Audio.float32ToInt16 (Audio.resampleAudio inputData contextRate Audio.sampleRate).

Definition total_length {A : Type} (arrs : list (list A)) : nat :=
  fold_right (fun arr n => (List.length arr + n)%nat) 0%nat arrs.

End RecorderSpec.

Module PlayerSpec.
Import JS Protocol Player.

(** The segments put on the output clock so far: start time and buffer
    of every [source.start] call, in order. *)
Definition starts (w : World) : list (Q * Audio.AudioBuffer) :=
  flat_map (fun o => match o with
                     | source_start _ startTime buffer => [(startTime, buffer)]
                     | _ => []
                     end) (outputs w).

(** A context exists, with its analyser, and is not closed. *)
Definition live (w : World) : Prop :=
  analyserRef w = true
  /\ (audioContextRef w = Some running \/ audioContextRef w = Some suspended).

(** What holds of the refs in every state the hook reaches: a context
    is never kept once closed and comes with its analyser, and without
    a context nothing is scheduled. *)
Definition consistent (w : World) : Prop :=
  (audioContextRef w = None \/ live w)
  /\ (audioContextRef w = None ->
      lastScheduledEndTimeRef w = 0 /\ scheduledSourcesRef w = []).

(** Events between two chunks of one stream: anything but a new turn
    ([llm_start]), a decodable chunk, a stop or an unmount. *)
Definition quiet (host : Host) (e : Event) : bool :=
  match e with
  | message (Some llm_start) _ => false
  | message (Some (audio_chunk audio_base64 _ audio_sample_rate)) _ =>
      match decodeChunk host audio_base64 audio_sample_rate with
      | Some _ => false
      | None => true
      end
  | stop_playback => false
  | unmounted => false
  | _ => true
  end.

End PlayerSpec.

Module SessionSpec.
Import Protocol Store WebSocketHook.

(** The assistant message the [response] handler builds. *)
Definition assistant_message (uuid : string) (now : Z)
  (content_cn content_jp emotion_ : string) : ChatMessage :=
  {| id := uuid; role := assistant; content := content_cn;
     contentJp := Some content_jp; emotion := Some emotion_;
     timestamp := now; isPartial := None |}.

(** How many of the store calls in [l] set the pipeline stage to idle. *)
Definition idle_sets (l : list Action) : nat :=
  List.length (filter (fun a => match a with
                                | setPipelineStage idle => true
                                | _ => false
                                end) l).

End SessionSpec.

(** Concrete inputs for the worked examples. *)
Module Examples.
Import Protocol Store.

Definition store0 : ChatState := initialState "token".

Definition ramp : list Q := [0; 1; 2; 3; 4; 5].


Definition batch : Recorder.Options :=
  {| Recorder.onChunk := false; Recorder.onVolumeChange := false;
     Recorder.chunkIntervalMs := 100 |}.

Definition recording (options : Recorder.Options) : Recorder.World :=
  fst (Recorder.startRecording options (Recorder.media_granted 1 16000)
         (Recorder.init store0)).

Definition player_options : Player.Options :=
  {| Player.onPlaybackStart := true; Player.onPlaybackEnd := true;
     Player.onVolumeChange := false |}.

Definition at_time (t : Q) : Player.Env :=
  {| Player.currentTime := t; Player.timeDomainData := [128; 255; 0; 128]%Z |}.

(** One sample of silence at 16 kHz, and a payload that is not base64. *)
Definition silence : string := "AAA=".
Definition garbage : string := "!!!".

Definition one_sample : Audio.AudioBuffer :=
  {| Audio.channelData := [0 # 32768]; Audio.bufferRate := 16000 |}.

Definition chunk (base64Data : string) (t : Q) : Player.Event :=
  Player.message (Some (audio_chunk base64Data "pcm" 16000)) (at_time t).

(** A session that has been confirmed by the server. *)
Definition connected_session : WebSocketHook.World :=
  WebSocketHook.run
    [WebSocketHook.connect_called "anon";
     WebSocketHook.socket_opened 0;
     WebSocketHook.socket_message 0 (Some (connected "anon" "Anon" "hi")) "id" 0]
    (WebSocketHook.init store0).

End Examples.

(** A host for the worked examples: a square root truncated to 32
    fractional bits, and the sample rates every browser accepts. *)
Definition example_host : JS.Host := {|
  JS.Math_sqrt := fun q =>
    Z.sqrt (Qnum q * 2 ^ 64 / Zpos (Qden q)) # (2 ^ 32);
  JS.sampleRateSupported := fun r => (Qle_bool 8000 r && Qle_bool r 96000)%bool
|}.

(** ** Further operations of the store and of the session hook *)

Module StoreOps.
Import JS Protocol Store.

Definition set_messages (ms : list ChatMessage) (s : ChatState) : ChatState :=
  let 'Build_ChatState cs em tok w cc chs _ pt ps th vm rec pl vl vr := s in
  Build_ChatState cs em tok w cc chs ms pt ps th vm rec pl vl vr.

(** [updateLastMessage(content, isPartial = false)]: copy the log and, when
    it is not empty, replace its last entry by a copy with the new content
    and partial flag. *)
Definition updateLastMessage (content_ : string) (isPartial_ : bool) (s : ChatState)
  : ChatState :=
  let messages_ := messages s in
  let messages_ :=
    if (0 <? List.length messages_)%nat then
      match nth_error messages_ (List.length messages_ - 1) with
      | Some lastMessage =>
          aset (List.length messages_ - 1)
            {| id := id lastMessage; role := role lastMessage;
               content := content_; contentJp := contentJp lastMessage;
               emotion := emotion lastMessage; timestamp := timestamp lastMessage;
               isPartial := Some isPartial_ |} messages_
      | None => messages_
      end
    else messages_ in
  set_messages messages_ s.

End StoreOps.

Module SessionOps.
Import JS Protocol Store WebSocketHook.




Definition sendAudioMessage (audioBase64 : string) (w : World) : World :=
  sendMessage (audio_message audioBase64) w.
Definition startAudioStream (w : World) : World := sendMessage audio_stream_start w.
Definition sendAudioStreamChunk (audioBase64 : string) (w : World) : World :=
  sendMessage (audio_stream_chunk audioBase64) w.
Definition endAudioStream (w : World) : World := sendMessage audio_stream_end w.
Definition startAgentMode (w : World) : World := sendMessage agent_mode_start w.
Definition sendAgentAudioChunk (audioBase64 : string) (w : World) : World :=
  sendMessage (agent_audio_chunk audioBase64) w.
Definition stopAgentMode (w : World) : World := sendMessage agent_mode_stop w.
Definition switchCharacter (characterName : string) (w : World) : World :=
  sendMessage (switch_character characterName) w.
Definition clearHistory (w : World) : World := sendMessage clear_history w.

End SessionOps.

(** ** Further auxiliary definitions *)

Module ExtraSpec.
Import JS Protocol Store.

(** What an [Int16Array] reads back as after [int16ToFloat32] and
    [float32ToInt16]: positive samples lose one unit. *)
Definition requantized (v : Z) : Z := if (0 <? v)%Z then (v - 1)%Z else v.

(** The binary string the encoder builds for a list of bytes. *)
Definition binary_of_bytes (bytes : list Z) : string :=
  string_of_list_ascii (map fromCharCode bytes).

Definition within (lower upper : Q) (x : Q) : Prop := lower <= x /\ x <= upper.

(** What [new Int16Array(bytes.buffer)] does with a byte string. *)
Definition int16_of_bytes_ok (bytes : list Z) : Prop :=
  match Audio.int16_of_bytes bytes with
  | Some samples =>
      Nat.even (List.length bytes) = true
      /\ (2 * List.length samples = List.length bytes)%nat
      /\ Forall int16 samples
  | None => Nat.odd (List.length bytes) = true
  end.

(** The chunks a recorder has handed to [onChunk], in order. *)
Definition emitted (w : Recorder.World) : list string :=
  flat_map (fun o => match o with
                     | Recorder.chunk_emitted base64Data => [base64Data]
                     | _ => []
                     end) (Recorder.outputs w).

(** Events that belong to one stream of a turn: anything but a new turn,
    a stop or an unmount. *)
Definition same_stream (e : Player.Event) : bool :=
  match e with
  | Player.message (Some llm_start) _ => false
  | Player.stop_playback => false
  | Player.unmounted => false
  | _ => true
  end.

(** Segments laid one after the other from the clock value [e]: none
    starts before the end of the one before it. *)
Fixpoint chained (e : Q) (l : list (Q * Audio.AudioBuffer)) : Prop :=
  match l with
  | [] => True
  | (startTime, buffer) :: r =>
      e <= startTime /\ chained (startTime + Audio.duration buffer) r
  end.

Definition chain_end (e : Q) (l : list (Q * Audio.AudioBuffer)) : Q :=
  fold_left (fun _ p => fst p + Audio.duration (snd p)) l e.

(** The timers of the scheduler run exactly while it is playing, and it
    plays only with a live context. *)
Definition tidy (w : Player.World) : Prop :=
  Player.playbackCheckIntervalRef w = Player.isPlayingRef w
  /\ Player.animationFrameRef w = Player.isPlayingRef w
  /\ (Player.isPlayingRef w = true -> PlayerSpec.live w).

(** The tracked sources are distinct nodes created by the scheduler. *)
Definition sources_ok (w : Player.World) : Prop :=
  NoDup (map Player.source_id (Player.scheduledSourcesRef w))
  /\ Forall (fun s => (Player.source_id s < Player.sourcesCreated w)%nat)
            (Player.scheduledSourcesRef w).

(** The timer table without the timer a ref names. *)
Definition without (ref : option nat) (table : list (nat * WebSocketHook.Timer))
  : list (nat * WebSocketHook.Timer) :=
  match ref with
  | Some timer => filter (fun p => negb (fst p =? timer)%nat) table
  | None => table
  end.

(** A socket after one more message has been sent on it. *)
Definition posted (m : ClientMessage) (s : WebSocketHook.Socket)
  : WebSocketHook.Socket :=
  {| WebSocketHook.readyState := WebSocketHook.readyState s;
     WebSocketHook.socket_token := WebSocketHook.socket_token s;
     WebSocketHook.socket_character := WebSocketHook.socket_character s;
     WebSocketHook.sent := WebSocketHook.sent s ++ [m] |}.

(** The sockets' outboxes. *)
Definition outboxes (w : WebSocketHook.World) : list (list ClientMessage) :=
  map WebSocketHook.sent (WebSocketHook.sockets w).

Definition clears_log (m : ServerMessage) : bool :=
  match m with
  | character_switched _ _ _ => true
  | history_cleared _ => true
  | _ => false
  end.

(** What the hook's bookkeeping rests on: the socket named by the store,
    the number of sockets created, the host's timer table and the number
    of timers created. *)
Definition wiring (w : WebSocketHook.World)
  : option nat * nat * list (nat * WebSocketHook.Timer) * nat :=
  (ws (WebSocketHook.store w), List.length (WebSocketHook.sockets w),
   WebSocketHook.timers w, WebSocketHook.timersCreated w).



End ExtraSpec.

(** * Properties *)

Import JS.

(** ** Loops over typed arrays *)

Section Loops.
Context {A : Type}.

Lemma aset_app (pre post : list A) (x v : A) :
  aset (List.length pre) v (pre ++ x :: post) = pre ++ v :: post.
Proof.
  induction pre as [|h pre IH]; simpl; [reflexivity|].
  now rewrite IH.
Qed.

(** A loop that stores [f i] at every index of a fresh array builds the
    array of the [f i]. *)
Lemma for_range_fill_from (f : nat -> A) (d : A) (n : nat) :
  forall pre,
    for_range (List.length pre) n (fun i arr => aset i (f i) arr) (pre ++ repeat d n)
    = pre ++ map f (seq (List.length pre) n).
Proof.
  induction n as [|n IH]; intros pre; simpl; [reflexivity|].
  rewrite aset_app.
  replace (pre ++ f (List.length pre) :: repeat d n)
    with ((pre ++ [f (List.length pre)]) ++ repeat d n)
    by (rewrite <- app_assoc; reflexivity).
  replace (S (List.length pre)) with (List.length (pre ++ [f (List.length pre)]))
    by (rewrite length_app; simpl; lia).
  rewrite IH, <- app_assoc, length_app. simpl.
  now replace (List.length pre + 1)%nat with (S (List.length pre)) by lia.
Qed.

Lemma for_range_fill (f : nat -> A) (d : A) (n : nat) :
  for_range 0 n (fun i arr => aset i (f i) arr) (repeat d n) = map f (seq 0 n).
Proof. exact (for_range_fill_from f d n []). Qed.

Lemma map_nth_seq {B : Type} (g : A -> B) (d : A) (l : list A) :
  map (fun i => g (nth i l d)) (seq 0 (List.length l)) = map g l.
Proof.
  induction l as [|x l IH]; simpl; [reflexivity|].
  f_equal. rewrite <- seq_shift, map_map. exact IH.
Qed.

End Loops.

(** ** The PCM codec *)

Module AudioFacts.
Import Audio AudioSpec.

Lemma float32ToInt16_map (a : list Q) : float32ToInt16 a = map quantize a.
Proof.
  unfold float32ToInt16.
  transitivity (map (fun i => quantize (nth i a 0)) (seq 0 (List.length a))).
  - exact (for_range_fill (fun i => quantize (nth i a 0)) 0%Z (List.length a)).
  - apply map_nth_seq.
Qed.

Lemma int16ToFloat32_map (a : list Z) :
  int16ToFloat32 a = map (fun v => inject_Z v / inject_Z 0x8000) a.
Proof.
  unfold int16ToFloat32.
  rewrite (for_range_fill
             (fun i => inject_Z (nth i a 0%Z) / inject_Z 0x8000) 0 (List.length a)).
  apply (map_nth_seq (fun v => inject_Z v / inject_Z 0x8000)).
Qed.

Lemma clamp_range (x : Q) : -1 <= clamp x /\ clamp x <= 1.
Proof.
  unfold clamp, Math_max, Math_min.
  destruct (Qle_bool 1 x) eqn:E1.
  - destruct (Qle_bool 1 (-1)) eqn:E2.
    + apply Qle_bool_iff in E2. lra.
    + lra.
  - assert (~ 1 <= x) by (intro H; apply Qle_bool_iff in H; congruence).
    destruct (Qle_bool x (-1)) eqn:E2.
    + lra.
    + assert (~ x <= -1) by (intro H'; apply Qle_bool_iff in H'; congruence).
      lra.
Qed.

Lemma Qlt_bool_true (x y : Q) : Qlt_bool x y = true <-> x < y.
Proof.
  unfold Qlt_bool. rewrite negb_true_iff. split; intro H.
  - apply Qnot_le_lt. intro L. apply Qle_bool_iff in L. congruence.
  - destruct (Qle_bool y x) eqn:E; [|reflexivity].
    apply Qle_bool_iff in E. lra.
Qed.

Lemma Qlt_bool_false (x y : Q) : Qlt_bool x y = false <-> y <= x.
Proof.
  unfold Qlt_bool. rewrite negb_false_iff. apply Qle_bool_iff.
Qed.

Lemma ToInt16_small (x : Q) (c : Z) :
  Math_trunc x = c -> (-32768 <= c < 32768)%Z -> ToInt16 x = c.
Proof.
  intros E H. unfold ToInt16. rewrite E, Z.mod_small; lia.
Qed.

(** A non-negative clamped sample is scaled by 0x7FFF and truncated. *)
Lemma quantize_nonneg (x : Q) :
  0 <= clamp x ->
  let c := quantize x in
  (0 <= c <= 32767)%Z
  /\ inject_Z c <= clamp x * 32767 /\ clamp x * 32767 < inject_Z c + 1.
Proof.
  intros Hs. destruct (clamp_range x) as [_ Hhi].
  unfold quantize. cbv zeta.
  apply Qlt_bool_false in Hs as Hb. rewrite Hb.
  change (inject_Z 0x7fff) with 32767.
  set (t := clamp x * 32767).
  assert (Ht0 : 0 <= t) by (unfold t; lra).
  assert (Ht1 : t <= 32767) by (unfold t; lra).
  assert (Htr : Math_trunc t = Qfloor t).
  { unfold Math_trunc. apply Qle_bool_iff in Ht0. now rewrite Ht0. }
  assert (Hlo : (0 <= Qfloor t)%Z).
  { rewrite <- (Qfloor_Z 0). now apply Qfloor_resp_le. }
  assert (Hup : (Qfloor t <= 32767)%Z).
  { rewrite <- (Qfloor_Z 32767). now apply Qfloor_resp_le. }
  rewrite (ToInt16_small t (Qfloor t) Htr) by lia.
  split; [lia|]. split.
  - apply Qfloor_le.
  - pose proof (Qlt_floor t) as H. rewrite inject_Z_plus in H. exact H.
Qed.

(** A negative clamped sample is scaled by 0x8000 and truncated. *)
Lemma quantize_neg (x : Q) :
  clamp x < 0 ->
  let c := quantize x in
  (-32768 <= c <= 0)%Z
  /\ clamp x * 32768 <= inject_Z c /\ inject_Z c - 1 < clamp x * 32768.
Proof.
  intros Hs. destruct (clamp_range x) as [Hlo _].
  unfold quantize. cbv zeta.
  apply Qlt_bool_true in Hs as Hb. rewrite Hb.
  change (inject_Z 0x8000) with 32768.
  set (t := clamp x * 32768).
  assert (Ht0 : t < 0) by (unfold t; lra).
  assert (Ht1 : -32768 <= t) by (unfold t; lra).
  assert (Htr : Math_trunc t = Qceiling t).
  { unfold Math_trunc. destruct (Qle_bool 0 t) eqn:E; [|reflexivity].
    apply Qle_bool_iff in E. lra. }
  assert (Hup : (Qceiling t <= 0)%Z).
  { rewrite <- (Qceiling_Z 0). apply Qceiling_resp_le.
    change (inject_Z 0) with 0. lra. }
  assert (Hdn : (-32768 <= Qceiling t)%Z).
  { rewrite <- (Qceiling_Z (-32768)). now apply Qceiling_resp_le. }
  rewrite (ToInt16_small t (Qceiling t) Htr) by lia.
  split; [lia|]. split.
  - apply Qle_ceiling.
  - pose proof (Qceiling_lt t) as H.
    change (Qceiling t - 1)%Z with (Qceiling t + -1)%Z in H.
    rewrite inject_Z_plus in H. exact H.
Qed.

(** The error of one sample through both conversions. *)
Lemma sample_roundtrip_error (x : Q) :
  let s := clamp x in
  let y := inject_Z (quantize x) / inject_Z 0x8000 in
  Qabs (y - s) < 2 # 32768 /\ (s < 0 -> Qabs (y - s) < 1 # 32768).
Proof.
  cbv zeta. change (inject_Z 0x8000) with 32768.
  unfold Qdiv. change (/ 32768) with (1 # 32768).
  destruct (clamp_range x) as [Hlo Hhi].
  destruct (Qlt_le_dec (clamp x) 0) as [Hneg | Hpos].
  - destruct (quantize_neg x Hneg) as (_ & H1 & H2).
    assert (Qabs (inject_Z (quantize x) * (1 # 32768) - clamp x) < 1 # 32768).
    { apply Qabs_Qlt_condition. split; lra. }
    split; [lra | intros _; assumption].
  - destruct (quantize_nonneg x Hpos) as (_ & H1 & H2).
    split.
    + apply Qabs_Qlt_condition. split; lra.
    + intros Hn. lra.
Qed.

End AudioFacts.

Module ResampleFacts.
Import Audio AudioSpec.

Lemma resampleAudio_map (data : list Q) (fromRate toRate : Q) :
  Qeq_bool fromRate toRate = false ->
  resampleAudio data fromRate toRate
  = map (fun i => spec_interpolate data (inject_Z (Z.of_nat i) * (fromRate / toRate)))
        (seq 0 (spec_resampled_length data (fromRate / toRate))).
Proof.
  intros E. unfold resampleAudio. rewrite E.
  exact (for_range_fill
           (fun i => spec_interpolate data (inject_Z (Z.of_nat i) * (fromRate / toRate)))
           0 (spec_resampled_length data (fromRate / toRate))).
Qed.

(** Every output index reads inside the input. *)
Lemma source_index_in_range (data : list Q) (ratio : Q) (i : nat) :
  0 < ratio ->
  (i < spec_resampled_length data ratio)%nat ->
  (0 <= Qfloor (inject_Z (Z.of_nat i) * ratio) < Z.of_nat (List.length data))%Z.
Proof.
  intros Hr Hi. unfold spec_resampled_length, Math_round in Hi.
  set (L := inject_Z (Z.of_nat (List.length data))) in *.
  set (a := inject_Z (Z.of_nat i)).
  assert (Ha : 0 <= a).
  { unfold a. change 0 with (inject_Z 0). rewrite <- Zle_Qle. lia. }
  assert (Hq : a + 1 <= L / ratio + (1 # 2)).
  { eapply Qle_trans; [|apply Qfloor_le].
    unfold a. change 1 with (inject_Z 1).
    rewrite <- inject_Z_plus, <- Zle_Qle. lia. }
  assert (Hmul : L / ratio * ratio == L).
  { field. intro H0. lra. }
  assert (Hlt : a * ratio < L) by nra.
  split.
  - rewrite <- (Qfloor_Z 0). apply Qfloor_resp_le.
    change (inject_Z 0) with 0. nra.
  - rewrite Zlt_Qlt. eapply Qle_lt_trans; [apply Qfloor_le|]. exact Hlt.
Qed.

End ResampleFacts.

(** ** The transport encoding *)

Module Base64Facts.
Import Audio AudioSpec.

(** Induction over a list three elements at a time. *)
Lemma list_ind3 {A : Type} (P : list A -> Prop) :
  P [] -> (forall a, P [a]) -> (forall a b, P [a; b]) ->
  (forall a b c l, P l -> P (a :: b :: c :: l)) ->
  forall l, P l.
Proof.
  intros H0 H1 H2 H3.
  assert (H : forall l, P l /\ (forall a, P (a :: l)) /\ (forall a b, P (a :: b :: l))).
  { induction l as [|x l (IH0 & IH1 & IH2)]; repeat split; auto. }
  intros l. apply H.
Qed.

Ltac euclid := Z.to_euclidean_division_equations; lia.

Lemma sextets_range (l : list Z) :
  Forall uint8 l -> Forall sextet (sextets_of_bytes l).
Proof.
  induction l as [| a | a b | a b c l IH] using list_ind3; intros H.
  - constructor.
  - inversion_clear H as [|? ? Ha _]. unfold uint8 in Ha.
    repeat constructor; unfold sextet; euclid.
  - inversion_clear H as [|? ? Ha H']. inversion_clear H' as [|? ? Hb _].
    unfold uint8 in *. repeat constructor; unfold sextet; euclid.
  - inversion_clear H as [|? ? Ha H']. inversion_clear H' as [|? ? Hb H''].
    inversion_clear H'' as [|? ? Hc Hl]. unfold uint8 in *.
    cbn [sextets_of_bytes].
    repeat (constructor; [unfold sextet; euclid|]). now apply IH.
Qed.

Lemma bytes_sextets_roundtrip (l : list Z) :
  Forall uint8 l -> bytes_of_sextets (sextets_of_bytes l) = l.
Proof.
  induction l as [| a | a b | a b c l IH] using list_ind3; intros H.
  - reflexivity.
  - inversion_clear H as [|? ? Ha _]. unfold uint8 in Ha.
    cbn [sextets_of_bytes bytes_of_sextets]. f_equal. euclid.
  - inversion_clear H as [|? ? Ha H']. inversion_clear H' as [|? ? Hb _].
    unfold uint8 in *. cbn [sextets_of_bytes bytes_of_sextets].
    f_equal; [euclid|]. f_equal. euclid.
  - inversion_clear H as [|? ? Ha H']. inversion_clear H' as [|? ? Hb H''].
    inversion_clear H'' as [|? ? Hc Hl]. unfold uint8 in *.
    cbn [sextets_of_bytes bytes_of_sextets]. rewrite (IH Hl).
    f_equal; [euclid|]. f_equal; [euclid|]. f_equal. euclid.
Qed.

Lemma sextet_nat (s : Z) : sextet s -> exists n, s = Z.of_nat n /\ (n < 64)%nat.
Proof. intros [H0 H1]. exists (Z.to_nat s). split; lia. Qed.

Lemma char_sextet_roundtrip (s : Z) :
  sextet s -> sextet_of_char (char_of_sextet s) = Some s.
Proof.
  intros H. destruct (sextet_nat s H) as (n & -> & Hn).
  do 64 (destruct n as [|n]; [reflexivity|]). lia.
Qed.

Lemma char_of_sextet_plain (s : Z) :
  sextet s ->
  Ascii.eqb (char_of_sextet s) pad = false
  /\ is_ascii_whitespace (char_of_sextet s) = false.
Proof.
  intros H. destruct (sextet_nat s H) as (n & -> & Hn).
  do 64 (destruct n as [|n]; [split; reflexivity|]). lia.
Qed.

Lemma sextets_of_chars_map (sx : list Z) :
  Forall sextet sx -> sextets_of_chars (map char_of_sextet sx) = Some sx.
Proof.
  induction 1 as [|s sx Hs _ IH]; simpl; [reflexivity|].
  now rewrite (char_sextet_roundtrip s Hs), IH.
Qed.

Lemma strip_padding_cons (x : ascii) (l : list ascii) :
  Ascii.eqb x pad = false -> strip_padding (x :: l) = x :: strip_padding l.
Proof.
  intros H. destruct l as [|y [|z r]]; simpl; rewrite ?H; reflexivity.
Qed.

Lemma padding_cases (n : nat) :
  padding n = [] \/ padding n = [pad] \/ padding n = [pad; pad].
Proof. unfold padding. destruct (n mod 3)%nat as [|[|[|k]]]; auto. Qed.

Lemma strip_padding_app (cs p : list ascii) :
  Forall (fun c => Ascii.eqb c pad = false) cs ->
  p = [] \/ p = [pad] \/ p = [pad; pad] ->
  strip_padding (cs ++ p) = cs.
Proof.
  intros Hcs Hp. induction Hcs as [|c cs Hc _ IH]; simpl app.
  - destruct Hp as [-> | [-> | ->]]; reflexivity.
  - now rewrite (strip_padding_cons c _ Hc), IH.
Qed.

Lemma filter_all {A : Type} (f : A -> bool) (l : list A) :
  Forall (fun x => f x = true) l -> filter f l = l.
Proof.
  induction 1 as [|x l Hx _ IH]; simpl; [reflexivity|].
  now rewrite Hx, IH.
Qed.

Lemma padding_plain (n : nat) :
  Forall (fun c => negb (is_ascii_whitespace c) = true) (padding n).
Proof.
  destruct (padding_cases n) as [-> | [-> | ->]]; repeat constructor.
Qed.

Lemma padding_add3 (n : nat) : padding (S (S (S n))) = padding n.
Proof.
  unfold padding.
  replace (S (S (S n))) with (n + 1 * 3)%nat by lia.
  now rewrite Nat.Div0.mod_add.
Qed.

(** The encoded text is a whole number of four-character groups, and
    without its padding it never leaves a single character over. *)
Lemma encoded_lengths (l : list Z) :
  ((List.length (sextets_of_bytes l) + List.length (padding (List.length l))) mod 4 = 0
   /\ List.length (sextets_of_bytes l) mod 4 <> 1)%nat.
Proof.
  induction l as [| a | a b | a b c l IH] using list_ind3.
  - split; [reflexivity | discriminate].
  - split; [reflexivity | discriminate].
  - split; [reflexivity | discriminate].
  - cbn [sextets_of_bytes List.length]. rewrite padding_add3.
    destruct IH as [IH1 IH2].
    set (n := List.length (sextets_of_bytes l)) in *.
    set (p := List.length (padding (List.length l))) in *.
    split.
    + replace (S (S (S (S n))) + p)%nat with (n + p + 1 * 4)%nat by lia.
      now rewrite Nat.Div0.mod_add.
    + replace (S (S (S (S n)))) with (n + 1 * 4)%nat by lia.
      now rewrite Nat.Div0.mod_add.
Qed.

(** [atob] undoes [btoa] on every byte string. *)
Lemma atob_encode_chars (bytes : list Z) :
  Forall uint8 bytes ->
  atob (string_of_list_ascii (encode_chars bytes))
  = Some (string_of_list_ascii (map fromCharCode bytes)).
Proof.
  intros Hb. unfold atob. rewrite list_ascii_of_string_of_list_ascii.
  pose proof (sextets_range bytes Hb) as Hsx.
  assert (Hplain : Forall (fun c => Ascii.eqb c pad = false)
                     (map char_of_sextet (sextets_of_bytes bytes))).
  { apply Forall_map. eapply Forall_impl; [|exact Hsx].
    intros s Hs. now apply char_of_sextet_plain. }
  assert (Hws : Forall (fun c => negb (is_ascii_whitespace c) = true)
                  (encode_chars bytes)).
  { unfold encode_chars. apply Forall_app. split; [|apply padding_plain].
    apply Forall_map. eapply Forall_impl; [|exact Hsx].
    intros s Hs. apply negb_true_iff. now apply char_of_sextet_plain. }
  rewrite (filter_all _ _ Hws).
  destruct (encoded_lengths bytes) as [Hlen Hone].
  unfold encode_chars.
  set (cs := map char_of_sextet (sextets_of_bytes bytes)) in *.
  set (p := padding (List.length bytes)) in *.
  assert (Hl : (List.length (cs ++ p) mod 4 =? 0)%nat = true).
  { rewrite length_app. unfold cs. rewrite length_map. fold p in Hlen.
    now rewrite Hlen. }
  rewrite Hl, (strip_padding_app cs p Hplain (padding_cases _)).
  assert (Hl1 : (List.length cs mod 4 =? 1)%nat = false).
  { unfold cs. rewrite length_map. now apply Nat.eqb_neq. }
  rewrite Hl1. unfold cs.
  rewrite (sextets_of_chars_map _ Hsx).
  now rewrite (bytes_sextets_roundtrip bytes Hb).
Qed.

Lemma charCode_fromCharCode (b : Z) : uint8 b -> charCode (fromCharCode b) = b.
Proof.
  intros [H0 H1]. unfold charCode, fromCharCode.
  rewrite N_ascii_embedding; lia.
Qed.

Lemma map_charCode_fromCharCode (bytes : list Z) :
  Forall uint8 bytes -> map charCode (map fromCharCode bytes) = bytes.
Proof.
  induction 1 as [|b bytes Hb _ IH]; simpl; [reflexivity|].
  now rewrite (charCode_fromCharCode b Hb), IH.
Qed.

Lemma string_app_nil_r (s : string) : (s ++ EmptyString)%string = s.
Proof. induction s as [|c s IH]; simpl; [reflexivity | now f_equal]. Qed.

Lemma string_app_assoc (s t u : string) :
  ((s ++ t) ++ u)%string = (s ++ (t ++ u))%string.
Proof. induction s as [|c s IH]; simpl; [reflexivity | now f_equal]. Qed.

(** The loop [binary += String.fromCharCode(uint8Array[i])]. *)
Lemma binary_loop_from (bytes : list Z) :
  forall (pre : list Z) (acc : string),
    for_range (List.length pre) (List.length bytes)
      (fun i binary =>
         (binary ++ String (fromCharCode (nth i (pre ++ bytes) 0%Z)) EmptyString)%string)
      acc
    = (acc ++ string_of_list_ascii (map fromCharCode bytes))%string.
Proof.
  induction bytes as [|b bytes IH]; intros pre acc; simpl.
  - now rewrite string_app_nil_r.
  - rewrite app_nth2, Nat.sub_diag by lia. simpl nth.
    specialize (IH (pre ++ [b])).
    rewrite length_app in IH. simpl in IH.
    replace (List.length pre + 1)%nat with (S (List.length pre)) in IH by lia.
    rewrite <- app_assoc in IH. simpl in IH. rewrite IH.
    now rewrite string_app_assoc.
Qed.

Lemma binary_loop (bytes : list Z) :
  for_range 0 (List.length bytes)
    (fun i binary =>
       (binary ++ String (fromCharCode (nth i bytes 0%Z)) EmptyString)%string)
    EmptyString
  = string_of_list_ascii (map fromCharCode bytes).
Proof. exact (binary_loop_from bytes [] EmptyString). Qed.

(** The loop [bytes[i] = binary.charCodeAt(i)]. *)
Lemma charCode_loop (binary : string) :
  map (fun i => match String.get i binary with
                | Some c => charCode c
                | None => 0%Z
                end) (seq 0 (String.length binary))
  = map charCode (list_ascii_of_string binary).
Proof.
  induction binary as [|c s IH]; simpl; [reflexivity|].
  f_equal. rewrite <- seq_shift, map_map. exact IH.
Qed.

Lemma int16_bytes_roundtrip (x : list Z) :
  Forall int16 x -> int16_of_bytes (bytes_of_int16 x) = Some x.
Proof.
  induction 1 as [|v x Hv _ IH]; [reflexivity|].
  cbn [bytes_of_int16 flat_map app int16_of_bytes].
  fold (bytes_of_int16 x). rewrite IH. unfold int16 in Hv.
  f_equal. f_equal.
  destruct (Z.ltb_spec (v mod 256 + 256 * ((v / 256) mod 256)) 32768); euclid.
Qed.

Lemma bytes_of_int16_uint8 (x : list Z) : Forall uint8 (bytes_of_int16 x).
Proof.
  induction x as [|v x IH]; [constructor|].
  cbn [bytes_of_int16 flat_map app]. fold (bytes_of_int16 x).
  repeat (constructor; [unfold uint8; euclid|]). exact IH.
Qed.

(** Decoding the transport encoding of an [Int16Array] gives it back. *)
Lemma base64_roundtrip (x : list Z) :
  Forall int16 x -> base64ToInt16 (int16ToBase64 x) = Some x.
Proof.
  intros Hx. unfold int16ToBase64, base64ToInt16.
  rewrite binary_loop. unfold btoa.
  rewrite list_ascii_of_string_of_list_ascii.
  pose proof (bytes_of_int16_uint8 x) as Hb.
  rewrite (map_charCode_fromCharCode _ Hb).
  fold (encode_chars (bytes_of_int16 x)).
  rewrite (atob_encode_chars _ Hb).
  set (binary := string_of_list_ascii (map fromCharCode (bytes_of_int16 x))).
  transitivity (int16_of_bytes (map charCode (list_ascii_of_string binary))).
  - f_equal. rewrite <- charCode_loop.
    exact (for_range_fill
             (fun i => match String.get i binary with
                       | Some c => charCode c
                       | None => 0%Z
                       end) 0%Z (String.length binary)).
  - unfold binary. rewrite list_ascii_of_string_of_list_ascii.
    rewrite (map_charCode_fromCharCode _ Hb).
    now apply int16_bytes_roundtrip.
Qed.

Lemma quantize_int16 (x : Q) : int16 (quantize x).
Proof.
  unfold quantize, ToInt16, int16. cbv zeta.
  match goal with |- context [(?a mod 65536)%Z] =>
    pose proof (Z.mod_pos_bound a 65536 eq_refl) end.
  lia.
Qed.

Lemma float32ToInt16_int16 (a : list Q) : Forall int16 (float32ToInt16 a).
Proof.
  rewrite AudioFacts.float32ToInt16_map. apply Forall_map.
  apply Forall_forall. intros x _. apply quantize_int16.
Qed.

End Base64Facts.

(** ** The capture pipeline *)

Module RecorderFacts.
Import Store Recorder RecorderSpec.

Lemma TypedArray_set_fold {A : Type} (src : list A) :
  forall pre mid post,
    List.length mid = List.length src ->
    fold_left (fun '(d, k) v => (aset k v d, S k)) src
              (pre ++ mid ++ post, List.length pre)
    = (pre ++ src ++ post, (List.length pre + List.length src)%nat).
Proof.
  induction src as [|v src IH]; intros pre mid post Hlen.
  - destruct mid; [|discriminate]. simpl. now rewrite Nat.add_0_r.
  - destruct mid as [|m mid]; [discriminate|]. injection Hlen as Hlen.
    cbn [fold_left app]. rewrite aset_app.
    specialize (IH (pre ++ [v]) mid post Hlen).
    rewrite length_app in IH. cbn [List.length] in IH.
    replace (List.length pre + 1)%nat with (S (List.length pre)) in IH by lia.
    rewrite <- !app_assoc in IH. cbn [app] in IH. rewrite IH.
    f_equal. cbn [List.length]. lia.
Qed.


Lemma sum_lengths {A : Type} (arrs : list (list A)) :
  forall n,
    fold_left (fun sum arr => (sum + List.length arr)%nat) arrs n
    = (n + total_length arrs)%nat.
Proof.
  induction arrs as [|a arrs IH]; intros n; simpl; [lia|].
  rewrite IH. lia.
Qed.

Lemma merge_loop {A : Type} (zero : A) (arrs : list (list A)) :
  forall done,
    fold_left
      (fun '(merged, offset) arr =>
         (TypedArray_set merged arr offset, (offset + List.length arr)%nat))
      arrs (done ++ repeat zero (total_length arrs), List.length done)
    = (done ++ List.concat arrs, (List.length done + total_length arrs)%nat).
Proof.
  induction arrs as [|a arrs IH]; intros done.
  - simpl. now rewrite Nat.add_0_r.
  - cbn [fold_left total_length fold_right List.concat].
    fold (total_length arrs). rewrite repeat_app.
    unfold TypedArray_set at 2.
    rewrite (TypedArray_set_fold a done (repeat zero (List.length a)))
      by apply repeat_length.
    cbn [fst]. specialize (IH (done ++ a)).
    rewrite length_app, <- app_assoc in IH. rewrite IH.
    f_equal; [now rewrite <- app_assoc | lia].
Qed.

(** The merge loop concatenates the buffered arrays. *)
Lemma mergeArrays_concat {A : Type} (zero : A) (arrs : list (list A)) :
  mergeArrays zero arrs = List.concat arrs.
Proof.
  unfold mergeArrays. rewrite sum_lengths. cbn [Nat.add].
  pose proof (merge_loop zero arrs []) as H.
  cbn [app List.length] in H. now rewrite H.
Qed.

Section Session.
Variable host : Host.
Variable options : Options.


Lemma startRecording_granted (stream : nat) (rate : Q) (w : World) :
  let w1 := fst (startRecording options (media_granted stream rate) w) in
  chunksRef w1 = [] /\ isRecordingRef w1 = true /\ processorRef w1 = Some rate
  /\ chunkIntervalRef w1 = (onChunk options || chunkIntervalRef w)%bool.
Proof.
  destruct w; cbn. destruct (onChunk options); cbn; auto.
Qed.

Lemma stopRecording_effects (w : World) :
  let '(base64, w') := stopRecording w in
  base64 = Audio.int16ToBase64 (List.concat (chunksRef w))
  /\ isRecordingRef w' = false
  /\ volumeLevel (store w') = 0
  /\ isRecording (store w') = false
  /\ chunksRef w' = [] /\ accumulatedSamplesRef w' = []
  /\ chunkIntervalRef w' = false /\ processorRef w' = None
  /\ sourceRef w' = false /\ audioContextRef w' = None /\ streamRef w' = None.
Proof.
  unfold stopRecording. rewrite mergeArrays_concat.
  destruct w as [st cl out sup den str ctx prc src chk rec itv acc].
  unfold teardown. cbn.
  destruct itv, prc, src, ctx, str, st; cbn; repeat split; reflexivity.
Qed.

End Session.

End RecorderFacts.

(** ** The playback scheduler *)

Module PlayerFacts.
Import Protocol Store Player PlayerSpec.

Local Arguments Math_max : simpl never.
Local Arguments Math_min : simpl never.
Local Arguments Qle_bool : simpl never.
Local Arguments Audio.duration : simpl never.
Local Arguments dispatch : simpl never.
Local Arguments writeVolumeLevelRef : simpl never.

Section WithHost.
Variable host : Host.
Variable options : Options.

(** *** The drain check *)



(** *** Where the stream-ended flag comes from *)

Lemma fold_emit_fields (f : Source -> Output) (l : list Source) :
  forall w,
    let w' := fold_left (fun w s => emit (f s) w) l w in
    w' = Build_World (store w) (calls w) (outputs w ++ map f l)
           (audioContextRef w) (isPlayingRef w) (nextStartTimeRef w)
           (analyserRef w) (animationFrameRef w) (scheduledSourcesRef w)
           (lastScheduledEndTimeRef w) (playbackCheckIntervalRef w)
           (streamEndedRef w) (sourcesCreated w).
Proof.
  induction l as [|s l IH]; intros w; cbn.
  - destruct w; cbn. now rewrite app_nil_r.
  - rewrite IH. destruct w; cbn. now rewrite <- app_assoc.
Qed.

Lemma stopPlayback_refs (w : World) :
  let w' := stopPlayback options w in
  streamEndedRef w' = false /\ lastScheduledEndTimeRef w' = 0
  /\ scheduledSourcesRef w' = [] /\ isPlayingRef w' = false
  /\ audioContextRef w' = audioContextRef w /\ analyserRef w' = analyserRef w
  /\ playbackCheckIntervalRef w' = false.
Proof.
  unfold stopPlayback. rewrite fold_emit_fields.
  destruct w as [st cl out ctx pl nx an fr srcs le itv se n].
  unfold stopVolumeMonitoring.
  destruct itv, fr, (onPlaybackEnd options); cbn; auto 10.
Qed.

Lemma getAudioContext_fields (w : World) :
  let w' := getAudioContext w in
  streamEndedRef w' = streamEndedRef w /\ isPlayingRef w' = isPlayingRef w
  /\ store w' = store w /\ calls w' = calls w /\ outputs w' = outputs w
  /\ playbackCheckIntervalRef w' = playbackCheckIntervalRef w
  /\ animationFrameRef w' = animationFrameRef w.
Proof.
  destruct w as [st cl out ctx pl nx an fr srcs le itv se n].
  unfold getAudioContext. destruct ctx as [[| |]|]; cbn; auto 10.
Qed.

Lemma getAudioContext_consistent (w : World) :
  consistent w ->
  let w' := getAudioContext w in
  live w' /\ consistent w'
  /\ lastScheduledEndTimeRef w' = lastScheduledEndTimeRef w
  /\ scheduledSourcesRef w' = scheduledSourcesRef w.
Proof.
  destruct w as [st cl out ctx pl nx an fr srcs le itv se n].
  unfold getAudioContext, consistent, live. cbn.
  intros [[Hnone | [Han [Hctx | Hctx]]] Hidle].
  - subst ctx. destruct (Hidle eq_refl) as [-> ->]. cbn.
    repeat split; auto; discriminate.
  - subst ctx an. cbn. repeat split; auto; discriminate.
  - subst ctx an. cbn. repeat split; auto; discriminate.
Qed.

Lemma updateVolume_fields (timeData : list Z) (w : World) :
  let w' := updateVolume host options timeData w in
  audioContextRef w' = audioContextRef w /\ analyserRef w' = analyserRef w
  /\ lastScheduledEndTimeRef w' = lastScheduledEndTimeRef w
  /\ scheduledSourcesRef w' = scheduledSourcesRef w
  /\ streamEndedRef w' = streamEndedRef w
  /\ isPlayingRef w' = isPlayingRef w
  /\ playbackCheckIntervalRef w' = playbackCheckIntervalRef w
  /\ starts w' = starts w.
Proof.
  destruct w as [st cl out ctx pl nx an fr srcs le itv se n].
  unfold updateVolume, starts.
  destruct pl; cbn [isPlayingRef negb]; [|cbn; auto 10].
  destruct (onVolumeChange options); cbn; repeat split; auto.
  rewrite flat_map_app. cbn. now rewrite app_nil_r.
Qed.

Lemma checkPlaybackEnded_fields (now : Q) (w : World) :
  let w' := checkPlaybackEnded options now w in
  audioContextRef w' = audioContextRef w /\ analyserRef w' = analyserRef w
  /\ lastScheduledEndTimeRef w' = lastScheduledEndTimeRef w
  /\ streamEndedRef w' = streamEndedRef w
  /\ (scheduledSourcesRef w' = scheduledSourcesRef w \/ scheduledSourcesRef w' = [])
  /\ starts w' = starts w.
Proof.
  destruct w as [st cl out ctx pl nx an fr srcs le itv se n].
  unfold checkPlaybackEnded, stopVolumeMonitoring, starts.
  destruct ctx; [|cbn; auto 10].
  destruct se; cbn [streamEndedRef negb]; [|cbn; auto 10].
  destruct pl; cbn [isPlayingRef andb]; [|cbn; auto 10].
  cbn [lastScheduledEndTimeRef].
  destruct (Qle_bool le now); [|cbn; auto 10].
  destruct fr, (onPlaybackEnd options), itv; cbn; repeat split; auto;
    rewrite flat_map_app; cbn; now rewrite app_nil_r.
Qed.

Lemma addAudioChunk_rejected (base64Data : string) (rate : Q) (env : Env) (w : World) :
  decodeChunk host base64Data rate = None ->
  addAudioChunk host options base64Data rate env w
  = emit (console_error "Failed to decode audio chunk:") (getAudioContext w).
Proof. intros E. unfold addAudioChunk. now rewrite E. Qed.

(** An accepted chunk is started at [max(lastScheduledEnd, now)] and
    moves [lastScheduledEnd] to the end of its buffer. *)
Lemma addAudioChunk_accepted (base64Data : string) (rate : Q) (env : Env)
  (buffer : Audio.AudioBuffer) (w : World) :
  decodeChunk host base64Data rate = Some buffer ->
  consistent w ->
  let w' := addAudioChunk host options base64Data rate env w in
  let startTime := Math_max (lastScheduledEndTimeRef w) (currentTime env) in
  starts w' = starts w ++ [(startTime, buffer)]
  /\ lastScheduledEndTimeRef w' = startTime + Audio.duration buffer
  /\ scheduledSourcesRef w'
     = scheduledSourcesRef w
         ++ [{| source_id := sourcesCreated w; source_startTime := startTime;
                source_buffer := buffer |}]
  /\ streamEndedRef w' = streamEndedRef w
  /\ isPlayingRef w' = true
  /\ live w' /\ consistent w'.
Proof.
  intros E Hc. unfold addAudioChunk. rewrite E.
  destruct (getAudioContext_consistent w Hc) as (Hlive & _ & Hle & Hsrc).
  pose proof (getAudioContext_fields w) as (Hse & Hpl & _ & _ & Hout & _ & _).
  assert (Hn : sourcesCreated (getAudioContext w) = sourcesCreated w).
  { clear. destruct w as [st cl out ctx pl nx an fr srcs le itv se n].
    unfold getAudioContext. destruct ctx as [[| |]|]; reflexivity. }
  assert (Hst : starts (getAudioContext w) = starts w)
    by (unfold starts; now rewrite Hout).
  clear Hout.
  revert Hlive Hle Hsrc Hse Hpl Hn Hst.
  generalize (getAudioContext w). intros w0 [Han Hctx] Hle Hsrc Hse Hpl Hn Hst.
  rewrite <- Hle, <- Hsrc, <- Hse, <- Hn, <- Hst. clear Hle Hsrc Hse Hpl Hn Hst Hc E w.
  destruct w0 as [st cl out ctx pl nx an fr srcs le itv se n].
  cbn in Han, Hctx. subst an.
  unfold scheduleBuffer, startVolumeMonitoring, updateVolume, starts, live, consistent.
  destruct Hctx as [-> | ->]; cbn;
    destruct pl; cbn;
    destruct (onVolumeChange options), (onPlaybackStart options), itv; cbn;
    rewrite ?flat_map_app; cbn; rewrite ?app_nil_r;
    repeat split; auto; try discriminate;
    right; unfold live; cbn; auto.
Qed.

Lemma unmount_refs (w : World) :
  let w' := unmount options w in
  audioContextRef w' = None /\ lastScheduledEndTimeRef w' = 0
  /\ scheduledSourcesRef w' = [] /\ streamEndedRef w' = false.
Proof.
  unfold unmount. destruct (stopPlayback_refs w) as (Hse & Hle & Hsrc & _ & Hctx & _ & Hitv).
  revert Hse Hle Hsrc Hctx Hitv. generalize (stopPlayback options w).
  intros [st cl out ctx pl nx an fr srcs le itv se n]. cbn.
  intros -> -> -> _ ->. destruct ctx; cbn; auto.
Qed.



(** *** Reachable states are consistent *)

Lemma init_consistent (st : ChatState) : consistent (init st).
Proof. unfold consistent, init; cbn. auto. Qed.

Lemma consistent_of_live (w : World) : live w -> consistent w.
Proof.
  intros H. split; [now right|].
  destruct H as [_ [H | H]]; rewrite H; discriminate.
Qed.

Lemma step_consistent (w : World) (e : Event) :
  consistent w -> consistent (step host options w e).
Proof.
  intros Hc.
  destruct e as [data env | now | timeData | source | | | | a]; cbn [step].
  - destruct data as [m|]; [|auto].
    destruct m; cbn [handleMessage]; auto.
    + destruct w; cbn in *. unfold consistent, live in *; cbn in *. tauto.
    + now apply getAudioContext_consistent.
    + destruct (decodeChunk host audio_base64 audio_sample_rate) eqn:E.
      * now apply (addAudioChunk_accepted _ _ env _ w E).
      * rewrite (addAudioChunk_rejected _ _ env w E).
        destruct (getAudioContext_consistent w Hc) as (_ & H & _).
        revert H. generalize (getAudioContext w). now intros [].
    + now destruct w.
  - destruct (playbackCheckIntervalRef w); [|auto].
    pose proof (checkPlaybackEnded_fields now w) as (H1 & H2 & H3 & _ & H5 & _).
    unfold consistent, live in *. rewrite H1, H2, H3.
    destruct Hc as [Hc1 Hc2]. split; [exact Hc1|].
    intros Hn. destruct (Hc2 Hn) as [-> Hs]. split; [reflexivity|].
    destruct H5 as [-> | ->]; auto.
  - destruct (animationFrameRef w); [|auto].
    pose proof (updateVolume_fields timeData w) as (H1 & H2 & H3 & H4 & _).
    unfold consistent, live in *. now rewrite H1, H2, H3, H4.
  - destruct w as [st cl out ctx pl nx an fr srcs le itv se n].
    unfold consistent, live in *. cbn in *.
    destruct Hc as [Hc1 Hc2]. split; [exact Hc1|].
    intros Hn. destruct (Hc2 Hn) as [-> ->]. auto.
  - destruct (stopPlayback_refs w) as (_ & H1 & H2 & _ & H3 & H4 & _).
    unfold consistent, live in *. rewrite H1, H2, H3, H4. tauto.
  - destruct w as [st cl out [[| |]|] pl nx an fr srcs le itv se n];
      unfold consistent, live in *; cbn in *; try tauto.
    destruct Hc as [[Hc | [Hc _]] _]; [discriminate|]. split; [auto|discriminate].
  - destruct (unmount_refs w) as (H1 & H2 & H3 & _).
    unfold consistent. rewrite H1, H2, H3. auto.
  - now destruct w.
Qed.

Lemma run_consistent (events : list Event) :
  forall w, consistent w -> consistent (run host options events w).
Proof.
  induction events as [|e events IH]; intros w H; [exact H|].
  cbn [run fold_left]. apply IH. now apply step_consistent.
Qed.

(** *** Quiet events leave the schedule alone *)

Lemma step_quiet (w : World) (e : Event) :
  live w -> quiet host e = true ->
  let w' := step host options w e in
  live w'
  /\ lastScheduledEndTimeRef w' = lastScheduledEndTimeRef w
  /\ starts w' = starts w.
Proof.
  intros Hl Hq. pose proof (consistent_of_live w Hl) as Hc.
  destruct e as [data env | now | timeData | source | | | | a];
    cbn [step]; cbn [quiet] in Hq; try discriminate.
  - destruct data as [m|]; [|auto].
    destruct m; cbn [handleMessage]; auto; try discriminate.
    + destruct (getAudioContext_consistent w Hc) as (H1 & _ & H2 & _).
      pose proof (getAudioContext_fields w) as (_ & _ & _ & _ & H3 & _).
      unfold starts. rewrite H3. auto.
    + destruct (decodeChunk host audio_base64 audio_sample_rate) eqn:E;
        [discriminate|].
      rewrite (addAudioChunk_rejected _ _ env w E).
      destruct (getAudioContext_consistent w Hc) as (H1 & _ & H2 & _).
      pose proof (getAudioContext_fields w) as (_ & _ & _ & _ & H3 & _).
      revert H1 H2 H3. generalize (getAudioContext w).
      intros [st cl out ctx pl nx an fr srcs le itv se n] H1 H2 H3.
      unfold live, starts in *. cbn in *. subst.
      rewrite flat_map_app. cbn. rewrite app_nil_r. auto.
    + destruct w; unfold live, starts in *; cbn in *. auto.
  - destruct (playbackCheckIntervalRef w); [|auto].
    pose proof (checkPlaybackEnded_fields now w) as (H1 & H2 & H3 & _ & _ & H6).
    unfold live in *. now rewrite H1, H2, H3, H6.
  - destruct (animationFrameRef w); [|auto].
    pose proof (updateVolume_fields timeData w) as (H1 & H2 & H3 & _ & _ & _ & _ & H8).
    unfold live in *. now rewrite H1, H2, H3, H8.
  - destruct w; unfold live, starts in *; cbn in *. auto.
  - destruct w as [st cl out [[| |]|] pl nx an fr srcs le itv se n];
      unfold live, starts in *; cbn in *; tauto.
  - destruct w; unfold live, starts in *; cbn in *. auto.
Qed.

Lemma run_quiet (events : list Event) :
  forall w,
    live w -> forallb (quiet host) events = true ->
    let w' := run host options events w in
    live w'
    /\ lastScheduledEndTimeRef w' = lastScheduledEndTimeRef w
    /\ starts w' = starts w.
Proof.
  induction events as [|e events IH]; intros w Hl Hq; [cbn; auto|].
  cbn [forallb] in Hq. apply andb_true_iff in Hq as [Hq1 Hq2].
  destruct (step_quiet w e Hl Hq1) as (Hl' & Hle & Hst).
  destruct (IH _ Hl' Hq2) as (Hl'' & Hle' & Hst').
  cbn [run fold_left]. cbv zeta in *.
  fold (run host options events (step host options w e)).
  rewrite Hle', Hst', Hle, Hst. auto.
Qed.

End WithHost.

End PlayerFacts.

(** ** The session protocol *)

Module SessionFacts.
Import Protocol Store WebSocketHook SessionSpec.

Lemma update_socket_fields (h : nat) (f : Socket -> Socket) (w : World) :
  let w' := update_socket h f w in
  store w' = store w /\ calls w' = calls w /\ timers w' = timers w
  /\ timersCreated w' = timersCreated w
  /\ pingIntervalRef w' = pingIntervalRef w
  /\ reconnectTimeoutRef w' = reconnectTimeoutRef w.
Proof.
  unfold update_socket. destruct (nth_error (sockets w) h); [|auto 10].
  destruct w; cbn; auto 10.
Qed.

(** [onclose] reads the status after it has stored Disconnected, so its
    reconnect branch is never taken. *)
Lemma onclose_fields (characterName : string) (w : World) :
  let w' := onclose characterName w in
  connectionStatus (store w') = status_disconnected
  /\ timersCreated w' = timersCreated w
  /\ reconnectTimeoutRef w' = reconnectTimeoutRef w
  /\ incl (timers w') (timers w).
Proof.
  destruct w as [st cl con socks pg rc tm n]. destruct st.
  unfold onclose. destruct pg as [timer|]; cbn; repeat split; auto.
  - intros t Ht. apply filter_In in Ht. tauto.
  - apply incl_refl.
Qed.

End SessionFacts.

(** * Main results *)

Import Protocol Store.


(** C2 (as the code behaves). A close event never schedules a reconnect:
    the handler stores Disconnected before it reads the status back, so no
    timer is created and the reconnect ref is left as it was, also when the
    status before the close was Connected. *)
Theorem C2_close_schedules_no_reconnect (w : WebSocketHook.World) (h : nat) :
  let w' := WebSocketHook.step w (WebSocketHook.socket_closed h) in
  WebSocketHook.timersCreated w' = WebSocketHook.timersCreated w
  /\ WebSocketHook.reconnectTimeoutRef w' = WebSocketHook.reconnectTimeoutRef w
  /\ incl (WebSocketHook.timers w') (WebSocketHook.timers w).
Proof.
  cbn [WebSocketHook.step].
  destruct (nth_error (WebSocketHook.sockets w) h) as [s|];
    [|auto using incl_refl].
  pose proof (SessionFacts.update_socket_fields h
                (WebSocketHook.set_readyState WebSocketHook.CLOSED) w)
    as (_ & _ & Htm & Hn & _ & Hrc).
  pose proof (SessionFacts.onclose_fields (WebSocketHook.socket_character s)
                (WebSocketHook.update_socket h
                   (WebSocketHook.set_readyState WebSocketHook.CLOSED) w))
    as (_ & Hn' & Hrc' & Htm').
  destruct (WebSocketHook.readyState s); cbv zeta in *;
    auto using incl_refl; rewrite Hn', Hrc', Hn, Hrc; rewrite Htm in Htm'; auto.
Qed.

(** C3. An accepted chunk is started at [max(lastScheduledEnd, now)] and
    [lastScheduledEnd] becomes that start plus the buffer's duration; so the
    next accepted chunk of the stream starts exactly where its predecessor
    ends when it arrives before that end, and at the current clock time when
    it arrives later.  Events that belong to neither a new turn nor a stop
    (ticks, frames, finished sources, other messages, undecodable chunks)
    may come in between. *)
Theorem C3_chunks_scheduled_back_to_back
  (host : Host) (options : Player.Options) (st : ChatState)
  (history mid : list Player.Event)
  (base64_1 base64_2 : string) (rate1 rate2 : Q) (env1 env2 : Player.Env)
  (buffer1 buffer2 : Audio.AudioBuffer) :
  Player.decodeChunk host base64_1 rate1 = Some buffer1 ->
  Player.decodeChunk host base64_2 rate2 = Some buffer2 ->
  forallb (PlayerSpec.quiet host) mid = true ->
  let w := Player.run host options history (Player.init st) in
  let w1 := Player.addAudioChunk host options base64_1 rate1 env1 w in
  let start1 := Math_max (Player.lastScheduledEndTimeRef w) (Player.currentTime env1) in
  let end1 := start1 + Audio.duration buffer1 in
  let w2 := Player.run host options mid w1 in
  let w3 := Player.addAudioChunk host options base64_2 rate2 env2 w2 in
  let start2 := Math_max end1 (Player.currentTime env2) in
  PlayerSpec.starts w1 = PlayerSpec.starts w ++ [(start1, buffer1)]
  /\ Player.lastScheduledEndTimeRef w1 = end1
  /\ PlayerSpec.starts w3 = PlayerSpec.starts w1 ++ [(start2, buffer2)]
  /\ Player.lastScheduledEndTimeRef w3 = start2 + Audio.duration buffer2
  /\ (Player.currentTime env2 <= end1 -> start2 = end1)
  /\ (end1 < Player.currentTime env2 -> start2 = Player.currentTime env2).
Proof.
  intros E1 E2 Hq. cbv zeta.
  set (w := Player.run host options history (Player.init st)).
  assert (Hc : PlayerSpec.consistent w).
  { apply PlayerFacts.run_consistent, PlayerFacts.init_consistent. }
  destruct (PlayerFacts.addAudioChunk_accepted host options _ _ env1 _ w E1 Hc)
    as (Hs1 & Hl1 & _ & _ & _ & Hlive1 & _).
  destruct (PlayerFacts.run_quiet host options mid _ Hlive1 Hq) as (Hlive2 & Hl2 & Hs2).
  pose proof (PlayerFacts.consistent_of_live _ Hlive2) as Hc2.
  destruct (PlayerFacts.addAudioChunk_accepted host options _ _ env2 _ _ E2 Hc2)
    as (Hs3 & Hl3 & _).
  cbv zeta in *. rewrite Hl2, Hl1 in Hs3, Hl3. rewrite Hs2 in Hs3.
  repeat split; auto.
  - generalize (Math_max (Player.lastScheduledEndTimeRef w) (Player.currentTime env1)
                + Audio.duration buffer1).
    intros end1 H. unfold Math_max. apply Qle_bool_iff in H. now rewrite H.
  - generalize (Math_max (Player.lastScheduledEndTimeRef w) (Player.currentTime env1)
                + Audio.duration buffer1).
    intros end1 H. unfold Math_max.
    destruct (Qle_bool (Player.currentTime env2) end1) eqn:E; [|reflexivity].
    apply Qle_bool_iff in E. lra.
Qed.

(** C4. Three [response] messages followed by one [turn_end] append exactly
    three assistant messages, each with the delivered content, the
    secondary-language text and the emotion tag, and set the pipeline stage
    to idle exactly once: the response handlers leave the stage alone, the
    turn-end handler sets it. *)
Theorem C4_three_responses_then_turn_end
  (w : WebSocketHook.World)
  (cn1 jp1 em1 cn2 jp2 em2 cn3 jp3 em3 : string)
  (uuid1 uuid2 uuid3 uuid4 : string) (t1 t2 t3 t4 : Z) :
  let m1 := SessionSpec.assistant_message uuid1 t1 cn1 jp1 em1 in
  let m2 := SessionSpec.assistant_message uuid2 t2 cn2 jp2 em2 in
  let m3 := SessionSpec.assistant_message uuid3 t3 cn3 jp3 em3 in
  let w1 := WebSocketHook.handleMessage (Some (response cn1 jp1 em1)) uuid1 t1 w in
  let w2 := WebSocketHook.handleMessage (Some (response cn2 jp2 em2)) uuid2 t2 w1 in
  let w3 := WebSocketHook.handleMessage (Some (response cn3 jp3 em3)) uuid3 t3 w2 in
  let w4 := WebSocketHook.handleMessage (Some turn_end) uuid4 t4 w3 in
  messages (WebSocketHook.store w4) = messages (WebSocketHook.store w) ++ [m1; m2; m3]
  /\ role m1 = assistant /\ role m2 = assistant /\ role m3 = assistant
  /\ (exists by_responses by_turn_end,
        WebSocketHook.calls w3 = WebSocketHook.calls w ++ by_responses
        /\ WebSocketHook.calls w4 = WebSocketHook.calls w3 ++ by_turn_end
        /\ SessionSpec.idle_sets by_responses = 0%nat
        /\ SessionSpec.idle_sets by_turn_end = 1%nat)
  /\ pipelineStage (WebSocketHook.store w3) = pipelineStage (WebSocketHook.store w)
  /\ pipelineStage (WebSocketHook.store w4) = idle.
Proof.
  destruct w as [s cl con socks pg rc tm n]. destruct s. cbn.
  repeat split.
  - now rewrite <- !app_assoc.
  - eexists _, _. rewrite <- !app_assoc. cbn. repeat split; reflexivity.
Qed.

(** C7. [connect] does nothing when the store's socket is OPEN; otherwise,
    with an empty token, it only records the user-visible error message:
    no socket is created, the connection status is unchanged and no timer
    (hence no retry) is set up. *)
Theorem C7_connect_guards (characterName : string) (w : WebSocketHook.World) :
  (WebSocketHook.isOpen (ws (WebSocketHook.store w)) w = true ->
   WebSocketHook.connect characterName w = w)
  /\ (WebSocketHook.isOpen (ws (WebSocketHook.store w)) w = false ->
      apiToken (WebSocketHook.store w) = EmptyString ->
      let w' := WebSocketHook.connect characterName w in
      errorMessage (WebSocketHook.store w') = Some WebSocketHook.TOKEN_REQUIRED
      /\ WebSocketHook.store w'
         = dispatch (setErrorMessage (Some WebSocketHook.TOKEN_REQUIRED))
                    (WebSocketHook.store w)
      /\ connectionStatus (WebSocketHook.store w')
         = connectionStatus (WebSocketHook.store w)
      /\ ws (WebSocketHook.store w') = ws (WebSocketHook.store w)
      /\ WebSocketHook.sockets w' = WebSocketHook.sockets w
      /\ WebSocketHook.timers w' = WebSocketHook.timers w
      /\ WebSocketHook.timersCreated w' = WebSocketHook.timersCreated w
      /\ WebSocketHook.reconnectTimeoutRef w' = WebSocketHook.reconnectTimeoutRef w
      /\ WebSocketHook.pingIntervalRef w' = WebSocketHook.pingIntervalRef w).
Proof.
  unfold WebSocketHook.connect. split.
  - intros ->. reflexivity.
  - intros -> ->. cbn [String.eqb].
    destruct w as [s cl con socks pg rc tm n]. destruct s. cbn. auto 10.
Qed.

(** C8. A chunk that does not decode is logged and dropped: in every state
    the scheduler reaches, the call leaves [lastScheduledEnd], the scheduled
    sources, both isPlaying flags, the loudness values and the rest of the
    store as they were, so what is scheduled keeps playing. *)
Theorem C8_undecodable_chunk_dropped
  (host : Host) (options : Player.Options) (st : ChatState)
  (history : list Player.Event) (base64Data : string) (rate : Q) (env : Player.Env) :
  Player.decodeChunk host base64Data rate = None ->
  let w := Player.run host options history (Player.init st) in
  let w' := Player.addAudioChunk host options base64Data rate env w in
  Player.lastScheduledEndTimeRef w' = Player.lastScheduledEndTimeRef w
  /\ Player.scheduledSourcesRef w' = Player.scheduledSourcesRef w
  /\ Player.isPlayingRef w' = Player.isPlayingRef w
  /\ Player.store w' = Player.store w
  /\ Player.calls w' = Player.calls w
  /\ Player.streamEndedRef w' = Player.streamEndedRef w
  /\ Player.playbackCheckIntervalRef w' = Player.playbackCheckIntervalRef w
  /\ Player.animationFrameRef w' = Player.animationFrameRef w
  /\ Player.outputs w'
     = Player.outputs w ++ [Player.console_error "Failed to decode audio chunk:"].
Proof.
  intros E. cbv zeta.
  set (w := Player.run host options history (Player.init st)).
  assert (Hc : PlayerSpec.consistent w).
  { apply PlayerFacts.run_consistent, PlayerFacts.init_consistent. }
  rewrite (PlayerFacts.addAudioChunk_rejected host options _ _ env w E).
  destruct (PlayerFacts.getAudioContext_consistent w Hc) as (_ & _ & Hle & Hsrc).
  pose proof (PlayerFacts.getAudioContext_fields w)
    as (Hse & Hpl & Hst & Hcl & Hout & Hitv & Hfr).
  revert Hle Hsrc Hse Hpl Hst Hcl Hout Hitv Hfr.
  generalize (Player.getAudioContext w).
  intros [s cl out ctx pl nx an fr srcs le itv se n]. cbn.
  intros -> -> -> -> -> -> -> -> ->. auto 10.
Qed.





(** C6 (as the code behaves). Through [float32ToInt16] and back through
    [int16ToFloat32] every sample ends less than two quantization steps
    (2/32768) from the original clamped sample, and less than one step
    (1/32768) when the clamped sample is negative. *)
Theorem C6_roundtrip_error (a : list Q) (i : nat) :
  (i < List.length a)%nat ->
  let s := AudioSpec.clamp (nth i a 0) in
  let y := nth i (Audio.int16ToFloat32 (Audio.float32ToInt16 a)) 0 in
  List.length (Audio.int16ToFloat32 (Audio.float32ToInt16 a)) = List.length a
  /\ Qabs (y - s) < 2 # 32768
  /\ (s < 0 -> Qabs (y - s) < 1 # 32768).
Proof.
  intros Hi. cbv zeta.
  rewrite AudioFacts.float32ToInt16_map, AudioFacts.int16ToFloat32_map, map_map.
  rewrite length_map. split; [reflexivity|].
  rewrite (nth_indep _ 0 (inject_Z (AudioSpec.quantize 0) / inject_Z 0x8000))
    by now rewrite length_map.
  rewrite (map_nth (fun x => inject_Z (AudioSpec.quantize x) / inject_Z 0x8000)).
  apply AudioFacts.sample_roundtrip_error.
Qed.

(** C6, the claim as stated fails: the sample 32769/65536 comes back as
    16383/32768, one and a half quantization steps away. *)
Lemma C6_positive_sample_off_by_more_than_one_step :
  ~ Qabs (nth 0 (Audio.int16ToFloat32 (Audio.float32ToInt16 [32769 # 65536])) 0
          - AudioSpec.clamp (32769 # 65536)) <= 1 # 32768.
Proof. vm_compute. intros H. apply H. reflexivity. Qed.

(** ** Instances *)


Lemma C3_witness :
  Player.decodeChunk example_host Examples.silence 16000 = Some Examples.one_sample
  /\ forallb (PlayerSpec.quiet example_host)
       [Player.interval_tick 0; Examples.chunk Examples.garbage 0] = true
  /\ PlayerSpec.starts
       (Player.run example_host Examples.player_options
          [Examples.chunk Examples.silence 0; Player.interval_tick 0;
           Examples.chunk Examples.garbage 0; Examples.chunk Examples.silence 0]
          (Player.init Examples.store0))
     = [(Math_max 0 0, Examples.one_sample);
        (Math_max (Math_max 0 0 + Audio.duration Examples.one_sample) 0,
         Examples.one_sample)]
  /\ (0 <= Math_max 0 0 + Audio.duration Examples.one_sample ->
      Math_max (Math_max 0 0 + Audio.duration Examples.one_sample) 0
      = Math_max 0 0 + Audio.duration Examples.one_sample).
Proof.
  assert (H1 : Player.decodeChunk example_host Examples.silence 16000
               = Some Examples.one_sample) by reflexivity.
  assert (H2 : forallb (PlayerSpec.quiet example_host)
                 [Player.interval_tick 0; Examples.chunk Examples.garbage 0] = true)
    by reflexivity.
  destruct (C3_chunks_scheduled_back_to_back example_host Examples.player_options
              Examples.store0 []
              [Player.interval_tick 0; Examples.chunk Examples.garbage 0]
              Examples.silence Examples.silence 16000 16000
              (Examples.at_time 0) (Examples.at_time 0)
              Examples.one_sample Examples.one_sample H1 H1 H2)
    as (Hs1 & _ & Hs3 & _ & Hgap & _).
  split; [exact H1|]. split; [exact H2|]. split; [|exact Hgap].
  cbn [Player.run fold_left Player.step Player.handleMessage Examples.chunk] in *.
  rewrite Hs3, Hs1. reflexivity.
Defined.

Lemma C6_witness :
  (0 < List.length [32769 # 65536])%nat
  /\ Qabs (nth 0 (Audio.int16ToFloat32 (Audio.float32ToInt16 [32769 # 65536])) 0
           - AudioSpec.clamp (nth 0 [32769 # 65536] 0)) < 2 # 32768.
Proof.
  assert (H : (0 < List.length [32769 # 65536])%nat) by (simpl; lia).
  split; [exact H|].
  exact (proj1 (proj2 (C6_roundtrip_error [32769 # 65536] 0 H))).
Defined.

Lemma C7_witness :
  WebSocketHook.connect "anon" Examples.connected_session = Examples.connected_session
  /\ errorMessage
       (WebSocketHook.store
          (WebSocketHook.connect "anon" (WebSocketHook.init (initialState ""))))
     = Some WebSocketHook.TOKEN_REQUIRED
  /\ WebSocketHook.sockets
       (WebSocketHook.connect "anon" (WebSocketHook.init (initialState ""))) = [].
Proof.
  split; [|split].
  - apply (proj1 (C7_connect_guards "anon" Examples.connected_session)).
    reflexivity.
  - apply (proj2 (C7_connect_guards "anon" (WebSocketHook.init (initialState "")))
             eq_refl eq_refl).
  - apply (proj2 (C7_connect_guards "anon" (WebSocketHook.init (initialState "")))
             eq_refl eq_refl).
Defined.

Lemma C8_witness :
  Player.decodeChunk example_host Examples.garbage 16000 = None
  /\ Player.scheduledSourcesRef
       (Player.run example_host Examples.player_options
          [Examples.chunk Examples.silence 0; Examples.chunk Examples.garbage 0]
          (Player.init Examples.store0))
     = Player.scheduledSourcesRef
         (Player.run example_host Examples.player_options
            [Examples.chunk Examples.silence 0] (Player.init Examples.store0)).
Proof.
  assert (H : Player.decodeChunk example_host Examples.garbage 16000 = None)
    by reflexivity.
  split; [exact H|].
  exact (proj1 (proj2 (C8_undecodable_chunk_dropped example_host
                         Examples.player_options Examples.store0
                         [Examples.chunk Examples.silence 0]
                         Examples.garbage 16000 (Examples.at_time 0) H))).
Defined.



(** ** Worked examples *)
Example btoa_Man : Audio.btoa "Man" = "TWFu"%string.
Proof. reflexivity. Qed.

Example btoa_Ma : Audio.btoa "Ma" = "TWE="%string.
Proof. reflexivity. Qed.

Example atob_TQ : Audio.atob "TQ==" = Some "M"%string.
Proof. reflexivity. Qed.

Example atob_bad : Audio.atob "T" = None /\ Audio.atob "T*==" = None.
Proof. split; reflexivity. Qed.

Example int16_base64_example :
  Audio.base64ToInt16 (Audio.int16ToBase64 [-1; 256; -32768; 32767]%Z)
  = Some [-1; 256; -32768; 32767]%Z.
Proof. reflexivity. Qed.

Example float32ToInt16_example :
  Audio.float32ToInt16 [1; -1; 1 # 2; -(1 # 2); 3; 32769 # 65536]
  = [32767; -32768; 16383; -16384; 32767; 16383]%Z.
Proof. reflexivity. Qed.

Example resample_example :
  map Qred (Audio.resampleAudio [0; 1; 2; 3; 4; 5] 48000 16000) = [0; 3]
  /\ map Qred (Audio.resampleAudio [0; 1; 2] 16000 32000)
     = [0; 1 # 2; 1; 3 # 2; 2; 2].
Proof. split; reflexivity. Qed.

(** The close of a confirmed session: the status before the close is
    Connected, and afterwards no reconnect is pending. *)
Example close_while_connected :
  connectionStatus (WebSocketHook.store Examples.connected_session) = status_connected
  /\ (let w' := WebSocketHook.step Examples.connected_session
                  (WebSocketHook.socket_closed 0) in
      connectionStatus (WebSocketHook.store w') = status_disconnected
      /\ WebSocketHook.scheduledReconnects w' = []
      /\ WebSocketHook.timers w' = []
      /\ WebSocketHook.reconnectTimeoutRef w' = None).
Proof. vm_compute. auto. Qed.

(** The user's own disconnect, followed by the close it causes. *)
Example close_after_disconnect :
  WebSocketHook.scheduledReconnects
    (WebSocketHook.run [WebSocketHook.disconnect_called; WebSocketHook.socket_closed 0]
       Examples.connected_session) = [].
Proof. reflexivity. Qed.

(** A batch recording of three frames decodes to the three frames' samples. *)
Example batch_of_three_frames :
  let result :=
    Recorder.stopRecording
      (Recorder.run example_host Examples.batch
         [Recorder.frame [1 # 2; 0]; Recorder.frame [-1]; Recorder.frame [1; 1; 0]]
         (Examples.recording Examples.batch)) in
  Audio.base64ToInt16 (fst result)
  = Some [16383; 0; -32768; 32767; 32767; 0]%Z
  /\ volumeLevel (Recorder.store (snd result)) = 0.
Proof. split; reflexivity. Qed.

(** A whole turn through the scheduler: the tick that follows [audio_end]
    and the end of the audio drains it; a tick before [audio_end] does not. *)
Example drain_after_audio_end :
  Player.isPlayingRef
    (Player.run example_host Examples.player_options
       [Examples.chunk Examples.silence 0; Player.interval_tick 5]
       (Player.init Examples.store0)) = true
  /\ Player.isPlayingRef
       (Player.run example_host Examples.player_options
          [Examples.chunk Examples.silence 0;
           Player.message (Some audio_end) (Examples.at_time 0);
           Player.interval_tick 5]
          (Player.init Examples.store0)) = false.
Proof. split; reflexivity. Qed.

(** * Further properties of the code *)

(** ** The PCM codec *)

Module AudioMore.
Import Audio AudioSpec ExtraSpec.

Lemma nth_map_default {A B : Type} (f : A -> B) (l : list A) (i : nat) (da : A) (db : B) :
  (i < List.length l)%nat -> nth i (map f l) db = f (nth i l da).
Proof.
  intros H. rewrite (nth_indep _ db (f da)) by now rewrite length_map.
  apply map_nth.
Qed.

Lemma clamp_high (x : Q) : 1 <= x -> clamp x = 1.
Proof.
  intros H. unfold clamp, Math_max, Math_min.
  apply Qle_bool_iff in H. rewrite H. reflexivity.
Qed.

Lemma clamp_low (x : Q) : x <= -1 -> clamp x = -1.
Proof.
  intros H. unfold clamp, Math_max, Math_min.
  destruct (Qle_bool 1 x) eqn:E.
  - apply Qle_bool_iff in E. lra.
  - apply Qle_bool_iff in H. now rewrite H.
Qed.

Lemma clamp_inside (x : Q) : -1 <= x -> x <= 1 -> clamp x == x.
Proof.
  intros Hlo Hhi. unfold clamp, Math_max, Math_min.
  destruct (Qle_bool 1 x) eqn:E1.
  - apply Qle_bool_iff in E1.
    destruct (Qle_bool 1 (-1)) eqn:E2; [apply Qle_bool_iff in E2|]; lra.
  - destruct (Qle_bool x (-1)) eqn:E2; [apply Qle_bool_iff in E2; lra | reflexivity].
Qed.

Lemma clamp_cases (x : Q) :
  (x <= -1 /\ clamp x = -1) \/ (1 <= x /\ clamp x = 1)
  \/ (-1 < x /\ x < 1 /\ clamp x = x).
Proof.
  destruct (Qlt_le_dec (-1) x) as [Hlo | Hlo]; [|left; auto using clamp_low].
  destruct (Qlt_le_dec x 1) as [Hhi | Hhi]; [|right; left; auto using clamp_high].
  right. right. repeat split; auto.
  unfold clamp, Math_max, Math_min.
  destruct (Qle_bool 1 x) eqn:E1; [apply Qle_bool_iff in E1; lra|].
  destruct (Qle_bool x (-1)) eqn:E2; [apply Qle_bool_iff in E2; lra | reflexivity].
Qed.

Lemma clamp_monotone (x y : Q) : x <= y -> clamp x <= clamp y.
Proof.
  intros H.
  destruct (clamp_cases x) as [[Hx ->] | [[Hx ->] | (Hx1 & Hx2 & ->)]];
    destruct (clamp_cases y) as [[Hy ->] | [[Hy ->] | (Hy1 & Hy2 & ->)]]; lra.
Qed.

Lemma quantize_monotone (x y : Q) : x <= y -> (quantize x <= quantize y)%Z.
Proof.
  intros H. pose proof (clamp_monotone x y H) as Hc.
  destruct (Qlt_le_dec (clamp x) 0) as [Hx | Hx];
    destruct (Qlt_le_dec (clamp y) 0) as [Hy | Hy].
  - destruct (AudioFacts.quantize_neg x Hx) as (_ & _ & Hx2).
    destruct (AudioFacts.quantize_neg y Hy) as (_ & Hy1 & _).
    cbv zeta in *.
    assert (L : inject_Z (quantize x) < inject_Z (quantize y + 1)).
    { rewrite inject_Z_plus. change (inject_Z 1) with 1. lra. }
    rewrite <- Zlt_Qlt in L. lia.
  - destruct (AudioFacts.quantize_neg x Hx) as (Hx0 & _).
    destruct (AudioFacts.quantize_nonneg y Hy) as (Hy0 & _).
    cbv zeta in *. lia.
  - lra.
  - destruct (AudioFacts.quantize_nonneg x Hx) as (_ & Hx1 & _).
    destruct (AudioFacts.quantize_nonneg y Hy) as (_ & _ & Hy2).
    cbv zeta in *.
    assert (L : inject_Z (quantize x) < inject_Z (quantize y + 1)).
    { rewrite inject_Z_plus. change (inject_Z 1) with 1. lra. }
    rewrite <- Zlt_Qlt in L. lia.
Qed.

(** A decoded sample, put through the encoder again. *)
Lemma quantize_of_int16 (v : Z) :
  int16 v -> quantize (inject_Z v / inject_Z 0x8000) = requantized v.
Proof.
  intros [Hlo Hhi]. change (inject_Z 0x8000) with 32768.
  set (y := inject_Z v / 32768).
  assert (Hy : y == inject_Z v * (1 # 32768)) by (unfold y; field).
  assert (Hv1 : inject_Z (-32768) <= inject_Z v) by (rewrite <- Zle_Qle; lia).
  assert (Hv2 : inject_Z v < inject_Z 32768) by (rewrite <- Zlt_Qlt; lia).
  change (inject_Z (-32768)) with (-32768) in Hv1.
  change (inject_Z 32768) with 32768 in Hv2.
  assert (Hc : clamp y == y) by (apply clamp_inside; lra).
  unfold requantized. destruct (Z.ltb_spec 0 v) as [Hpos | Hneg].
  - assert (Hv3 : inject_Z 0 < inject_Z v) by (rewrite <- Zlt_Qlt; lia).
    change (inject_Z 0) with 0 in Hv3.
    assert (Hs : 0 <= clamp y) by lra.
    destruct (AudioFacts.quantize_nonneg y Hs) as (_ & H1 & H2). cbv zeta in *.
    assert (L1 : inject_Z (quantize y) < inject_Z v) by lra.
    assert (L2 : inject_Z (v - 1) < inject_Z (quantize y + 1)).
    { unfold Z.sub. rewrite !inject_Z_plus, inject_Z_opp.
      change (inject_Z 1) with 1. lra. }
    rewrite <- Zlt_Qlt in L1, L2. lia.
  - assert (Hv3 : inject_Z v <= inject_Z 0) by (rewrite <- Zle_Qle; lia).
    change (inject_Z 0) with 0 in Hv3.
    destruct (Qlt_le_dec (clamp y) 0) as [Hs | Hs].
    + destruct (AudioFacts.quantize_neg y Hs) as (_ & H1 & H2). cbv zeta in *.
      assert (L1 : inject_Z v <= inject_Z (quantize y)) by lra.
      assert (L2 : inject_Z (quantize y - 1) < inject_Z v).
      { unfold Z.sub. rewrite inject_Z_plus, inject_Z_opp.
        change (inject_Z 1) with 1. lra. }
      rewrite <- Zle_Qle in L1. rewrite <- Zlt_Qlt in L2. lia.
    + destruct (AudioFacts.quantize_nonneg y Hs) as (H0 & H1 & H2). cbv zeta in *.
      assert (L1 : inject_Z (quantize y) <= inject_Z 0).
      { change (inject_Z 0) with 0. lra. }
      assert (L2 : inject_Z 0 <= inject_Z v).
      { change (inject_Z 0) with 0. lra. }
      rewrite <- Zle_Qle in L1, L2. lia.
Qed.

End AudioMore.

(** X1. [float32ToInt16] keeps the length and never leaves the 16-bit
    range: a sample at or above 1 becomes 32767, a sample at or below -1
    becomes -32768, whatever its size. *)
Theorem float32ToInt16_saturates (a : list Q) (i : nat) :
  (i < List.length a)%nat ->
  let v := nth i (Audio.float32ToInt16 a) 0%Z in
  List.length (Audio.float32ToInt16 a) = List.length a
  /\ int16 v
  /\ (1 <= nth i a 0 -> v = 32767%Z)
  /\ (nth i a 0 <= -1 -> v = (-32768)%Z).
Proof.
  intros Hi. cbv zeta. rewrite AudioFacts.float32ToInt16_map, length_map.
  rewrite (AudioMore.nth_map_default AudioSpec.quantize a i 0 0%Z Hi).
  split; [reflexivity|]. split; [apply Base64Facts.quantize_int16|]. split.
  - intros H. unfold AudioSpec.quantize. rewrite (AudioMore.clamp_high _ H).
    reflexivity.
  - intros H. unfold AudioSpec.quantize. rewrite (AudioMore.clamp_low _ H).
    reflexivity.
Qed.

Lemma float32ToInt16_saturates_witness :
  (1 < List.length [5%Q; (-7)%Q])%nat
  /\ nth 1 (Audio.float32ToInt16 [5; -7]) 0%Z = (-32768)%Z.
Proof.
  assert (H : (1 < List.length [5%Q; (-7)%Q])%nat) by (simpl; lia).
  split; [exact H|].
  apply (proj2 (proj2 (proj2 (float32ToInt16_saturates [5; -7] 1 H)))).
  discriminate.
Defined.

(** X2. [float32ToInt16] preserves the order of samples: a sample that is
    not larger than another is not quantized to a larger value. *)
Theorem float32ToInt16_monotone (a : list Q) (i j : nat) :
  (i < List.length a)%nat -> (j < List.length a)%nat ->
  nth i a 0 <= nth j a 0 ->
  (nth i (Audio.float32ToInt16 a) 0 <= nth j (Audio.float32ToInt16 a) 0)%Z.
Proof.
  intros Hi Hj H. rewrite AudioFacts.float32ToInt16_map.
  rewrite (AudioMore.nth_map_default AudioSpec.quantize a i 0 0%Z Hi).
  rewrite (AudioMore.nth_map_default AudioSpec.quantize a j 0 0%Z Hj).
  now apply AudioMore.quantize_monotone.
Qed.

Lemma float32ToInt16_monotone_witness :
  (0 < List.length [(1 # 3)%Q; (1 # 2)%Q])%nat
  /\ (1 < List.length [(1 # 3)%Q; (1 # 2)%Q])%nat
  /\ nth 0 [1 # 3; 1 # 2] 0 <= nth 1 [1 # 3; 1 # 2] 0
  /\ (nth 0 (Audio.float32ToInt16 [1 # 3; 1 # 2]) 0
      <= nth 1 (Audio.float32ToInt16 [1 # 3; 1 # 2]) 0)%Z.
Proof.
  assert (H0 : (0 < List.length [(1 # 3)%Q; (1 # 2)%Q])%nat) by (simpl; lia).
  assert (H1 : (1 < List.length [(1 # 3)%Q; (1 # 2)%Q])%nat) by (simpl; lia).
  assert (H2 : nth 0 [1 # 3; 1 # 2] 0 <= nth 1 [1 # 3; 1 # 2] 0) by discriminate.
  split; [exact H0|]. split; [exact H1|]. split; [exact H2|].
  exact (float32ToInt16_monotone [1 # 3; 1 # 2] 0 1 H0 H1 H2).
Defined.

(** X3. Decoding 16-bit samples to floats and encoding them again is not
    the identity: zero and negative samples come back unchanged, every
    positive sample comes back one unit smaller (it is divided by 0x8000
    but multiplied by 0x7FFF). *)
Theorem int16_float_int16_loses_one (x : list Z) :
  Forall int16 x ->
  Audio.float32ToInt16 (Audio.int16ToFloat32 x) = map ExtraSpec.requantized x.
Proof.
  intros H. rewrite AudioFacts.float32ToInt16_map, AudioFacts.int16ToFloat32_map, map_map.
  induction H as [|v x Hv _ IH]; [reflexivity|].
  cbn [map]. now rewrite IH, (AudioMore.quantize_of_int16 v Hv).
Qed.

Lemma int16_float_int16_loses_one_witness :
  Forall int16 [100; 0; -100; 32767; -32768]%Z
  /\ Audio.float32ToInt16 (Audio.int16ToFloat32 [100; 0; -100; 32767; -32768]%Z)
     = [99; 0; -100; 32766; -32768]%Z.
Proof.
  assert (H : Forall int16 [100; 0; -100; 32767; -32768]%Z)
    by (repeat constructor; unfold int16; lia).
  split; [exact H | exact (int16_float_int16_loses_one _ H)].
Defined.

Module CodecMore.
Import Audio AudioSpec ExtraSpec.

Lemma list_ascii_binary (bytes : list Z) :
  Forall uint8 bytes ->
  map charCode (list_ascii_of_string (binary_of_bytes bytes)) = bytes.
Proof.
  intros H. unfold binary_of_bytes.
  rewrite list_ascii_of_string_of_list_ascii.
  now apply Base64Facts.map_charCode_fromCharCode.
Qed.

(** Decoding the base64 text of any byte string reads the bytes back as
    16-bit samples. *)
Lemma base64ToInt16_btoa (bytes : list Z) :
  Forall uint8 bytes ->
  base64ToInt16 (btoa (binary_of_bytes bytes)) = int16_of_bytes bytes.
Proof.
  intros Hb. unfold base64ToInt16, btoa.
  rewrite (list_ascii_binary bytes Hb).
  fold (encode_chars bytes). rewrite (Base64Facts.atob_encode_chars bytes Hb).
  fold (binary_of_bytes bytes). set (binary := binary_of_bytes bytes).
  transitivity (int16_of_bytes (map charCode (list_ascii_of_string binary))).
  - f_equal. rewrite <- Base64Facts.charCode_loop.
    exact (for_range_fill
             (fun i => match String.get i binary with
                       | Some c => charCode c
                       | None => 0%Z
                       end) 0%Z (String.length binary)).
  - unfold binary. now rewrite (list_ascii_binary bytes Hb).
Qed.

Lemma int16_of_bytes_spec (bytes : list Z) :
  Forall uint8 bytes -> int16_of_bytes_ok bytes.
Proof.
  assert (H : forall l, Forall uint8 l ->
                        int16_of_bytes_ok l
                        /\ forall a, uint8 a -> int16_of_bytes_ok (a :: l)).
  { induction l as [|x l IH]; intros Hl.
    - split; [repeat split; constructor | intros a _; reflexivity].
    - inversion_clear Hl as [|? ? Hx Hl'].
      destruct (IH Hl') as [IH0 IH1]. split; [now apply IH1|].
      intros a Ha. unfold int16_of_bytes_ok in *. cbn [int16_of_bytes].
      destruct (int16_of_bytes l) as [samples|].
      + destruct IH0 as (He & Hlen & Hs). cbn [List.length].
        repeat split.
        * exact He.
        * lia.
        * constructor; [|exact Hs]. unfold int16, uint8 in *.
          destruct (Z.ltb_spec (a + 256 * x) 32768); lia.
      + cbn [List.length]. exact IH0. }
  intros Hb. now apply H.
Qed.




End CodecMore.

(** X4. Every sample [int16ToFloat32] produces from a 16-bit value lies in
    [-1, 1) and is that value over 32768, so the clamp of the encoder never
    alters a decoded sample. *)
Theorem int16ToFloat32_range (x : list Z) (i : nat) :
  Forall int16 x -> (i < List.length x)%nat ->
  let y := nth i (Audio.int16ToFloat32 x) 0 in
  -1 <= y /\ y < 1 /\ y * 32768 == inject_Z (nth i x 0%Z)
  /\ AudioSpec.clamp y == y.
Proof.
  intros Hx Hi. cbv zeta. rewrite AudioFacts.int16ToFloat32_map.
  rewrite (AudioMore.nth_map_default _ x i 0%Z 0 Hi).
  assert (Hv : int16 (nth i x 0%Z)).
  { apply (proj1 (Forall_forall _ _) Hx), nth_In, Hi. }
  destruct Hv as [Hlo Hhi]. set (v := nth i x 0%Z) in *.
  change (inject_Z 0x8000) with 32768.
  assert (Hy : inject_Z v / 32768 == inject_Z v * (1 # 32768)) by field.
  assert (Hv1 : inject_Z (-32768) <= inject_Z v) by (rewrite <- Zle_Qle; lia).
  assert (Hv2 : inject_Z v < inject_Z 32768) by (rewrite <- Zlt_Qlt; lia).
  change (inject_Z (-32768)) with (-32768) in Hv1.
  change (inject_Z 32768) with 32768 in Hv2.
  assert (H1 : -1 <= inject_Z v / 32768) by lra.
  assert (H2 : inject_Z v / 32768 < 1) by lra.
  repeat split; auto; [lra|].
  apply AudioMore.clamp_inside; lra.
Qed.

Lemma int16ToFloat32_range_witness :
  Forall int16 [-32768; 32767]%Z /\ (0 < List.length [-32768; 32767]%Z)%nat
  /\ -1 <= nth 0 (Audio.int16ToFloat32 [-32768; 32767]%Z) 0.
Proof.
  assert (H : Forall int16 [-32768; 32767]%Z)
    by (repeat constructor; unfold int16; lia).
  assert (H0 : (0 < List.length [-32768; 32767]%Z)%nat) by (simpl; lia).
  split; [exact H|]. split; [exact H0|].
  exact (proj1 (int16ToFloat32_range _ 0 H H0)).
Defined.

(** X5. [base64ToInt16] on the base64 text of a byte string succeeds
    exactly when the number of bytes is even, with one 16-bit sample per
    two bytes; a payload with an odd number of bytes is rejected (the
    RangeError of the [Int16Array] view). *)
Theorem base64ToInt16_needs_even_bytes (bytes : list Z) :
  Forall uint8 bytes ->
  let base64 := Audio.btoa (ExtraSpec.binary_of_bytes bytes) in
  (Nat.odd (List.length bytes) = true -> Audio.base64ToInt16 base64 = None)
  /\ (Nat.even (List.length bytes) = true ->
      exists samples,
        Audio.base64ToInt16 base64 = Some samples
        /\ (2 * List.length samples = List.length bytes)%nat
        /\ Forall int16 samples).
Proof.
  intros Hb. cbv zeta. rewrite (CodecMore.base64ToInt16_btoa bytes Hb).
  pose proof (CodecMore.int16_of_bytes_spec bytes Hb) as H.
  unfold ExtraSpec.int16_of_bytes_ok in H.
  destruct (Audio.int16_of_bytes bytes) as [samples|].
  - destruct H as (He & Hlen & Hs). split.
    + intros Ho. rewrite <- Nat.negb_even, He in Ho. discriminate.
    + intros _. exists samples. auto.
  - split; [reflexivity|]. intros He.
    rewrite <- Nat.negb_even, He in H. discriminate.
Qed.

Lemma base64ToInt16_needs_even_bytes_witness :
  Forall uint8 [1; 2; 3]%Z
  /\ Audio.base64ToInt16 (Audio.btoa (ExtraSpec.binary_of_bytes [1; 2; 3]%Z)) = None.
Proof.
  assert (H : Forall uint8 [1; 2; 3]%Z) by (repeat constructor; unfold uint8; lia).
  split; [exact H|].
  exact (proj1 (base64ToInt16_needs_even_bytes _ H) eq_refl).
Defined.


Module ResampleMore.
Import Audio AudioSpec ExtraSpec.

Lemma ratio_positive (fromRate toRate : Q) :
  0 < fromRate -> 0 < toRate -> 0 < fromRate / toRate.
Proof. intros Hf Ht. apply Qlt_shift_div_l; [exact Ht | lra]. Qed.

Lemma Qeq_bool_false (x y : Q) : ~ x == y -> Qeq_bool x y = false.
Proof.
  intros H. destruct (Qeq_bool x y) eqn:E; [|reflexivity].
  apply Qeq_bool_iff in E. contradiction.
Qed.


End ResampleMore.



(** X8. When the source rate is a whole multiple [k > 1] of the target
    rate, [resampleAudio] is plain decimation: output sample [i] has the
    value of input sample [i * k], no neighbouring sample is mixed in. *)
Theorem resampleAudio_decimates (data : list Q) (toRate : Q) (k : Z) (i : nat) :
  0 < toRate -> (1 < k)%Z ->
  let result := Audio.resampleAudio data (inject_Z k * toRate) toRate in
  (i < List.length result)%nat ->
  nth i result 0 == nth (i * Z.to_nat k) data 0
  /\ (i * Z.to_nat k < List.length data)%nat.
Proof.
  intros Ht Hk. cbv zeta.
  assert (Hkq : 1 < inject_Z k).
  { change 1 with (inject_Z 1). rewrite <- Zlt_Qlt. exact Hk. }
  assert (Hratio : inject_Z k * toRate / toRate == inject_Z k) by (field; lra).
  assert (Hne : ~ inject_Z k * toRate == toRate) by nra.
  assert (Hf : 0 < inject_Z k * toRate) by nra.
  rewrite (ResampleFacts.resampleAudio_map data _ toRate
             (ResampleMore.Qeq_bool_false _ _ Hne)).
  rewrite length_map, length_seq. intros Hi.
  rewrite (AudioMore.nth_map_default _ _ i 0%nat 0) by now rewrite length_seq.
  rewrite seq_nth by exact Hi. cbn [Nat.add].
  pose proof (ResampleFacts.source_index_in_range data _ i
                (ResampleMore.ratio_positive _ _ Hf Ht) Hi) as Hidx.
  set (x := inject_Z (Z.of_nat i) * (inject_Z k * toRate / toRate)) in *.
  assert (Hx : x == inject_Z (Z.of_nat i * k)).
  { unfold x. rewrite Hratio, inject_Z_mult. reflexivity. }
  assert (Hfl : Qfloor x = (Z.of_nat i * k)%Z).
  { rewrite (Qfloor_comp _ _ Hx). apply Qfloor_Z. }
  assert (Hn : Z.to_nat (Z.of_nat i * k) = (i * Z.to_nat k)%nat).
  { rewrite Z2Nat.inj_mul by lia. now rewrite Nat2Z.id. }
  split.
  - unfold AudioSpec.spec_interpolate. cbv zeta.
    rewrite Hfl, Hn.
    assert (Hw : x - inject_Z (Z.of_nat i * k) == 0) by (rewrite Hx; ring).
    rewrite Hw. ring.
  - rewrite Hfl in Hidx. lia.
Qed.

Lemma resampleAudio_decimates_witness :
  0 < 16000 /\ (1 < 3)%Z
  /\ (1 < List.length (Audio.resampleAudio Examples.ramp (inject_Z 3 * 16000) 16000))%nat
  /\ nth 1 (Audio.resampleAudio Examples.ramp (inject_Z 3 * 16000) 16000) 0
     == nth (1 * Z.to_nat 3) Examples.ramp 0.
Proof.
  assert (H1 : 0 < 16000) by reflexivity.
  assert (H2 : (1 < 3)%Z) by reflexivity.
  assert (H3 : (1 < List.length
                     (Audio.resampleAudio Examples.ramp (inject_Z 3 * 16000) 16000))%nat)
    by (vm_compute; lia).
  split; [exact H1|]. split; [exact H2|]. split; [exact H3|].
  exact (proj1 (resampleAudio_decimates Examples.ramp 16000 3 1 H1 H2 H3)).
Defined.

(** ** The capture pipeline *)

Module RecorderMore.
Import Store Recorder RecorderSpec ExtraSpec.

Lemma pcm_app (a b : list Q) :
  Audio.float32ToInt16 (a ++ b) = Audio.float32ToInt16 a ++ Audio.float32ToInt16 b.
Proof. rewrite !AudioFacts.float32ToInt16_map. apply map_app. Qed.

Lemma emitted_emit (o : Output) (w : World) :
  emitted (emit o w)
  = emitted w ++ match o with chunk_emitted base64Data => [base64Data] | _ => [] end.
Proof.
  destruct w. unfold emitted. cbn. rewrite flat_map_app. cbn.
  now rewrite app_nil_r.
Qed.

Section Session.
Variable host : Host.
Variable options : Options.

Lemma onaudioprocess_recording (rate : Q) (inputData : list Q) (w : World) :
  isRecordingRef w = true -> processorRef w = Some rate ->
  let w' := onaudioprocess host options inputData w in
  emitted w' = emitted w
  /\ accumulatedSamplesRef w'
     = accumulatedSamplesRef w
         ++ [Audio.resampleAudio inputData rate Audio.sampleRate]
  /\ isRecordingRef w' = true /\ processorRef w' = Some rate
  /\ chunkIntervalRef w' = chunkIntervalRef w.
Proof.
  intros Hrec Hproc. unfold onaudioprocess. rewrite Hproc, Hrec. cbn [negb].
  destruct w as [st cl out sup den str ctx prc src chk rec itv acc].
  cbn in *. subst. unfold emitted.
  destruct (onVolumeChange options); cbn; repeat split; auto.
  rewrite flat_map_app. cbn. now rewrite app_nil_r.
Qed.

Lemma onInterval_cases (w : World) :
  let w' := onInterval w in
  (w' = w /\ (chunkIntervalRef w = false \/ accumulatedSamplesRef w = []))
  \/ (chunkIntervalRef w = true
      /\ emitted w'
         = emitted w
             ++ [Audio.int16ToBase64
                   (Audio.float32ToInt16 (List.concat (accumulatedSamplesRef w)))]
      /\ accumulatedSamplesRef w' = []
      /\ isRecordingRef w' = isRecordingRef w /\ processorRef w' = processorRef w
      /\ chunkIntervalRef w' = true).
Proof.
  unfold onInterval.
  destruct (chunkIntervalRef w) eqn:Eitv; cbn [negb]; [|left; auto].
  destruct (accumulatedSamplesRef w) as [|a acc] eqn:Eacc; [left; auto|].
  right. rewrite RecorderFacts.mergeArrays_concat.
  destruct w as [st cl out sup den str ctx prc src chk rec itv acc'].
  cbn in *. subst. unfold emitted. cbn.
  rewrite flat_map_app. cbn. auto 10.
Qed.

(** Flushing neither loses nor repeats a sample: what has been emitted,
    followed by what is still pending, is what was pending before followed
    by the frames that came in. *)
Lemma run_conserves_samples (rate : Q) (events : list Event) :
  forall w,
    isRecordingRef w = true -> processorRef w = Some rate ->
    let w' := run host options events w in
    exists chunks,
      emitted w' = emitted w ++ map Audio.int16ToBase64 chunks
      /\ Forall (fun c => Audio.base64ToInt16 (Audio.int16ToBase64 c) = Some c) chunks
      /\ List.concat chunks
           ++ Audio.float32ToInt16 (List.concat (accumulatedSamplesRef w'))
         = Audio.float32ToInt16 (List.concat (accumulatedSamplesRef w))
             ++ List.concat (map (pcm_of_frame rate) (frames events)).
Proof.
  induction events as [|e events IH]; intros w Hrec Hproc.
  - exists []. cbn. now rewrite !app_nil_r.
  - cbn [run fold_left]. fold (run host options events (step host options w e)).
    destruct e as [inputData|]; cbn [step frames flat_map].
    + destruct (onaudioprocess_recording rate inputData w Hrec Hproc)
        as (Hem & Hacc & Hrec' & Hproc' & _).
      destruct (IH _ Hrec' Hproc') as (chunks & H1 & H2 & H3).
      exists chunks. cbv zeta in *. rewrite H1, Hem, H3, Hacc.
      split; [reflexivity|]. split; [exact H2|].
      rewrite concat_app, pcm_app. cbn [List.concat app map].
      rewrite app_nil_r, <- app_assoc. reflexivity.
    + destruct (onInterval_cases w) as [[Heq _] | (_ & Hem & Hacc & Hrec' & Hproc' & _)].
      * cbv zeta in Heq. rewrite Heq. cbn [app]. now apply IH.
      * rewrite <- Hrec' in Hrec. rewrite <- Hproc' in Hproc.
        destruct (IH _ Hrec Hproc) as (chunks & H1 & H2 & H3).
        exists (Audio.float32ToInt16 (List.concat (accumulatedSamplesRef w)) :: chunks).
        cbv zeta in *. rewrite H1, Hem, <- app_assoc. cbn [map app List.concat].
        split; [reflexivity|]. split.
        -- constructor; [|exact H2].
           apply Base64Facts.base64_roundtrip, Base64Facts.float32ToInt16_int16.
        -- rewrite <- app_assoc, H3, Hacc. reflexivity.
Qed.

Lemma run_without_interval (events : list Event) :
  forall w,
    chunkIntervalRef w = false ->
    emitted (run host options events w) = emitted w
    /\ chunkIntervalRef (run host options events w) = false.
Proof.
  induction events as [|e events IH]; intros w Hitv; [auto|].
  cbn [run fold_left]. fold (run host options events (step host options w e)).
  assert (H : emitted (step host options w e) = emitted w
              /\ chunkIntervalRef (step host options w e) = false).
  { destruct e as [inputData|]; cbn [step].
    - unfold onaudioprocess. destruct (processorRef w); [|auto].
      destruct (isRecordingRef w); cbn [negb]; [|auto].
      destruct w as [st cl out sup den str ctx prc src chk rec itv acc].
      cbn in *. subst. unfold emitted.
      destruct (onVolumeChange options); cbn; split; auto.
      rewrite flat_map_app. cbn. now rewrite app_nil_r.
    - unfold onInterval. now rewrite Hitv. }
  destruct H as [Hem Hitv']. destruct (IH _ Hitv') as [IH1 IH2].
  now rewrite IH1, Hem.
Qed.

Lemma run_released (events : list Event) :
  forall w,
    processorRef w = None -> chunkIntervalRef w = false ->
    run host options events w = w.
Proof.
  induction events as [|e events IH]; intros w Hp Hi; [reflexivity|].
  cbn [run fold_left]. fold (run host options events (step host options w e)).
  assert (H : step host options w e = w).
  { destruct e; cbn [step].
    - unfold onaudioprocess. now rewrite Hp.
    - unfold onInterval. now rewrite Hi. }
  rewrite H. now apply IH.
Qed.


End Session.

End RecorderMore.

(** X9. In a recording session the interval flush neither loses nor
    repeats a sample: the chunks handed to [onChunk], decoded and put end
    to end, followed by the samples still pending, are exactly the frames
    captured so far (after resampling and conversion), in order. *)
Theorem streaming_chunks_conserve_samples
  (host : Host) (options : Recorder.Options) (stream : nat) (contextRate : Q)
  (w0 : Recorder.World) (events : list Recorder.Event) :
  let w1 := fst (Recorder.startRecording options
                   (Recorder.media_granted stream contextRate) w0) in
  let w := Recorder.run host options events w1 in
  exists chunks,
    ExtraSpec.emitted w = ExtraSpec.emitted w0 ++ map Audio.int16ToBase64 chunks
    /\ Forall (fun c => Audio.base64ToInt16 (Audio.int16ToBase64 c) = Some c) chunks
    /\ List.concat chunks
         ++ Audio.float32ToInt16 (List.concat (Recorder.accumulatedSamplesRef w))
       = List.concat (map (RecorderSpec.pcm_of_frame contextRate)
                          (RecorderSpec.frames events)).
Proof.
  cbv zeta.
  destruct (RecorderFacts.startRecording_granted options stream contextRate w0)
    as (_ & Hrec & Hproc & _).
  destruct (RecorderMore.run_conserves_samples host options contextRate events _ Hrec Hproc)
    as (chunks & H1 & H2 & H3).
  exists chunks. cbv zeta in *. rewrite H1, H3.
  assert (Hw1 : ExtraSpec.emitted
                  (fst (Recorder.startRecording options
                          (Recorder.media_granted stream contextRate) w0))
                = ExtraSpec.emitted w0
                /\ Recorder.accumulatedSamplesRef
                     (fst (Recorder.startRecording options
                             (Recorder.media_granted stream contextRate) w0)) = []).
  { destruct w0. cbn. destruct (Recorder.onChunk options); cbn; auto. }
  destruct Hw1 as [-> ->]. repeat split; auto.
Qed.

(** X10. A session started without a chunk callback, with no flush interval
    left registered, never emits a chunk, whatever frames and timer events
    arrive. *)
Theorem batch_session_emits_no_chunk
  (host : Host) (options : Recorder.Options) (stream : nat) (contextRate : Q)
  (w0 : Recorder.World) (events : list Recorder.Event) :
  Recorder.onChunk options = false ->
  Recorder.chunkIntervalRef w0 = false ->
  let w1 := fst (Recorder.startRecording options
                   (Recorder.media_granted stream contextRate) w0) in
  ExtraSpec.emitted (Recorder.run host options events w1) = ExtraSpec.emitted w0.
Proof.
  intros Hopt Hitv. cbv zeta.
  set (w1 := fst (Recorder.startRecording options
                    (Recorder.media_granted stream contextRate) w0)).
  assert (H1 : Recorder.chunkIntervalRef w1 = false /\
               ExtraSpec.emitted w1 = ExtraSpec.emitted w0).
  { unfold w1. destruct w0. cbn in *. rewrite Hopt. cbn. auto. }
  destruct H1 as [H1 H2].
  now rewrite (proj1 (RecorderMore.run_without_interval host options events _ H1)).
Qed.

Lemma batch_session_emits_no_chunk_witness :
  Recorder.onChunk Examples.batch = false
  /\ Recorder.chunkIntervalRef (Recorder.init Examples.store0) = false
  /\ ExtraSpec.emitted
       (Recorder.run example_host Examples.batch
          [Recorder.frame [1 # 2]; Recorder.interval; Recorder.frame [-1]]
          (Examples.recording Examples.batch))
     = ExtraSpec.emitted (Recorder.init Examples.store0).
Proof.
  split; [reflexivity|]. split; [reflexivity|].
  exact (batch_session_emits_no_chunk example_host Examples.batch 1 16000
           (Recorder.init Examples.store0)
           [Recorder.frame [1 # 2]; Recorder.interval; Recorder.frame [-1]]
           eq_refl eq_refl).
Defined.

(** X11. Once [stopRecording] or [cancelRecording] has run, the recorder
    is inert: late frames and timer events change nothing, and a second
    [stopRecording] returns the empty text. *)
Theorem stopped_recorder_is_inert
  (host : Host) (options : Recorder.Options)
  (w : Recorder.World) (events : list Recorder.Event) :
  let stopped := snd (Recorder.stopRecording w) in
  let cancelled := Recorder.cancelRecording w in
  Recorder.run host options events stopped = stopped
  /\ Recorder.run host options events cancelled = cancelled
  /\ fst (Recorder.stopRecording stopped) = EmptyString
  /\ fst (Recorder.stopRecording cancelled) = EmptyString
  /\ Recorder.chunksRef cancelled = []
  /\ Recorder.streamRef cancelled = None
  /\ Recorder.audioContextRef cancelled = None.
Proof.
  cbv zeta.
  assert (Hs : Recorder.processorRef (snd (Recorder.stopRecording w)) = None
               /\ Recorder.chunkIntervalRef (snd (Recorder.stopRecording w)) = false
               /\ Recorder.chunksRef (snd (Recorder.stopRecording w)) = []).
  { pose proof (RecorderFacts.stopRecording_effects w) as H.
    destruct (Recorder.stopRecording w) as [b w'].
    cbn [snd]. tauto. }
  assert (Hc : Recorder.processorRef (Recorder.cancelRecording w) = None
               /\ Recorder.chunkIntervalRef (Recorder.cancelRecording w) = false
               /\ Recorder.chunksRef (Recorder.cancelRecording w) = []
               /\ Recorder.streamRef (Recorder.cancelRecording w) = None
               /\ Recorder.audioContextRef (Recorder.cancelRecording w) = None).
  { destruct w as [st cl out sup den str ctx prc src chk rec itv acc].
    unfold Recorder.cancelRecording, Recorder.teardown. cbn.
    destruct itv, prc, src, ctx, str; cbn; auto. }
  destruct Hs as (Hs1 & Hs2 & Hs3). destruct Hc as (Hc1 & Hc2 & Hc3 & Hc4 & Hc5).
  repeat split; auto.
  - now apply RecorderMore.run_released.
  - now apply RecorderMore.run_released.
  - pose proof (RecorderFacts.stopRecording_effects (snd (Recorder.stopRecording w))) as H.
    destruct (Recorder.stopRecording (snd (Recorder.stopRecording w))) as [b w'].
    destruct H as [-> _]. cbn [fst]. now rewrite Hs3.
  - pose proof (RecorderFacts.stopRecording_effects (Recorder.cancelRecording w)) as H.
    destruct (Recorder.stopRecording (Recorder.cancelRecording w)) as [b w'].
    destruct H as [-> _]. cbn [fst]. now rewrite Hc3.
Qed.





(** ** The playback scheduler *)

Module PlayerMore.
Import Protocol Store Player PlayerSpec ExtraSpec.

Local Arguments Math_max : simpl never.
Local Arguments Math_min : simpl never.
Local Arguments Math_sqrt : simpl never.
Local Arguments Qle_bool : simpl never.
Local Arguments Audio.duration : simpl never.
Local Arguments for_range : simpl never.
Local Arguments Qdiv : simpl never.
Local Arguments Qmult : simpl never.

Ltac case_flags :=
  repeat (cbn;
          match goal with
          | |- context [if ?b then _ else _] => destruct b eqn:?
          end);
  cbn.

Lemma Math_max_ge_l (a b : Q) : a <= Math_max a b.
Proof.
  unfold Math_max. destruct (Qle_bool b a) eqn:E; [lra|].
  assert (~ b <= a) by (intro L; apply Qle_bool_iff in L; congruence). lra.
Qed.

Lemma Math_max_ge_r (a b : Q) : b <= Math_max a b.
Proof.
  unfold Math_max. destruct (Qle_bool b a) eqn:E; [|lra].
  now apply Qle_bool_iff in E.
Qed.

Lemma dispatch_volumeLevelRef (a : Action) (s : ChatState) :
  volumeLevelRef (dispatch a s) = volumeLevelRef s.
Proof. destruct s, a; reflexivity. Qed.

Lemma chained_app (e : Q) (l1 l2 : list (Q * Audio.AudioBuffer)) :
  chained e l1 -> chained (chain_end e l1) l2 -> chained e (l1 ++ l2).
Proof.
  revert e. induction l1 as [|[s b] l1 IH]; intros e H1 H2; [exact H2|].
  cbn in *. destruct H1 as [H H1]. split; [exact H|]. apply IH; [exact H1|].
  exact H2.
Qed.

Lemma chain_end_app (e : Q) (l1 l2 : list (Q * Audio.AudioBuffer)) :
  chain_end e (l1 ++ l2) = chain_end (chain_end e l1) l2.
Proof. unfold chain_end. apply fold_left_app. Qed.

Section WithHost.
Variable host : Host.
Variable options : Options.

Lemma stopPlayback_effects (w : World) :
  let w' := stopPlayback options w in
  isPlayingRef w' = false /\ scheduledSourcesRef w' = []
  /\ lastScheduledEndTimeRef w' = 0 /\ streamEndedRef w' = false
  /\ playbackCheckIntervalRef w' = false /\ animationFrameRef w' = false
  /\ isPlaying (store w') = false
  /\ volumeLevel (store w') = 0 /\ volumeLevelRef (store w') = 0
  /\ pipelineStage (store w') = pipelineStage (store w)
  /\ audioContextRef w' = audioContextRef w
  /\ outputs w'
     = outputs w
         ++ map (fun s => source_stop (source_id s)) (scheduledSourcesRef w)
         ++ (if onPlaybackEnd options then [playback_ended] else []).
Proof.
  unfold stopPlayback. rewrite PlayerFacts.fold_emit_fields.
  destruct w as [st cl out ctx pl nx an fr srcs le itv se n]. destruct st.
  unfold stopVolumeMonitoring.
  destruct itv, fr, (onPlaybackEnd options); cbn;
    rewrite <- ?app_assoc, ?app_nil_r; auto 20.
Qed.

(** The loudness [updateVolume] computes. *)
Lemma volume_unit (x : Q) :
  (forall y, 0 <= Math_sqrt host y) ->
  within 0 1 (Math_min 1 (Math_sqrt host x * 2)).
Proof.
  intros Hsqrt. pose proof (Hsqrt x) as H. unfold Math_min, within.
  destruct (Qle_bool 1 (Math_sqrt host x * 2)) eqn:E; [lra|].
  assert (~ 1 <= Math_sqrt host x * 2)
    by (intro L; apply Qle_bool_iff in L; congruence).
  lra.
Qed.

Lemma updateVolume_cell (timeData : list Z) (w : World) :
  (forall y, 0 <= Math_sqrt host y) ->
  within 0 1 (volumeLevelRef (store w)) ->
  within 0 1 (volumeLevelRef (store (updateVolume host options timeData w))).
Proof.
  intros Hsqrt Hv. unfold updateVolume.
  destruct w as [st cl out ctx pl nx an fr srcs le itv se n]. destruct st.
  destruct pl; cbn [isPlayingRef negb].
  - destruct (onVolumeChange options); cbn; now apply volume_unit.
  - cbn in *. exact Hv.
Qed.

Lemma stopVolumeMonitoring_cell (w : World) :
  volumeLevelRef (store (stopVolumeMonitoring w)) = 0.
Proof.
  destruct w as [st cl out ctx pl nx an fr srcs le itv se n]. destruct st.
  unfold stopVolumeMonitoring. destruct fr; reflexivity.
Qed.

Lemma zero_unit : within 0 1 0.
Proof. split; discriminate. Qed.

Lemma addAudioChunk_cell (base64Data : string) (rate : Q) (env : Env) (w : World) :
  (forall y, 0 <= Math_sqrt host y) ->
  within 0 1 (volumeLevelRef (store w)) ->
  within 0 1 (volumeLevelRef (store (addAudioChunk host options base64Data rate env w))).
Proof.
  intros Hsqrt Hv. unfold addAudioChunk.
  pose proof (PlayerFacts.getAudioContext_fields w) as (_ & _ & Hst & _).
  rewrite <- Hst in Hv. revert Hv. generalize (getAudioContext w). clear Hst w.
  intros w Hv. destruct (decodeChunk host base64Data rate) as [buffer|].
  - assert (Hs : store (scheduleBuffer buffer (currentTime env) w) = store w).
    { destruct w as [st cl out ctx pl nx an fr srcs le itv se n].
      unfold scheduleBuffer. destruct ctx, an; reflexivity. }
    rewrite <- Hs in Hv. revert Hv.
    generalize (scheduleBuffer buffer (currentTime env) w). clear Hs w.
    intros w Hv. destruct (isPlayingRef w) eqn:Epl; cbn [negb]; [exact Hv|].
    assert (Hu : within 0 1
                   (volumeLevelRef
                      (store (startVolumeMonitoring host options (timeDomainData env)
                                (call (setIsPlaying true) (set_isPlayingRef true w)))))).
    { unfold startVolumeMonitoring.
      destruct (analyserRef _); cbn [negb];
        [apply updateVolume_cell; [exact Hsqrt|]|];
        destruct w as [st cl out ctx pl nx an fr srcs le itv se n]; destruct st;
        exact Hv. }
    revert Hu. generalize (startVolumeMonitoring host options (timeDomainData env)
                             (call (setIsPlaying true) (set_isPlayingRef true w))).
    intros [st cl out ctx pl nx an fr srcs le itv se n] Hu.
    destruct (onPlaybackStart options), itv; exact Hu.
  - destruct w; exact Hv.
Qed.

Lemma step_cell (w : World) (e : Event) :
  (forall y, 0 <= Math_sqrt host y) ->
  within 0 1 (volumeLevelRef (store w)) ->
  within 0 1 (volumeLevelRef (store (step host options w e))).
Proof.
  intros Hsqrt Hv.
  destruct e as [data env | now | timeData | source | | | | a]; cbn [step].
  - destruct data as [m|]; [|exact Hv].
    destruct m; cbn [handleMessage]; try exact Hv.
    + destruct w; exact Hv.
    + now rewrite (proj1 (proj2 (proj2 (PlayerFacts.getAudioContext_fields w)))).
    + now apply addAudioChunk_cell.
    + destruct w; exact Hv.
  - destruct (playbackCheckIntervalRef w); [|exact Hv].
    unfold checkPlaybackEnded.
    destruct (audioContextRef w); [|exact Hv].
    destruct (streamEndedRef w); cbn [negb]; [|exact Hv].
    destruct (isPlayingRef w && Qle_bool (lastScheduledEndTimeRef w) now)%bool;
      [|exact Hv].
    match goal with
    | |- context [stopVolumeMonitoring ?x] =>
        pose proof (stopVolumeMonitoring_cell x) as H0;
        revert H0; generalize (stopVolumeMonitoring x)
    end.
    intros [st cl out ctx pl nx an fr srcs le itv se n] H0.
    cbn in H0. destruct (onPlaybackEnd options), itv; cbn; rewrite H0;
      apply zero_unit.
  - destruct (animationFrameRef w); [|exact Hv]. now apply updateVolume_cell.
  - destruct w; exact Hv.
  - pose proof (stopPlayback_effects w) as (_ & _ & _ & _ & _ & _ & _ & _ & H0 & _).
    cbv zeta in H0. rewrite H0. apply zero_unit.
  - destruct w as [st cl out [[| |]|] pl nx an fr srcs le itv se n]; exact Hv.
  - unfold unmount.
    pose proof (stopPlayback_effects w) as (_ & _ & _ & _ & _ & _ & _ & _ & H0 & _).
    revert H0. generalize (stopPlayback options w).
    intros [st cl out ctx pl nx an fr srcs le itv se n] H0. cbn in H0.
    destruct itv, ctx; cbn; rewrite H0; apply zero_unit.
  - destruct w. cbn. now rewrite dispatch_volumeLevelRef.
Qed.

(** *** Timers run exactly while playing *)

Lemma addAudioChunk_tidy (base64Data : string) (rate : Q) (env : Env) (w : World) :
  consistent w -> tidy w ->
  tidy (addAudioChunk host options base64Data rate env w).
Proof.
  intros Hc Ht. unfold addAudioChunk.
  destruct (PlayerFacts.getAudioContext_consistent w Hc) as (Hlive & _).
  pose proof (PlayerFacts.getAudioContext_fields w)
    as (_ & Hpl & _ & _ & _ & Hitv & Hfr).
  unfold tidy in Ht. rewrite <- Hpl, <- Hitv, <- Hfr in Ht.
  revert Hlive Ht. generalize (getAudioContext w). clear.
  intros [st cl out ctx pl nx an fr srcs le itv se n] [Han Hctx] (H1 & H2 & _).
  cbn in *. subst an itv fr.
  destruct (decodeChunk host base64Data rate) as [buffer|].
  - unfold scheduleBuffer, startVolumeMonitoring, updateVolume, tidy, live.
    destruct Hctx as [-> | ->]; cbn; destruct pl; cbn;
      destruct (onVolumeChange options), (onPlaybackStart options); cbn; auto.
  - unfold tidy, live. cbn. destruct Hctx as [-> | ->]; auto.
Qed.

Lemma step_tidy (w : World) (e : Event) :
  consistent w -> tidy w -> tidy (step host options w e).
Proof.
  intros Hc Ht.
  destruct e as [data env | now | timeData | source | | | | a]; cbn [step].
  - destruct data as [m|]; [|exact Ht].
    destruct m; cbn [handleMessage]; try exact Ht.
    + destruct w; unfold tidy, live in *; cbn in *. exact Ht.
    + destruct (PlayerFacts.getAudioContext_consistent w Hc) as (Hlive & _).
      pose proof (PlayerFacts.getAudioContext_fields w)
        as (_ & Hpl & _ & _ & _ & Hitv & Hfr).
      unfold tidy in *. rewrite Hpl, Hitv, Hfr. tauto.
    + now apply addAudioChunk_tidy.
    + destruct w; unfold tidy, live in *; cbn in *. exact Ht.
  - destruct (playbackCheckIntervalRef w) eqn:Eitv; [|exact Ht].
    unfold checkPlaybackEnded.
    destruct (audioContextRef w) eqn:Ectx; [|exact Ht].
    destruct (streamEndedRef w); cbn [negb]; [|exact Ht].
    destruct (isPlayingRef w && Qle_bool (lastScheduledEndTimeRef w) now)%bool;
      [|exact Ht].
    destruct w as [st cl out ctx pl nx an fr srcs le itv se n].
    unfold stopVolumeMonitoring, tidy, live. cbn in *. subst.
    destruct fr, (onPlaybackEnd options); cbn; repeat split; auto; congruence.
  - destruct (animationFrameRef w) eqn:Efr; [|exact Ht].
    destruct w as [st cl out ctx pl nx an fr srcs le itv se n].
    unfold tidy, live, updateVolume in *. cbn in *.
    destruct Ht as (H1 & H2 & H3). subst. cbn.
    destruct (onVolumeChange options); cbn; auto.
  - destruct w; unfold tidy, live in *; cbn in *. exact Ht.
  - pose proof (stopPlayback_effects w) as (H1 & _ & _ & _ & H2 & H3 & _).
    unfold tidy. rewrite H1, H2, H3. repeat split; auto; congruence.
  - destruct w as [st cl out [[| |]|] pl nx an fr srcs le itv se n];
      unfold tidy, live in *; cbn in *; try exact Ht.
    destruct Ht as (H1 & H2 & H3). repeat split; auto.
    + now apply H3.
  - unfold unmount.
    pose proof (stopPlayback_effects w) as (H1 & _ & _ & _ & H2 & H3 & _).
    revert H1 H2 H3. generalize (stopPlayback options w).
    intros [st cl out ctx pl nx an fr srcs le itv se n]. cbn.
    intros -> -> ->. unfold tidy, live. destruct ctx; cbn; repeat split; auto;
      congruence.
  - destruct w; unfold tidy, live in *; cbn in *. exact Ht.
Qed.

Lemma run_tidy (events : list Event) :
  forall w, consistent w -> tidy w ->
            consistent (run host options events w) /\ tidy (run host options events w).
Proof.
  induction events as [|e events IH]; intros w Hc Ht; [auto|].
  cbn [run fold_left]. apply IH.
  - now apply PlayerFacts.step_consistent.
  - now apply step_tidy.
Qed.

Lemma init_tidy (st : ChatState) : tidy (init st).
Proof. unfold tidy, init; cbn. repeat split; auto. discriminate. Qed.

(** *** One stream is laid out as a chain *)

Lemma step_quiet_consistent (w : World) (e : Event) :
  consistent w -> quiet host e = true ->
  lastScheduledEndTimeRef (step host options w e) = lastScheduledEndTimeRef w
  /\ starts (step host options w e) = starts w.
Proof.
  intros Hc Hq.
  destruct e as [data env | now | timeData | source | | | | a];
    cbn [step]; cbn [quiet] in Hq; try discriminate.
  - destruct data as [m|]; [|auto].
    destruct m; cbn [handleMessage]; auto; try discriminate.
    + destruct (PlayerFacts.getAudioContext_consistent w Hc) as (_ & _ & H2 & _).
      pose proof (PlayerFacts.getAudioContext_fields w) as (_ & _ & _ & _ & H3 & _).
      unfold starts. rewrite H3. auto.
    + destruct (decodeChunk host audio_base64 audio_sample_rate) eqn:E;
        [discriminate|].
      rewrite (PlayerFacts.addAudioChunk_rejected host options _ _ env w E).
      destruct (PlayerFacts.getAudioContext_consistent w Hc) as (_ & _ & H2 & _).
      pose proof (PlayerFacts.getAudioContext_fields w) as (_ & _ & _ & _ & H3 & _).
      revert H2 H3. generalize (getAudioContext w).
      intros [st cl out ctx pl nx an fr srcs le itv se n] H2 H3.
      unfold starts in *. cbn in *. subst.
      rewrite flat_map_app. cbn. rewrite app_nil_r. auto.
    + destruct w; unfold starts; cbn. auto.
  - destruct (playbackCheckIntervalRef w); [|auto].
    pose proof (PlayerFacts.checkPlaybackEnded_fields options now w)
      as (_ & _ & H3 & _ & _ & H6). auto.
  - destruct (animationFrameRef w); [|auto].
    pose proof (PlayerFacts.updateVolume_fields host options timeData w)
      as (_ & _ & H3 & _ & _ & _ & _ & H8). auto.
  - destruct w; unfold starts; cbn. auto.
  - destruct w as [st cl out [[| |]|] pl nx an fr srcs le itv se n];
      unfold starts; cbn; auto.
  - destruct w; unfold starts; cbn. auto.
Qed.

Lemma step_same_stream (w : World) (e : Event) :
  consistent w -> same_stream e = true ->
  exists new,
    starts (step host options w e) = starts w ++ new
    /\ chained (lastScheduledEndTimeRef w) new
    /\ lastScheduledEndTimeRef (step host options w e)
       = chain_end (lastScheduledEndTimeRef w) new.
Proof.
  intros Hc Hs.
  destruct (quiet host e) eqn:Eq.
  - destruct (step_quiet_consistent w e Hc Eq) as [H1 H2].
    exists []. rewrite H1, H2, app_nil_r. cbn. auto.
  - destruct e as [data env | now | timeData | source | | | | a];
      cbn [quiet same_stream] in *; try discriminate.
    destruct data as [m|]; [|discriminate].
    destruct m; try discriminate.
    destruct (decodeChunk host audio_base64 audio_sample_rate) as [buffer|] eqn:E;
      [|discriminate].
    cbn [step handleMessage].
    destruct (PlayerFacts.addAudioChunk_accepted host options _ _ env buffer w E Hc)
      as (H1 & H2 & _).
    cbv zeta in *.
    exists [(Math_max (lastScheduledEndTimeRef w) (currentTime env), buffer)].
    rewrite H1, H2. cbn. repeat split; auto. apply Math_max_ge_l.
Qed.

Lemma run_same_stream (events : list Event) :
  forall w,
    consistent w -> forallb same_stream events = true ->
    exists new,
      starts (run host options events w) = starts w ++ new
      /\ chained (lastScheduledEndTimeRef w) new
      /\ lastScheduledEndTimeRef (run host options events w)
         = chain_end (lastScheduledEndTimeRef w) new.
Proof.
  induction events as [|e events IH]; intros w Hc Hs.
  - exists []. cbn. rewrite app_nil_r. auto.
  - cbn [forallb] in Hs. apply andb_true_iff in Hs as [Hs1 Hs2].
    destruct (step_same_stream w e Hc Hs1) as (new1 & H1 & H2 & H3).
    destruct (IH _ (PlayerFacts.step_consistent host options w e Hc) Hs2)
      as (new2 & H4 & H5 & H6).
    exists (new1 ++ new2). cbn [run fold_left].
    fold (run host options events (step host options w e)).
    rewrite H4, H1, H6, H3, <- app_assoc, chain_end_app.
    repeat split; auto. apply chained_app; [exact H2|]. now rewrite <- H3.
Qed.

End WithHost.

End PlayerMore.

Module SourcesMore.
Import Protocol Store Player PlayerSpec ExtraSpec.

Local Arguments Math_max : simpl never.
Local Arguments Math_min : simpl never.
Local Arguments Math_sqrt : simpl never.
Local Arguments Qle_bool : simpl never.
Local Arguments Audio.duration : simpl never.
Local Arguments for_range : simpl never.
Local Arguments dispatch : simpl never.
Local Arguments writeVolumeLevelRef : simpl never.

Lemma sources_ok_nil (w : World) : scheduledSourcesRef w = [] -> sources_ok w.
Proof. intros H. unfold sources_ok. rewrite H. split; constructor. Qed.

Lemma sources_ok_same (w w' : World) :
  sources_ok w ->
  sourcesCreated w' = sourcesCreated w ->
  scheduledSourcesRef w' = scheduledSourcesRef w \/ scheduledSourcesRef w' = [] ->
  sources_ok w'.
Proof.
  intros Hok Hn [Hs | Hs]; [|now apply sources_ok_nil].
  unfold sources_ok in *. now rewrite Hs, Hn.
Qed.

Lemma sources_ok_push (w w' : World) (s : Source) :
  sources_ok w ->
  source_id s = sourcesCreated w ->
  sourcesCreated w' = S (sourcesCreated w) ->
  scheduledSourcesRef w' = scheduledSourcesRef w ++ [s] ->
  sources_ok w'.
Proof.
  intros [Hnd Hlt] Hid Hn Hs. unfold sources_ok. rewrite Hs, Hn. split.
  - rewrite map_app. cbn [map]. apply NoDup_app; [exact Hnd | repeat constructor; auto |].
    intros x Hx [Hx' | []]. subst x. rewrite Hid in Hx.
    apply in_map_iff in Hx as (s' & Hs' & Hin).
    apply (proj1 (Forall_forall _ _) Hlt) in Hin. lia.
  - apply Forall_app. split.
    + eapply Forall_impl; [|exact Hlt]. cbn. intros; lia.
    + constructor; [lia | constructor].
Qed.

Lemma remove_source_filter (source : nat) (l : list Source) :
  NoDup (map source_id l) ->
  remove_source source l = filter (fun s => negb (source_id s =? source)%nat) l.
Proof.
  induction l as [|s l IH]; intros Hnd; [reflexivity|].
  cbn [map] in Hnd. inversion_clear Hnd as [|? ? Hnotin Hnd'].
  cbn [remove_source filter].
  destruct (Nat.eqb_spec (source_id s) source) as [E | E]; cbn [negb].
  - subst source. symmetry. apply Base64Facts.filter_all, Forall_forall.
    intros s' Hin. apply negb_true_iff, Nat.eqb_neq. intros E.
    apply Hnotin. rewrite <- E. now apply in_map.
  - now rewrite IH.
Qed.

Section WithHost.
Variable host : Host.
Variable options : Options.

Lemma getAudioContext_sources (w : World) :
  sourcesCreated (getAudioContext w) = sourcesCreated w
  /\ (scheduledSourcesRef (getAudioContext w) = scheduledSourcesRef w
      \/ scheduledSourcesRef (getAudioContext w) = []).
Proof.
  destruct w as [st cl out ctx pl nx an fr srcs le itv se n].
  unfold getAudioContext. destruct ctx as [[| |]|]; cbn; auto.
Qed.

Lemma addAudioChunk_sources (base64Data : string) (rate : Q) (env : Env) (w : World) :
  sources_ok w -> sources_ok (addAudioChunk host options base64Data rate env w).
Proof.
  intros Hok. unfold addAudioChunk.
  destruct (getAudioContext_sources w) as [Hn Hs].
  pose proof (sources_ok_same w _ Hok Hn Hs) as Hok0.
  revert Hok0. generalize (getAudioContext w). clear.
  intros w Hok. destruct (decodeChunk host base64Data rate) as [buffer|].
  - assert (Hsched : sources_ok (scheduleBuffer buffer (currentTime env) w)).
    { unfold scheduleBuffer.
      destruct (audioContextRef w) eqn:Ectx; [|exact Hok].
      destruct (analyserRef w) eqn:Ean; [|exact Hok].
      eapply (sources_ok_push w _
                {| source_id := sourcesCreated w;
                   source_startTime :=
                     Math_max (lastScheduledEndTimeRef w) (currentTime env);
                   source_buffer := buffer |} Hok eq_refl);
        destruct w; reflexivity. }
    revert Hsched. generalize (scheduleBuffer buffer (currentTime env) w). clear.
    intros w Hok. destruct (isPlayingRef w) eqn:Epl; cbn [negb]; [exact Hok|].
    eapply (sources_ok_same w _ Hok).
    + destruct w as [st cl out ctx pl nx an fr srcs le itv se n].
      unfold startVolumeMonitoring, updateVolume. cbn.
      destruct an; cbn;
        destruct (onVolumeChange options), (onPlaybackStart options), itv;
        reflexivity.
    + left. destruct w as [st cl out ctx pl nx an fr srcs le itv se n].
      unfold startVolumeMonitoring, updateVolume. cbn.
      destruct an; cbn;
        destruct (onVolumeChange options), (onPlaybackStart options), itv;
        reflexivity.
  - apply (sources_ok_same w _ Hok); [|left]; destruct w; reflexivity.
Qed.

Lemma remove_source_ok (source : nat) (w : World) :
  sources_ok w -> sources_ok (onended source w).
Proof.
  intros [Hnd Hlt]. unfold sources_ok, onended.
  destruct w as [st cl out ctx pl nx an fr srcs le itv se n]. cbn in *.
  rewrite (remove_source_filter source srcs Hnd). split.
  - clear Hlt. induction srcs as [|s srcs IH]; [constructor|].
    cbn [map] in Hnd. inversion_clear Hnd as [|? ? Hnotin Hnd'].
    cbn [filter]. destruct (negb (source_id s =? source)%nat).
    + cbn [map]. constructor; [|now apply IH].
      intros Hin. apply Hnotin. apply in_map_iff in Hin as (s' & E & Hin).
      apply filter_In in Hin as [Hin _]. rewrite <- E. now apply in_map.
    + now apply IH.
  - apply Forall_forall. intros s Hin. apply filter_In in Hin as [Hin _].
    now apply (proj1 (Forall_forall _ _) Hlt).
Qed.

Lemma step_sources (w : World) (e : Event) :
  sources_ok w -> sources_ok (step host options w e).
Proof.
  intros Hok.
  destruct e as [data env | now | timeData | source | | | | a]; cbn [step].
  - destruct data as [m|]; [|exact Hok].
    destruct m; cbn [handleMessage]; try exact Hok.
    + apply (sources_ok_same w _ Hok); [|left]; destruct w; reflexivity.
    + destruct (getAudioContext_sources w) as [Hn Hs].
      exact (sources_ok_same w _ Hok Hn Hs).
    + now apply addAudioChunk_sources.
    + apply (sources_ok_same w _ Hok); [|left]; destruct w; reflexivity.
  - destruct (playbackCheckIntervalRef w); [|exact Hok].
    pose proof (PlayerFacts.checkPlaybackEnded_fields options now w)
      as (_ & _ & _ & _ & Hs & _).
    apply (sources_ok_same w _ Hok); [|exact Hs].
    destruct w as [st cl out ctx pl nx an fr srcs le itv se n].
    unfold checkPlaybackEnded, stopVolumeMonitoring.
    destruct ctx; [|reflexivity]. destruct se; [|reflexivity].
    destruct pl; [|reflexivity]. cbn.
    destruct (Qle_bool le now); [|reflexivity].
    destruct fr, (onPlaybackEnd options), itv; reflexivity.
  - destruct (animationFrameRef w); [|exact Hok].
    pose proof (PlayerFacts.updateVolume_fields host options timeData w)
      as (_ & _ & _ & Hs & _).
    apply (sources_ok_same w _ Hok); [|now left].
    destruct w as [st cl out ctx pl nx an fr srcs le itv se n].
    unfold updateVolume. destruct pl; cbn; [|reflexivity].
    destruct (onVolumeChange options); reflexivity.
  - now apply remove_source_ok.
  - apply sources_ok_nil. apply (PlayerMore.stopPlayback_effects options w).
  - apply (sources_ok_same w _ Hok); [|left];
      destruct w as [st cl out [[| |]|] pl nx an fr srcs le itv se n]; reflexivity.
  - apply sources_ok_nil. apply (PlayerFacts.unmount_refs options w).
  - apply (sources_ok_same w _ Hok); [|left]; destruct w; reflexivity.
Qed.

Lemma run_sources (events : list Event) :
  forall w, sources_ok w -> sources_ok (run host options events w).
Proof.
  induction events as [|e events IH]; intros w H; [exact H|].
  cbn [run fold_left]. apply IH. now apply step_sources.
Qed.

End WithHost.

End SourcesMore.


(** X15. Within one stream (no new turn, stop or unmount in between) the
    segments put on the output clock form a chain: each one starts at or
    after the end of the one before it, the first at or after the previous
    [lastScheduledEnd], and [lastScheduledEnd] is the end of the last one.
    Scheduled audio of one stream never overlaps, however many chunks
    arrive and whatever else happens in between. *)
Theorem stream_segments_never_overlap
  (host : Host) (options : Player.Options) (st : ChatState)
  (history events : list Player.Event) :
  forallb ExtraSpec.same_stream events = true ->
  let w := Player.run host options history (Player.init st) in
  let w' := Player.run host options events w in
  exists new,
    PlayerSpec.starts w' = PlayerSpec.starts w ++ new
    /\ ExtraSpec.chained (Player.lastScheduledEndTimeRef w) new
    /\ Player.lastScheduledEndTimeRef w'
       = ExtraSpec.chain_end (Player.lastScheduledEndTimeRef w) new.
Proof.
  intros Hs. cbv zeta. apply PlayerMore.run_same_stream; [|exact Hs].
  apply PlayerFacts.run_consistent, PlayerFacts.init_consistent.
Qed.

Lemma stream_segments_never_overlap_witness :
  forallb ExtraSpec.same_stream
    [Examples.chunk Examples.silence 0; Player.interval_tick 0;
     Examples.chunk Examples.silence 0; Examples.chunk Examples.silence 5] = true
  /\ exists new,
      PlayerSpec.starts
        (Player.run example_host Examples.player_options
           [Examples.chunk Examples.silence 0; Player.interval_tick 0;
            Examples.chunk Examples.silence 0; Examples.chunk Examples.silence 5]
           (Player.init Examples.store0)) = new
      /\ ExtraSpec.chained 0 new.
Proof.
  split; [reflexivity|].
  destruct (stream_segments_never_overlap example_host Examples.player_options
              Examples.store0 []
              [Examples.chunk Examples.silence 0; Player.interval_tick 0;
               Examples.chunk Examples.silence 0; Examples.chunk Examples.silence 5]
              eq_refl) as (new & H1 & H2 & _).
  exists new. split; [exact H1 | exact H2].
Defined.

(** X16. In every state the scheduler reaches, the 100 ms drain interval
    and the animation-frame loop are registered exactly while it is
    playing, and it is playing only with a live audio context: no timer
    outlives playback. *)
Theorem timers_run_exactly_while_playing
  (host : Host) (options : Player.Options) (st : ChatState)
  (events : list Player.Event) :
  let w := Player.run host options events (Player.init st) in
  Player.playbackCheckIntervalRef w = Player.isPlayingRef w
  /\ Player.animationFrameRef w = Player.isPlayingRef w
  /\ (Player.isPlayingRef w = true -> PlayerSpec.live w).
Proof.
  cbv zeta.
  apply (PlayerMore.run_tidy host options events (Player.init st)
           (PlayerFacts.init_consistent st) (PlayerMore.init_tidy st)).
Qed.

(** X17. The drain check is complete: in a reachable state that is
    playing, once [audio_end] has been received and the clock has reached
    [lastScheduledEnd], the next interval tick reaches Idle: isPlaying is
    cleared, the stage is idle, the loudness is zero, both timers are
    cancelled and no source stays tracked. *)
Theorem tick_drains_when_due
  (host : Host) (options : Player.Options) (st : ChatState)
  (events : list Player.Event) (now : Q) :
  let w := Player.run host options events (Player.init st) in
  let w' := Player.step host options w (Player.interval_tick now) in
  Player.isPlayingRef w = true ->
  Player.streamEndedRef w = true ->
  Player.lastScheduledEndTimeRef w <= now ->
  Player.isPlayingRef w' = false
  /\ isPlaying (Player.store w') = false
  /\ pipelineStage (Player.store w') = idle
  /\ volumeLevel (Player.store w') = 0
  /\ volumeLevelRef (Player.store w') = 0
  /\ Player.playbackCheckIntervalRef w' = false
  /\ Player.animationFrameRef w' = false
  /\ Player.scheduledSourcesRef w' = [].
Proof.
  cbv zeta. intros Hpl Hse Hle.
  destruct (PlayerMore.run_tidy host options events (Player.init st)
              (PlayerFacts.init_consistent st) (PlayerMore.init_tidy st))
    as [_ (Hitv & Hfr & Hlive)].
  destruct (Hlive Hpl) as [_ Hctx]. rewrite Hpl in Hitv, Hfr.
  revert Hpl Hse Hle Hitv Hfr Hctx.
  generalize (Player.run host options events (Player.init st)).
  intros [s cl out ctx pl nx an fr srcs le itv se n]. cbn.
  intros -> -> Hle -> -> Hctx. apply Qle_bool_iff in Hle.
  unfold Player.checkPlaybackEnded, Player.stopVolumeMonitoring. cbn.
  destruct s. destruct Hctx as [-> | ->]; cbn; rewrite Hle; cbn;
    destruct (Player.onPlaybackEnd options); cbn; auto 10.
Qed.

Lemma tick_drains_when_due_witness :
  let w := Player.run example_host Examples.player_options
             [Examples.chunk Examples.silence 0;
              Player.message (Some audio_end) (Examples.at_time 0)]
             (Player.init Examples.store0) in
  Player.isPlayingRef w = true /\ Player.streamEndedRef w = true
  /\ Player.lastScheduledEndTimeRef w <= 1
  /\ Player.isPlayingRef
       (Player.step example_host Examples.player_options w (Player.interval_tick 1))
     = false.
Proof.
  cbv zeta.
  assert (H1 : Player.isPlayingRef
                 (Player.run example_host Examples.player_options
                    [Examples.chunk Examples.silence 0;
                     Player.message (Some audio_end) (Examples.at_time 0)]
                    (Player.init Examples.store0)) = true) by reflexivity.
  assert (H2 : Player.streamEndedRef
                 (Player.run example_host Examples.player_options
                    [Examples.chunk Examples.silence 0;
                     Player.message (Some audio_end) (Examples.at_time 0)]
                    (Player.init Examples.store0)) = true) by reflexivity.
  assert (H3 : Player.lastScheduledEndTimeRef
                 (Player.run example_host Examples.player_options
                    [Examples.chunk Examples.silence 0;
                     Player.message (Some audio_end) (Examples.at_time 0)]
                    (Player.init Examples.store0)) <= 1)
    by (vm_compute; discriminate).
  split; [exact H1|]. split; [exact H2|]. split; [exact H3|].
  exact (proj1 (tick_drains_when_due example_host Examples.player_options
                  Examples.store0
                  [Examples.chunk Examples.silence 0;
                   Player.message (Some audio_end) (Examples.at_time 0)] 1 H1 H2 H3)).
Defined.

(** X18. With a host square root that is never negative, the shared
    loudness cell [volumeLevelRef] holds a value in [0, 1] in every state
    the scheduler reaches, whatever the analyser delivers and whatever
    other components do to the store. *)
Theorem loudness_cell_in_unit_interval
  (host : Host) (options : Player.Options) (st : ChatState)
  (events : list Player.Event) :
  (forall x, 0 <= Math_sqrt host x) ->
  ExtraSpec.within 0 1 (volumeLevelRef st) ->
  ExtraSpec.within 0 1
    (volumeLevelRef (Player.store (Player.run host options events (Player.init st)))).
Proof.
  intros Hsqrt H0.
  assert (H : forall w, ExtraSpec.within 0 1 (volumeLevelRef (Player.store w)) ->
                        ExtraSpec.within 0 1
                          (volumeLevelRef (Player.store (Player.run host options events w)))).
  { induction events as [|e events IH]; intros w Hv; [exact Hv|].
    cbn [Player.run fold_left]. apply IH. now apply PlayerMore.step_cell. }
  apply H. exact H0.
Qed.

Lemma loudness_cell_in_unit_interval_witness :
  (forall x, 0 <= Math_sqrt example_host x)
  /\ ExtraSpec.within 0 1 (volumeLevelRef Examples.store0)
  /\ ExtraSpec.within 0 1
       (volumeLevelRef
          (Player.store
             (Player.run example_host Examples.player_options
                [Examples.chunk Examples.silence 0;
                 Player.animation_frame [255; 0; 255; 0]%Z]
                (Player.init Examples.store0)))).
Proof.
  assert (H : forall x, 0 <= Math_sqrt example_host x).
  { intros x. unfold Qle. cbn [Math_sqrt example_host Qnum Qden].
    rewrite Z.mul_1_r. apply Z.sqrt_nonneg. }
  assert (H0 : ExtraSpec.within 0 1 (volumeLevelRef Examples.store0))
    by (split; discriminate).
  split; [exact H|]. split; [exact H0|].
  exact (loudness_cell_in_unit_interval example_host Examples.player_options
           Examples.store0
           [Examples.chunk Examples.silence 0;
            Player.animation_frame [255; 0; 255; 0]%Z] H H0).
Defined.

(** X19. The sources the scheduler tracks are always distinct nodes, so a
    source's [onended] removes that source from the tracked list and no
    other. *)
Theorem onended_removes_only_that_source
  (host : Host) (options : Player.Options) (st : ChatState)
  (events : list Player.Event) (source : nat) :
  let w := Player.run host options events (Player.init st) in
  NoDup (map Player.source_id (Player.scheduledSourcesRef w))
  /\ Player.scheduledSourcesRef (Player.onended source w)
     = filter (fun s => negb (Player.source_id s =? source)%nat)
              (Player.scheduledSourcesRef w).
Proof.
  cbv zeta.
  assert (Hok : ExtraSpec.sources_ok
                  (Player.run host options events (Player.init st))).
  { apply SourcesMore.run_sources. now apply SourcesMore.sources_ok_nil. }
  destruct Hok as [Hnd _]. split; [exact Hnd|].
  rewrite <- (SourcesMore.remove_source_filter source _ Hnd).
  now destruct (Player.run host options events (Player.init st)).
Qed.

(** X20. A new turn resets the clock baseline: the first chunk accepted
    after [llm_start] is started at the current clock time, not after the
    audio still scheduled from the turn before. *)
Theorem first_chunk_after_llm_start_starts_now
  (host : Host) (options : Player.Options) (st : ChatState)
  (history : list Player.Event) (base64Data : string) (rate : Q)
  (env0 env : Player.Env) (buffer : Audio.AudioBuffer) :
  Player.decodeChunk host base64Data rate = Some buffer ->
  0 <= Player.currentTime env ->
  let w := Player.run host options history (Player.init st) in
  let w1 := Player.step host options w (Player.message (Some llm_start) env0) in
  let w2 := Player.addAudioChunk host options base64Data rate env w1 in
  exists startTime,
    PlayerSpec.starts w2 = PlayerSpec.starts w ++ [(startTime, buffer)]
    /\ startTime == Player.currentTime env
    /\ Player.lastScheduledEndTimeRef w2 = startTime + Audio.duration buffer.
Proof.
  intros E Hnow. cbv zeta.
  set (w := Player.run host options history (Player.init st)).
  assert (Hc : PlayerSpec.consistent w).
  { apply PlayerFacts.run_consistent, PlayerFacts.init_consistent. }
  pose proof (PlayerFacts.step_consistent host options w
                (Player.message (Some llm_start) env0) Hc) as Hc1.
  destruct (PlayerFacts.addAudioChunk_accepted host options _ _ env buffer _ E Hc1)
    as (H1 & H2 & _).
  cbv zeta in *.
  assert (Hle : Player.lastScheduledEndTimeRef
                  (Player.step host options w (Player.message (Some llm_start) env0)) = 0
                /\ PlayerSpec.starts
                     (Player.step host options w (Player.message (Some llm_start) env0))
                   = PlayerSpec.starts w).
  { destruct w. cbn. auto. }
  destruct Hle as [Hle Hst]. rewrite Hle in H1, H2. rewrite Hst in H1.
  exists (Math_max 0 (Player.currentTime env)). repeat split; auto.
  unfold Math_max. destruct (Qle_bool (Player.currentTime env) 0) eqn:El;
    [|reflexivity].
  apply Qle_bool_iff in El. lra.
Qed.

Lemma first_chunk_after_llm_start_starts_now_witness :
  Player.decodeChunk example_host Examples.silence 16000 = Some Examples.one_sample
  /\ 0 <= Player.currentTime (Examples.at_time 0)
  /\ exists startTime,
      PlayerSpec.starts
        (Player.run example_host Examples.player_options
           [Examples.chunk Examples.silence 7;
            Player.message (Some llm_start) (Examples.at_time 0);
            Examples.chunk Examples.silence 0]
           (Player.init Examples.store0))
      = PlayerSpec.starts
          (Player.run example_host Examples.player_options
             [Examples.chunk Examples.silence 7] (Player.init Examples.store0))
          ++ [(startTime, Examples.one_sample)]
      /\ startTime == 0.
Proof.
  assert (H1 : Player.decodeChunk example_host Examples.silence 16000
               = Some Examples.one_sample) by reflexivity.
  assert (H2 : 0 <= Player.currentTime (Examples.at_time 0)) by discriminate.
  split; [exact H1|]. split; [exact H2|].
  destruct (first_chunk_after_llm_start_starts_now example_host Examples.player_options
              Examples.store0 [Examples.chunk Examples.silence 7]
              Examples.silence 16000 (Examples.at_time 0) (Examples.at_time 0)
              Examples.one_sample H1 H2) as (startTime & Hs & Heq & _).
  exists startTime. split; [exact Hs | exact Heq].
Defined.

(** ** The session protocol and the store *)

Module SessionMore.
Import Protocol Store WebSocketHook SessionOps ExtraSpec.

Lemma nth_error_aset_eq {A : Type} (l : list A) (h : nat) (v x : A) :
  nth_error l h = Some x -> nth_error (aset h v l) h = Some v.
Proof.
  revert h. induction l as [|a l IH]; intros [|h] H; cbn in *;
    try discriminate; auto.
Qed.

Lemma nth_error_aset_neq {A : Type} (l : list A) (h h' : nat) (v : A) :
  h <> h' -> nth_error (aset h v l) h' = nth_error l h'.
Proof.
  revert h h'. induction l as [|a l IH]; intros [|h] [|h'] H; cbn; auto;
    try contradiction.
Qed.

Lemma isOpen_socket (h : nat) (w : World) :
  isOpen (Some h) w = true ->
  exists s, nth_error (sockets w) h = Some s /\ readyState s = OPEN.
Proof.
  unfold isOpen, socketState. destruct (nth_error (sockets w) h) as [s|]; cbn.
  - destruct (readyState s) eqn:E; try discriminate. intros _. now exists s.
  - discriminate.
Qed.

Lemma send_effects (h : nat) (m : ClientMessage) (s : Socket) (w : World) :
  nth_error (sockets w) h = Some s ->
  let w' := send h m w in
  nth_error (sockets w') h = Some (posted m s)
  /\ (forall h', h' <> h -> nth_error (sockets w') h' = nth_error (sockets w) h')
  /\ store w' = store w /\ calls w' = calls w /\ console w' = console w
  /\ timers w' = timers w /\ timersCreated w' = timersCreated w
  /\ pingIntervalRef w' = pingIntervalRef w
  /\ reconnectTimeoutRef w' = reconnectTimeoutRef w.
Proof.
  intros H. unfold send, update_socket. rewrite H.
  destruct w as [st cl con socks pg rc tm n]. cbn in *.
  repeat split; auto.
  - now apply (nth_error_aset_eq socks h _ s).
  - intros h' Hne. apply nth_error_aset_neq. auto.
Qed.

Lemma sendMessage_closed (m : ClientMessage) (w : World) :
  isOpen (ws (store w)) w = false ->
  sendMessage m w = console_error "WebSocket is not connected" w.
Proof.
  intros H. unfold sendMessage. destruct (ws (store w)); [|reflexivity].
  now rewrite H.
Qed.

Lemma sendMessage_open (m : ClientMessage) (h : nat) (w : World) :
  ws (store w) = Some h -> isOpen (Some h) w = true ->
  sendMessage m w = send h m w.
Proof. intros E H. unfold sendMessage. now rewrite E, H. Qed.

End SessionMore.

Module SessionMore2.
Import Protocol Store WebSocketHook SessionOps ExtraSpec SessionMore.

Lemma nth_error_last {A : Type} (l : list A) (x : A) :
  nth_error (l ++ [x]) (List.length l) = Some x.
Proof. rewrite nth_error_app2, Nat.sub_diag by lia. reflexivity. Qed.

Lemma aset_last {A : Type} (l : list A) (x v : A) :
  aset (List.length l) v (l ++ [x]) = l ++ [v].
Proof. apply aset_app. Qed.

Lemma update_socket_last (socks : list Socket) (s : Socket) (f : Socket -> Socket)
  (w : World) :
  sockets w = socks ++ [s] ->
  update_socket (List.length socks) f w = set_sockets (socks ++ [f s]) w.
Proof.
  intros H. unfold update_socket. rewrite H, nth_error_last, aset_last. reflexivity.
Qed.

Lemma connect_new_socket (characterName : string) (w : World) :
  isOpen (ws (store w)) w = false ->
  apiToken (store w) <> EmptyString ->
  connect characterName w
  = call (setWs (Some (List.length (sockets w))))
      (set_sockets
         (sockets w ++ [{| readyState := CONNECTING;
                           socket_token := apiToken (store w);
                           socket_character := characterName; sent := [] |}])
         (call (setErrorMessage None) (call (setConnectionStatus status_connecting) w))).
Proof.
  intros Hopen Htok. unfold connect. rewrite Hopen.
  apply String.eqb_neq in Htok. rewrite Htok.
  destruct w as [st cl con socks pg rc tm n]. destruct st. reflexivity.
Qed.

Lemma clearTimer_gone (timer : nat) (w : World) :
  ~ In timer (map fst (timers (clearTimer timer w))).
Proof.
  destruct w as [st cl con socks pg rc tm n]. cbn. intros H.
  apply in_map_iff in H as ([id t] & E & Hin). cbn in E. subst id.
  apply filter_In in Hin as [_ Hf]. cbn in Hf.
  now rewrite Nat.eqb_refl in Hf.
Qed.

Lemma clearTimer_incl (timer : nat) (w : World) :
  incl (timers (clearTimer timer w)) (timers w).
Proof.
  destruct w as [st cl con socks pg rc tm n]. cbn. intros t Ht.
  now apply filter_In in Ht.
Qed.

Lemma disconnect_fields (w : World) :
  let w' := disconnect w in
  pingIntervalRef w' = None /\ reconnectTimeoutRef w' = None
  /\ ws (store w') = None
  /\ connectionStatus (store w') = status_disconnected
  /\ timersCreated w' = timersCreated w
  /\ timers w' = without (pingIntervalRef w) (without (reconnectTimeoutRef w) (timers w)).
Proof.
  destruct w as [st cl con socks pg rc tm n].
  destruct st as [cs em tok wsh cc chs ms pt ps th vm rec pl vl vr].
  unfold disconnect, update_socket.
  destruct rc, pg, wsh; cbn; try (destruct (nth_error socks _); cbn);
    repeat split; reflexivity.
Qed.

Lemma disconnect_again (w : World) :
  pingIntervalRef w = None -> reconnectTimeoutRef w = None ->
  ws (store w) = None -> connectionStatus (store w) = status_disconnected ->
  let w' := disconnect w in
  store w' = store w /\ sockets w' = sockets w /\ timers w' = timers w
  /\ pingIntervalRef w' = None /\ reconnectTimeoutRef w' = None.
Proof.
  destruct w as [st cl con socks pg rc tm n]. destruct st. cbn.
  intros -> -> -> ->. cbn. auto.
Qed.

Lemma without_incl (ref : option nat) (table : list (nat * Timer)) :
  incl (without ref table) table.
Proof.
  destruct ref; cbn; [|apply incl_refl]. intros t Ht. now apply filter_In in Ht.
Qed.

Lemma without_gone (timer : nat) (table : list (nat * Timer)) :
  ~ In timer (map fst (without (Some timer) table)).
Proof.
  cbn. intros H. apply in_map_iff in H as ([id t] & E & Hin). cbn in E. subst id.
  apply filter_In in Hin as [_ Hf]. cbn in Hf. now rewrite Nat.eqb_refl in Hf.
Qed.

End SessionMore2.

(** X21. With a non-empty token and no OPEN socket, [connect] creates
    exactly one socket, in state CONNECTING, whose handlers hold the token
    and the character of this call; the store points to it, the status is
    Connecting and the error message is cleared.  No timer is touched. *)
Theorem connect_opens_one_socket (characterName : string) (w : WebSocketHook.World) :
  WebSocketHook.isOpen (ws (WebSocketHook.store w)) w = false ->
  apiToken (WebSocketHook.store w) <> EmptyString ->
  let w' := WebSocketHook.connect characterName w in
  WebSocketHook.sockets w'
  = WebSocketHook.sockets w
      ++ [{| WebSocketHook.readyState := WebSocketHook.CONNECTING;
             WebSocketHook.socket_token := apiToken (WebSocketHook.store w);
             WebSocketHook.socket_character := characterName;
             WebSocketHook.sent := [] |}]
  /\ ws (WebSocketHook.store w') = Some (List.length (WebSocketHook.sockets w))
  /\ connectionStatus (WebSocketHook.store w') = status_connecting
  /\ errorMessage (WebSocketHook.store w') = None
  /\ apiToken (WebSocketHook.store w') = apiToken (WebSocketHook.store w)
  /\ WebSocketHook.timers w' = WebSocketHook.timers w
  /\ WebSocketHook.pingIntervalRef w' = WebSocketHook.pingIntervalRef w
  /\ WebSocketHook.reconnectTimeoutRef w' = WebSocketHook.reconnectTimeoutRef w.
Proof.
  intros Hopen Htok. cbv zeta.
  rewrite (SessionMore2.connect_new_socket characterName w Hopen Htok).
  destruct w as [s cl con socks pg rc tm n]. destruct s. cbn. auto 10.
Qed.

Lemma connect_opens_one_socket_witness :
  WebSocketHook.isOpen (ws (WebSocketHook.store (WebSocketHook.init Examples.store0)))
    (WebSocketHook.init Examples.store0) = false
  /\ apiToken (WebSocketHook.store (WebSocketHook.init Examples.store0)) <> EmptyString
  /\ connectionStatus
       (WebSocketHook.store
          (WebSocketHook.connect "anon" (WebSocketHook.init Examples.store0)))
     = status_connecting.
Proof.
  assert (H1 : WebSocketHook.isOpen
                 (ws (WebSocketHook.store (WebSocketHook.init Examples.store0)))
                 (WebSocketHook.init Examples.store0) = false) by reflexivity.
  assert (H2 : apiToken (WebSocketHook.store (WebSocketHook.init Examples.store0))
               <> EmptyString) by discriminate.
  split; [exact H1|]. split; [exact H2|].
  exact (proj1 (proj2 (proj2 (connect_opens_one_socket "anon"
                                (WebSocketHook.init Examples.store0) H1 H2)))).
Defined.

(** X22. The handshake: when the socket created by [connect] opens, the
    first and only message sent on it is the connect message with the
    token and the character captured by that [connect] call, the other
    sockets are untouched, and one heartbeat interval is registered and
    recorded in [pingIntervalRef]. *)
Theorem handshake_sends_captured_credentials
  (characterName : string) (w : WebSocketHook.World) :
  WebSocketHook.isOpen (ws (WebSocketHook.store w)) w = false ->
  apiToken (WebSocketHook.store w) <> EmptyString ->
  let h := List.length (WebSocketHook.sockets w) in
  let w1 := WebSocketHook.connect characterName w in
  let w2 := WebSocketHook.step w1 (WebSocketHook.socket_opened h) in
  WebSocketHook.sockets w2
  = WebSocketHook.sockets w
      ++ [{| WebSocketHook.readyState := WebSocketHook.OPEN;
             WebSocketHook.socket_token := apiToken (WebSocketHook.store w);
             WebSocketHook.socket_character := characterName;
             WebSocketHook.sent :=
               [connect_msg (apiToken (WebSocketHook.store w)) characterName] |}]
  /\ WebSocketHook.timers w2
     = WebSocketHook.timers w
         ++ [(S (WebSocketHook.timersCreated w),
              WebSocketHook.ping_interval WebSocketHook.PING_INTERVAL)]
  /\ WebSocketHook.pingIntervalRef w2 = Some (S (WebSocketHook.timersCreated w))
  /\ WebSocketHook.store w2 = WebSocketHook.store w1.
Proof.
  intros Hopen Htok. cbv zeta.
  rewrite (SessionMore2.connect_new_socket characterName w Hopen Htok).
  destruct w as [s cl con socks pg rc tm n]. destruct s. cbn.
  unfold WebSocketHook.socketState, WebSocketHook.update_socket.
  cbn. rewrite !SessionMore2.nth_error_last. cbn.
  rewrite SessionMore2.aset_last. cbn.
  unfold WebSocketHook.onopen, WebSocketHook.send, WebSocketHook.update_socket.
  cbn. rewrite !SessionMore2.nth_error_last. cbn.
  rewrite SessionMore2.aset_last. cbn. auto.
Qed.

Lemma handshake_sends_captured_credentials_witness :
  WebSocketHook.isOpen (ws (WebSocketHook.store (WebSocketHook.init Examples.store0)))
    (WebSocketHook.init Examples.store0) = false
  /\ apiToken (WebSocketHook.store (WebSocketHook.init Examples.store0)) <> EmptyString
  /\ WebSocketHook.pingIntervalRef
       (WebSocketHook.step
          (WebSocketHook.connect "anon" (WebSocketHook.init Examples.store0))
          (WebSocketHook.socket_opened
             (List.length (WebSocketHook.sockets (WebSocketHook.init Examples.store0)))))
     = Some (S (WebSocketHook.timersCreated (WebSocketHook.init Examples.store0))).
Proof.
  assert (H1 : WebSocketHook.isOpen
                 (ws (WebSocketHook.store (WebSocketHook.init Examples.store0)))
                 (WebSocketHook.init Examples.store0) = false) by reflexivity.
  assert (H2 : apiToken (WebSocketHook.store (WebSocketHook.init Examples.store0))
               <> EmptyString) by discriminate.
  split; [exact H1|]. split; [exact H2|].
  exact (proj1 (proj2 (proj2 (handshake_sends_captured_credentials "anon"
                                (WebSocketHook.init Examples.store0) H1 H2)))).
Defined.

(** X23. [disconnect] cancels what the hook holds: the timers named by
    [pingIntervalRef] and [reconnectTimeoutRef] are removed from the host
    and both refs cleared, no timer is created, the store's socket handle
    is dropped and the status is Disconnected; calling it again changes
    nothing in the store, the sockets, the timers or the refs. *)
Theorem disconnect_cancels_timers (w : WebSocketHook.World) :
  let w' := WebSocketHook.disconnect w in
  WebSocketHook.pingIntervalRef w' = None
  /\ WebSocketHook.reconnectTimeoutRef w' = None
  /\ ws (WebSocketHook.store w') = None
  /\ connectionStatus (WebSocketHook.store w') = status_disconnected
  /\ incl (WebSocketHook.timers w') (WebSocketHook.timers w)
  /\ WebSocketHook.timersCreated w' = WebSocketHook.timersCreated w
  /\ (forall timer,
         WebSocketHook.pingIntervalRef w = Some timer
         \/ WebSocketHook.reconnectTimeoutRef w = Some timer ->
         ~ In timer (map fst (WebSocketHook.timers w')))
  /\ (let w'' := WebSocketHook.disconnect w' in
      WebSocketHook.store w'' = WebSocketHook.store w'
      /\ WebSocketHook.sockets w'' = WebSocketHook.sockets w'
      /\ WebSocketHook.timers w'' = WebSocketHook.timers w'
      /\ WebSocketHook.pingIntervalRef w'' = None
      /\ WebSocketHook.reconnectTimeoutRef w'' = None).
Proof.
  cbv zeta.
  destruct (SessionMore2.disconnect_fields w) as (H1 & H2 & H3 & H4 & H5 & H6).
  cbv zeta in *.
  repeat (split; [assumption|]).
  split; [|split; [exact H5|split]].
  - rewrite H6. eapply incl_tran; apply SessionMore2.without_incl.
  - rewrite H6. intros timer [E | E] Hin; rewrite E in Hin.
    + now apply SessionMore2.without_gone in Hin.
    + apply in_map_iff in Hin as (p & Ep & Hin).
      apply SessionMore2.without_incl in Hin.
      apply (SessionMore2.without_gone timer (WebSocketHook.timers w)).
      apply in_map_iff. now exists p.
  - exact (SessionMore2.disconnect_again _ H1 H2 H3 H4).
Qed.

Module SessionMore3.
Import Protocol Store WebSocketHook SessionOps ExtraSpec SessionMore.

Lemma isOpen_of_socket (h : nat) (s : Socket) (w : World) :
  nth_error (sockets w) h = Some s -> readyState s = OPEN ->
  isOpen (Some h) w = true.
Proof.
  intros Hs Hr. unfold isOpen, socketState. rewrite Hs. cbn. now rewrite Hr.
Qed.

Lemma console_error_fields (text : string) (w : World) :
  let w' := console_error text w in
  store w' = store w /\ sockets w' = sockets w /\ timers w' = timers w
  /\ console w' = console w ++ [text].
Proof. destruct w. cbn. auto. Qed.

Lemma sendMessage_effects (m : ClientMessage) (w : World) :
  let w' := sendMessage m w in
  store w' = store w
  /\ timers w' = timers w
  /\ (isOpen (ws (store w)) w = false ->
      sockets w' = sockets w
      /\ console w' = console w ++ ["WebSocket is not connected"%string])
  /\ (forall h s,
         ws (store w) = Some h ->
         nth_error (sockets w) h = Some s ->
         readyState s = OPEN ->
         nth_error (sockets w') h = Some (posted m s)
         /\ (forall h', h' <> h ->
                        nth_error (sockets w') h' = nth_error (sockets w) h')
         /\ console w' = console w).
Proof.
  cbv zeta.
  destruct (isOpen (ws (store w)) w) eqn:Hopen.
  - destruct (ws (store w)) as [h|] eqn:Ews; [|discriminate].
    destruct (isOpen_socket h w Hopen) as (s & Hs & _).
    rewrite (sendMessage_open m h w Ews Hopen).
    destruct (send_effects h m s w Hs) as (H1 & H2 & H3 & _ & H5 & H6 & _).
    cbv zeta in *. split; [exact H3|]. split; [exact H6|].
    split; [discriminate|].
    intros h0 s0 E Hs0 _. injection E as <-. rewrite Hs in Hs0.
    injection Hs0 as <-. auto.
  - rewrite (sendMessage_closed m w Hopen).
    destruct (console_error_fields "WebSocket is not connected" w)
      as (H1 & H2 & H3 & H4). cbv zeta in *.
    split; [exact H1|]. split; [exact H3|]. split; [auto|].
    intros h s E Hs Hr. exfalso. rewrite E in Hopen.
    rewrite (isOpen_of_socket h s w Hs Hr) in Hopen. discriminate.
Qed.

End SessionMore3.

(** X24. [sendMessage] is gated on the store's socket being OPEN: when it
    is, exactly that message is appended to that socket's outbox and no
    other socket changes; when it is not, no outbox changes and one error
    line is written to the console.  The store and the timers are never
    touched. *)
Theorem sendMessage_posts_or_logs (m : ClientMessage) (w : WebSocketHook.World) :
  let w' := WebSocketHook.sendMessage m w in
  WebSocketHook.store w' = WebSocketHook.store w
  /\ WebSocketHook.timers w' = WebSocketHook.timers w
  /\ (WebSocketHook.isOpen (ws (WebSocketHook.store w)) w = false ->
      WebSocketHook.sockets w' = WebSocketHook.sockets w
      /\ WebSocketHook.console w'
         = WebSocketHook.console w ++ ["WebSocket is not connected"%string])
  /\ (forall h s,
         ws (WebSocketHook.store w) = Some h ->
         nth_error (WebSocketHook.sockets w) h = Some s ->
         WebSocketHook.readyState s = WebSocketHook.OPEN ->
         nth_error (WebSocketHook.sockets w') h = Some (ExtraSpec.posted m s)
         /\ (forall h', h' <> h ->
                        nth_error (WebSocketHook.sockets w') h'
                        = nth_error (WebSocketHook.sockets w) h')
         /\ WebSocketHook.console w' = WebSocketHook.console w).
Proof. exact (SessionMore3.sendMessage_effects m w). Qed.

(** X25. The dispatcher keeps the message log append-only: a server
    message either leaves the log as it is or appends one message, except
    [character_switched] and [history_cleared], which empty it; a payload
    that does not parse changes nothing but the console.  The dispatcher
    never sends, and never creates or clears a timer. *)
Theorem handleMessage_log_discipline
  (data : option ServerMessage) (uuid : string) (now : Z) (w : WebSocketHook.World) :
  let w' := WebSocketHook.handleMessage data uuid now w in
  WebSocketHook.sockets w' = WebSocketHook.sockets w
  /\ WebSocketHook.timers w' = WebSocketHook.timers w
  /\ WebSocketHook.pingIntervalRef w' = WebSocketHook.pingIntervalRef w
  /\ WebSocketHook.reconnectTimeoutRef w' = WebSocketHook.reconnectTimeoutRef w
  /\ match data with
     | None =>
         WebSocketHook.store w' = WebSocketHook.store w
         /\ WebSocketHook.console w'
            = WebSocketHook.console w ++ ["Failed to parse message:"%string]
     | Some m =>
         WebSocketHook.console w' = WebSocketHook.console w
         /\ if ExtraSpec.clears_log m
            then messages (WebSocketHook.store w') = []
            else messages (WebSocketHook.store w') = messages (WebSocketHook.store w)
                 \/ exists msg,
                     messages (WebSocketHook.store w')
                     = messages (WebSocketHook.store w) ++ [msg]
                     /\ id msg = uuid /\ timestamp msg = now
     end.
Proof.
  cbv zeta. destruct w as [s cl con socks pg rc tm n]. destruct s.
  destruct data as [m|]; [|cbn; auto 10].
  destruct m; try (destruct is_partial); cbn;
    repeat (split; [reflexivity|]);
    try reflexivity; try (left; reflexivity);
    right; eexists; repeat split; reflexivity.
Qed.

(** X26. What the dispatcher leaves alone: no server message changes the
    token, the socket handle, the recording flag or the loudness values,
    none clears [isPlaying] (only the player does, when playback has
    drained), and the connection status changes only on [connected] and
    [disconnected]. *)
Theorem handleMessage_leaves_alone
  (data : option ServerMessage) (uuid : string) (now : Z) (w : WebSocketHook.World) :
  let s := WebSocketHook.store w in
  let s' := WebSocketHook.store (WebSocketHook.handleMessage data uuid now w) in
  apiToken s' = apiToken s /\ ws s' = ws s /\ isRecording s' = isRecording s
  /\ volumeLevel s' = volumeLevel s /\ volumeLevelRef s' = volumeLevelRef s
  /\ (isPlaying s = true -> isPlaying s' = true)
  /\ (connectionStatus s' = connectionStatus s
      \/ (exists c d msg, data = Some (connected c d msg)
                          /\ connectionStatus s' = status_connected)
      \/ (exists r msg, data = Some (disconnected r msg)
                        /\ connectionStatus s' = status_disconnected)).
Proof.
  cbv zeta. destruct w as [s cl con socks pg rc tm n]. destruct s.
  destruct data as [m|]; [|cbn; auto 10].
  destruct m; try (destruct is_partial); cbn;
    repeat (split; [auto; fail|]); auto.
  - right. left. eauto.
  - right. right. eauto.
Qed.

(** X27. The heartbeat: when the ping interval fires, one [ping] is sent
    on the store's socket if that socket is OPEN and nothing at all happens
    otherwise; the interval stays registered either way. *)
Theorem heartbeat_pings_open_socket
  (timer : nat) (period : Z) (w : WebSocketHook.World) :
  find (fun p => (fst p =? timer)%nat) (WebSocketHook.timers w)
  = Some (timer, WebSocketHook.ping_interval period) ->
  let w' := WebSocketHook.step w (WebSocketHook.timer_fired timer) in
  WebSocketHook.timers w' = WebSocketHook.timers w
  /\ WebSocketHook.store w' = WebSocketHook.store w
  /\ (WebSocketHook.isOpen (ws (WebSocketHook.store w)) w = false -> w' = w)
  /\ (forall h s,
         ws (WebSocketHook.store w) = Some h ->
         nth_error (WebSocketHook.sockets w) h = Some s ->
         WebSocketHook.readyState s = WebSocketHook.OPEN ->
         nth_error (WebSocketHook.sockets w') h = Some (ExtraSpec.posted ping s)
         /\ forall h', h' <> h ->
                       nth_error (WebSocketHook.sockets w') h'
                       = nth_error (WebSocketHook.sockets w) h').
Proof.
  intros Hfind. cbv zeta. cbn [WebSocketHook.step]. rewrite Hfind.
  unfold WebSocketHook.onPing.
  destruct (ws (WebSocketHook.store w)) as [h|] eqn:Ews.
  - destruct (WebSocketHook.isOpen (Some h) w) eqn:Hopen.
    + destruct (SessionMore.isOpen_socket h w Hopen) as (s & Hs & _).
      destruct (SessionMore.send_effects h ping s w Hs)
        as (H1 & H2 & H3 & _ & _ & H6 & _).
      cbv zeta in *. split; [exact H6|]. split; [exact H3|].
      split; [discriminate|].
      intros h0 s0 E Hs0 _. injection E as <-. rewrite Hs in Hs0.
      injection Hs0 as <-. auto.
    + split; [reflexivity|]. split; [reflexivity|]. split; [reflexivity|].
      intros h0 s0 E Hs0 Hr. exfalso. injection E as <-.
      rewrite (SessionMore3.isOpen_of_socket h s0 w Hs0 Hr) in Hopen.
      discriminate.
  - split; [reflexivity|]. split; [reflexivity|]. split; [reflexivity|].
    discriminate.
Qed.

Lemma heartbeat_pings_open_socket_witness :
  find (fun p => (fst p =? 1)%nat) (WebSocketHook.timers Examples.connected_session)
  = Some (1%nat, WebSocketHook.ping_interval WebSocketHook.PING_INTERVAL)
  /\ WebSocketHook.timers
       (WebSocketHook.step Examples.connected_session (WebSocketHook.timer_fired 1))
     = WebSocketHook.timers Examples.connected_session.
Proof.
  assert (H : find (fun p => (fst p =? 1)%nat)
                (WebSocketHook.timers Examples.connected_session)
              = Some (1%nat, WebSocketHook.ping_interval WebSocketHook.PING_INTERVAL))
    by reflexivity.
  split; [exact H|].
  exact (proj1 (heartbeat_pings_open_socket 1 WebSocketHook.PING_INTERVAL
                  Examples.connected_session H)).
Defined.



Module StoreMore.
Import Protocol Store StoreOps.

Lemma set_messages_fields (ms : list ChatMessage) (s : ChatState) :
  let s' := set_messages ms s in
  messages s' = ms
  /\ connectionStatus s' = connectionStatus s /\ errorMessage s' = errorMessage s
  /\ apiToken s' = apiToken s /\ ws s' = ws s
  /\ currentCharacter s' = currentCharacter s /\ characters s' = characters s
  /\ partialTranscription s' = partialTranscription s
  /\ pipelineStage s' = pipelineStage s /\ isThinking s' = isThinking s
  /\ voiceMode s' = voiceMode s /\ isRecording s' = isRecording s
  /\ isPlaying s' = isPlaying s /\ volumeLevel s' = volumeLevel s
  /\ volumeLevelRef s' = volumeLevelRef s.
Proof. destruct s. cbn. auto 20. Qed.

Lemma last_index {A : Type} (l : list A) (x : A) :
  (List.length (l ++ [x]) - 1 = List.length l)%nat.
Proof. rewrite length_app. cbn. lia. Qed.

End StoreMore.

(** X29. [updateLastMessage] rewrites only the last entry of the log, and
    of that entry only the content and the partial flag: the earlier
    messages, and the last one's id, role, translation, emotion and
    timestamp, are kept, as is every other field of the store.  On an
    empty log it changes nothing. *)
Theorem updateLastMessage_rewrites_last_only
  (content_ : string) (isPartial_ : bool) (s : ChatState) :
  let s' := StoreOps.updateLastMessage content_ isPartial_ s in
  (messages s = [] -> s' = s)
  /\ (forall earlier lastMessage,
         messages s = earlier ++ [lastMessage] ->
         messages s'
         = earlier ++ [{| id := id lastMessage; role := role lastMessage;
                          content := content_;
                          contentJp := contentJp lastMessage;
                          emotion := emotion lastMessage;
                          timestamp := timestamp lastMessage;
                          isPartial := Some isPartial_ |}])
  /\ List.length (messages s') = List.length (messages s)
  /\ connectionStatus s' = connectionStatus s /\ errorMessage s' = errorMessage s
  /\ apiToken s' = apiToken s /\ ws s' = ws s
  /\ currentCharacter s' = currentCharacter s /\ characters s' = characters s
  /\ partialTranscription s' = partialTranscription s
  /\ pipelineStage s' = pipelineStage s /\ isThinking s' = isThinking s
  /\ voiceMode s' = voiceMode s /\ isRecording s' = isRecording s
  /\ isPlaying s' = isPlaying s /\ volumeLevel s' = volumeLevel s
  /\ volumeLevelRef s' = volumeLevelRef s.
Proof.
  cbv zeta. unfold StoreOps.updateLastMessage.
  set (ms' := if (0 <? List.length (messages s))%nat then _ else _).
  destruct (StoreMore.set_messages_fields ms' s) as (Hm & Hrest).
  cbv zeta in *.
  assert (Hlast : forall earlier lastMessage,
             messages s = earlier ++ [lastMessage] ->
             ms' = earlier ++ [{| id := id lastMessage; role := role lastMessage;
                                  content := content_;
                                  contentJp := contentJp lastMessage;
                                  emotion := emotion lastMessage;
                                  timestamp := timestamp lastMessage;
                                  isPartial := Some isPartial_ |}]).
  { intros earlier lastMessage E. unfold ms'. rewrite E.
    rewrite StoreMore.last_index, SessionMore2.nth_error_last,
      SessionMore2.aset_last.
    rewrite length_app. cbn. now rewrite Nat.add_1_r. }
  split; [|split; [|split]].
  - intros E. unfold ms'. rewrite E. cbn. destruct s. cbn in *. now subst.
  - intros earlier lastMessage E. rewrite Hm. now apply Hlast.
  - rewrite Hm.
    assert (Hcase : messages s = [] \/ exists l m0, messages s = l ++ [m0])
      by (destruct (messages s) using rev_ind; eauto).
    destruct Hcase as [E | (l & m0 & E)].
    + unfold ms'. rewrite E. reflexivity.
    + rewrite (Hlast l m0 E), E. now rewrite !length_app.
  - exact Hrest.
Qed.

Module WiringFacts.
Import Protocol Store WebSocketHook SessionOps ExtraSpec.

Lemma length_aset {A : Type} (l : list A) (i : nat) (v : A) :
  List.length (aset i v l) = List.length l.
Proof.
  revert i. induction l as [|a l IH]; intros [|i]; cbn; auto.
Qed.


Lemma wiring_call_setWs (x : option nat) (w : World) :
  wiring (call (setWs x) w)
  = (x, List.length (sockets w), timers w, timersCreated w).
Proof. destruct w as [st cl con socks pg rc tm n]. destruct st. reflexivity. Qed.

Lemma wiring_update_socket (h : nat) (f : Socket -> Socket) (w : World) :
  wiring (update_socket h f w) = wiring w.
Proof.
  unfold update_socket. destruct (nth_error (sockets w) h); [|reflexivity].
  destruct w as [st cl con socks pg rc tm n]. unfold wiring. cbn.
  now rewrite length_aset.
Qed.

Lemma wiring_console_error (text : string) (w : World) :
  wiring (console_error text w) = wiring w.
Proof. now destruct w. Qed.


Lemma wiring_sendMessage (m : ClientMessage) (w : World) :
  wiring (sendMessage m w) = wiring w.
Proof.
  unfold sendMessage, send. destruct (ws (store w)).
  - destruct (isOpen _ w);
      [apply wiring_update_socket | apply wiring_console_error].
  - apply wiring_console_error.
Qed.

















End WiringFacts.


